(** * Case aggregation and deduplicated reporting of the XSS LSP extension

    A shallow embedding of [out/extension.js]: the case extractor
    ([extractCases]), the diagnostic matcher ([caseHasIssue]), the change
    tracker (the document event handlers of [activate]), the terminal
    accessor ([getCaseTerminal]) and the reporter ([reportXssDiagnostics]),
    followed by the properties of the specification that were checked
    against them. Then the rest of the module: the search for the
    interpreter ([resolvePythonPath]), [activate] and [deactivate], and the
    handlers of [activate] as turns of the event loop, with further
    properties of the code.

    Conventions of the embedding.
    - A JavaScript string is the list of its UTF-16 code units ([list N]).
    - Line numbers, columns and clock readings in milliseconds are
      integers ([Z]); the host supplies them far below 2^53, where the
      arithmetic of the program on them is exact.
    - A number that the program converts to text is a Number of the
      language ([JS.number]): a binary64 value that holds an integer, or an
      infinity. [Number(match[1])] rounds the digits of a marker to such a
      value ([JS.Number_of_digits]), and a template literal prints it with
      the digits of Number::toString ([JS.ToString]): all digits below
      2^53, the shortest digits that read back as the same value above, and
      the exponent form from 10^21 on. An integer of the model enters a
      template literal as the Number nearest to it ([JS.of_Z]).
    - [elapsedMs / 1000] followed by [toFixed(2)] is modelled with the
      exact binary64 rounding (see [JS.div1000] and [JS.toFixed2]).
    - The two module-level maps are [gmap]s keyed by the URI string.
    - Effects on the host (output channel, terminal) are recorded as a list
      of events; an exception that leaves [reportXssDiagnostics] is a
      [Throw] completion carrying the state reached so far.
    - A call of [reportXssDiagnostics] runs to completion: the host answers
      each [await] at once, and no other handler runs in between. The
      turns of the event loop ([run]) lift this: there a call is suspended
      at each [await] and other handlers may run before it is resumed. *)

From Stdlib Require Import ZArith NArith List Lia Bool.
From Stdlib Require Import DecimalN DecimalPos DecimalFacts.
From stdpp Require Import base option list sorting strings gmap.

Local Open Scope Z_scope.

(** ** JavaScript values *)

Module JS.

(** Code units of an ASCII literal of the source. *)
Fixpoint lit (s : String.string) : list N :=
  match s with
  | String.EmptyString => []
  | String.String a s' => Ascii.N_of_ascii a :: lit s'
  end.
Arguments lit _%_string : simpl never.

Definition is_digit (c : N) : bool := ((48 <=? c) && (c <=? 57))%N.

(** [\w] without the [u] flag: [A-Za-z0-9_]. *)
Definition is_word (c : N) : bool :=
  (((65 <=? c) && (c <=? 90)) || ((97 <=? c) && (c <=? 122))
   || is_digit c || (c =? 95))%N.

(** [\s]: the WhiteSpace and LineTerminator code points of ECMAScript. *)
Definition is_space (c : N) : bool :=
  (((9 <=? c) && (c <=? 13)) || (c =? 32) || (c =? 160) || (c =? 5760)
   || ((8192 <=? c) && (c <=? 8202)) || (c =? 8232) || (c =? 8233)
   || (c =? 8239) || (c =? 8287) || (c =? 12288) || (c =? 65279))%N.

(** *** Number values

    The numbers that the program converts to strings hold integers: case
    ids, line numbers, columns and the flag of a case. A Number is a
    binary64 value, so that not every integer is one: from 2^53 on only
    the integers with 53 significant bits are, and beyond the largest of
    them there is the infinity. NaN, fractions and the negative zero do
    not arise from the operations modelled here. *)

Inductive value :=
| Finite (z : Z)
| Infinite (negative : bool).

(** [a / b] rounded to the nearest integer, ties to even. *)
Definition quot_half_even (a b : Z) : Z :=
  let q := a / b in
  let r := a mod b in
  if 2 * r <? b then q
  else if b <? 2 * r then q + 1
  else if Z.even q then q else q + 1.

(** The integer is a binary64 value: it has at most 53 significant bits
    and lies below 2^1024. *)
Definition representable (z : Z) : bool :=
  let a := Z.abs z in
  let sh := Z.log2 a - 52 in
  (sh <=? 0) || ((a mod 2 ^ sh =? 0) && (a <? 2 ^ 1024)).

Definition is_Number (v : value) : bool :=
  match v with
  | Finite z => representable z
  | Infinite _ => true
  end.

Record number := { value_of : value; value_ok : Is_true (is_Number value_of) }.

(** The Number for the real number [z]: the binary64 value nearest to it,
    the one with the even significand if two are equally near, and the
    infinity from 2^1024 - 2^970 on. *)
Definition nearest (z : Z) : value :=
  let a := Z.abs z in
  let sh := Z.log2 a - 52 in
  if sh <=? 0 then Finite z
  else
    let r := quot_half_even a (2 ^ sh) * 2 ^ sh in
    if r <? 2 ^ 1024 then Finite (Z.sgn z * r) else Infinite (z <? 0).

Definition Is_true_dec (b : bool) : {Is_true b} + {~ Is_true b} :=
  match b with
  | true => left I
  | false => right (fun H => H)
  end.

(** A value as a Number. The second case is not met: [nearest] returns
    binary64 values only (lemma [of_Z_value]). *)
Definition of_value (v : value) : number :=
  match Is_true_dec (is_Number v) with
  | left ok => {| value_of := v; value_ok := ok |}
  | right _ => {| value_of := Finite 0; value_ok := I |}
  end.

(** An integer of the model as the Number that the program holds: line
    numbers and columns of the host, sums such as [line + 1], and the
    literals [1] and [0]. *)
Definition of_Z (z : Z) : number := of_value (nearest z).

(** *** String to number, for a string of decimal digits *)

(** The mathematical value of the digits. *)
Definition decimal (ds : list N) : Z :=
  fold_left (fun acc c => 10 * acc + (Z.of_N c - 48)) ds 0.

(** [Number(ds)]: the mathematical value, rounded to a Number. (The
    language lets an engine cut the digits after the 20th; V8, the engine
    of the host, rounds the exact value.) *)
Definition Number_of_digits (ds : list N) : number := of_Z (decimal ds).

(** *** Number to string *)

Fixpoint uint_units (d : Decimal.uint) : list N :=
  match d with
  | Decimal.Nil => []
  | Decimal.D0 d => 48%N :: uint_units d
  | Decimal.D1 d => 49%N :: uint_units d
  | Decimal.D2 d => 50%N :: uint_units d
  | Decimal.D3 d => 51%N :: uint_units d
  | Decimal.D4 d => 52%N :: uint_units d
  | Decimal.D5 d => 53%N :: uint_units d
  | Decimal.D6 d => 54%N :: uint_units d
  | Decimal.D7 d => 55%N :: uint_units d
  | Decimal.D8 d => 56%N :: uint_units d
  | Decimal.D9 d => 57%N :: uint_units d
  end.

(** Decimal digits of a natural number, most significant first, ["0"] for
    zero. *)
Definition digits (n : N) : list N := uint_units (N.to_uint n).

(** The integer [v] converts to the Number [a]. *)
Definition round_trips (a v : Z) : bool :=
  match nearest v with
  | Finite b => b =? a
  | Infinite _ => false
  end.

(** The integers [s * p] next to [a], below and above; of those that
    convert to [a], the one closer to [a], and the one with the even [s]
    if both are equally close. *)
Definition candidate (a p : Z) : option Z :=
  let lo := a / p * p in
  let hi := lo + p in
  match round_trips a lo, round_trips a hi with
  | true, true =>
      Some (if a - lo <? hi - a then lo
            else if hi - a <? a - lo then hi
            else if Z.even (a / p) then lo else hi)
  | true, false => Some lo
  | false, true => Some hi
  | false, false => None
  end.

(** The search for the least number [k] of significant digits, from [k]
    upwards; [n] is the number of digits of [a]. *)
Fixpoint shortest_from (a : Z) (n k fuel : nat) : Z :=
  match fuel with
  | O => a
  | S fuel' =>
      match candidate a (10 ^ Z.of_nat (n - k)) with
      | Some v => v
      | None => shortest_from a n (S k) fuel'
      end
  end.

(** The integer [s * 10^(n-k)] of Number::toString for the Number [a],
    [0 <= a]: it converts to [a], [k] is as small as possible, and it is
    the closest such integer. With all [n] digits of [a] the integer is
    [a] itself, so that the search ends. *)
Definition shortest (a : Z) : Z :=
  let n := length (digits (Z.to_N a)) in
  shortest_from a n 1 n.

(** The digits without the zeros at the end. *)
Fixpoint strip_zeros (ds : list N) : list N :=
  match ds with
  | [] => []
  | d :: rest =>
      match strip_zeros rest with
      | [] => if (d =? 48)%N then [] else [d]
      | s => d :: s
      end
  end.

(** [d.ddde+x] for an integer of more than 21 digits [ds]. The first
    case is not met: such an integer has a digit that is not zero (lemma
    [exponent_form_met]). *)
Definition exponent_form (ds : list N) : list N :=
  match strip_zeros ds with
  | [] => ds
  | d :: frac =>
      d :: match frac with [] => [] | _ :: _ => 46%N :: frac end
        ++ [101; 43]%N ++ digits (N.of_nat (length ds - 1))
  end.

(** The text of the integer [v]: its digits up to 21 of them, and the
    exponent form from 10^21 on. *)
Definition print (v : Z) : list N :=
  let ds := digits (Z.to_N v) in
  if v <? 10 ^ 21 then ds else exponent_form ds.

(** [`${x}`] for a Number. *)
Definition ToString (x : number) : list N :=
  match value_of x with
  | Finite z => (if z <? 0 then [45%N] else []) ++ print (shortest (Z.abs z))
  | Infinite negative => (if negative then [45%N] else []) ++ lit "Infinity"
  end.

(** [x <= y] *)
Definition leb (x y : number) : bool :=
  match value_of x, value_of y with
  | Finite a, Finite b => a <=? b
  | Infinite negative, Finite _ => negative
  | Finite _, Infinite negative => negb negative
  | Infinite negative, Infinite negative' => negative || negb negative'
  end.

Arguments of_Z _ : simpl never.
Arguments Number_of_digits _ : simpl never.
Arguments ToString _ : simpl never.

(** *** Array.prototype.join *)

Fixpoint join (sep : list N) (l : list (list N)) : list N :=
  match l with
  | [] => []
  | [x] => x
  | x :: l' => x ++ sep ++ join sep l'
  end.

(** *** Array.prototype.sort without a comparator

    Elements are compared as strings, code unit by code unit. For strings
    the outcome of the sort is fixed by the order alone (equal elements are
    identical), so an insertion sort stands for the engine's algorithm. *)

Fixpoint str_leb (x y : list N) : bool :=
  match x, y with
  | [], _ => true
  | _ :: _, [] => false
  | a :: x', b :: y' => if (a <? b)%N then true else if (b <? a)%N then false else str_leb x' y'
  end.

Fixpoint insert_sorted (x : list N) (l : list (list N)) : list (list N) :=
  match l with
  | [] => [x]
  | y :: l' => if str_leb x y then x :: l else y :: insert_sorted x l'
  end.

Fixpoint sort (l : list (list N)) : list (list N) :=
  match l with
  | [] => []
  | x :: l' => insert_sorted x (sort l')
  end.

(** *** The elapsed seconds: binary64 division and toFixed(2)

    A finite non-negative binary64 value is a pair [(m, e)] standing for
    [m * 2^e]. The exponent range of the format plays no role for the
    values met here (quotients of positive integers below 2^53 by 1000). *)

(** [p / (q * 2^e)] as a fraction of integers. *)
Definition scaled (p q e : Z) : Z * Z :=
  if 0 <=? e then (p, q * 2 ^ e) else (p * 2 ^ (- e), q).

(** The binary64 quotient [p / q] of two integers, [0 <= p], [0 < q]:
    the exponent is chosen so that the significand has 53 bits, and the
    significand is rounded to nearest, ties to even. *)
Definition binary64_div (p q : Z) : Z * Z :=
  if p <=? 0 then (0, 0)
  else
    let e1 := Z.log2 p - Z.log2 q - 52 in
    let e := if 2 ^ 52 * snd (scaled p q e1) <=? fst (scaled p q e1) then e1 else e1 - 1 in
    (quot_half_even (fst (scaled p q e)) (snd (scaled p q e)), e).

(** [ms / 1000] *)
Definition div1000 (ms : Z) : Z * Z := binary64_div ms 1000.

(** The integer [n] for which [n / 100 - x] is as close to zero as
    possible, the larger one if there are two. *)
Definition nearest_hundredth (x : Z * Z) : Z :=
  let (m, e) := x in
  if 0 <=? e then 100 * m * 2 ^ e
  else (200 * m + 2 ^ (- e)) / 2 ^ (1 - e).

(** [x.toFixed(2)] for [0 <= x < 10^21]: the digits of [n], padded with
    zeros to three digits, with a point before the last two. *)
Definition toFixed2 (x : Z * Z) : list N :=
  let m := digits (Z.to_N (nearest_hundredth x)) in
  let m := if (length m <=? 2)%nat then replicate (3 - length m) 48%N ++ m else m in
  let k := length m in
  take (k - 2) m ++ lit "." ++ drop (k - 2) m.

End JS.

(** An integer where a Number is expected is the Number nearest to it. *)
Coercion JS.of_Z : Z >-> JS.number.

(** ** The regular expression of the case marker *)

Module Regex.

(** The fragment of the regular expression language that the marker
    pattern uses. A literal is a one-element class. *)
Inductive node :=
| AssertStart                      (* ^ (no m flag) *)
| AssertWordBoundary               (* \b *)
| Class (p : N -> bool)            (* one code unit of a class *)
| StarClass (p : N -> bool)        (* greedy  p*  *)
| GroupPlusClass (p : N -> bool).  (* capture group ( p+ ), greedy *)

(** Greedy iteration of a class with backtracking: take one more code unit
    if possible, and fall back to the continuation [k] at the current
    position when the longer attempt fails. [bef] is the text before the
    position, nearest code unit first; [acc] is what the iteration has
    consumed. *)
Fixpoint greedy {R} (p : N -> bool) (k : list N -> list N -> list N -> option R)
    (bef aft acc : list N) : option R :=
  match aft with
  | c :: aft' =>
      if p c then
        match greedy p k (c :: bef) aft' (acc ++ [c]) with
        | Some r => Some r
        | None => k bef aft acc
        end
      else k bef aft acc
  | [] => k bef aft acc
  end.

Definition word_at (s : list N) : bool :=
  match s with
  | c :: _ => JS.is_word c
  | [] => false
  end.

(** The backtracking matcher at one position; the result is the text of
    the capture group. *)
Fixpoint run (r : list node) (bef aft cap : list N) : option (list N) :=
  match r with
  | [] => Some cap
  | AssertStart :: r' =>
      match bef with
      | [] => run r' bef aft cap
      | _ :: _ => None
      end
  | AssertWordBoundary :: r' =>
      if xorb (word_at bef) (word_at aft) then run r' bef aft cap else None
  | Class p :: r' =>
      match aft with
      | c :: aft' => if p c then run r' (c :: bef) aft' cap else None
      | [] => None
      end
  | StarClass p :: r' =>
      greedy p (fun bef' aft' _ => run r' bef' aft' cap) bef aft []
  | GroupPlusClass p :: r' =>
      match aft with
      | c :: aft' =>
          if p c then
            greedy p (fun bef' aft' acc => run r' bef' aft' acc) (c :: bef) aft' [c]
          else None
      | [] => None
      end
  end.

(** [RegExp.prototype.exec] of a non-global expression: the first start
    position, from the left, at which the matcher succeeds. *)
Fixpoint exec_from (r : list node) (bef aft : list N) : option (list N) :=
  match run r bef aft [] with
  | Some cap => Some cap
  | None =>
      match aft with
      | c :: aft' => exec_from r (c :: bef) aft'
      | [] => None
      end
  end.

(** [text.match(r)], reduced to [match[1]]. *)
Definition String_match (text : list N) (r : list node) : option (list N) :=
  exec_from r [] text.

(** A letter of the pattern under the [i] flag (without [u]): only the
    two ASCII forms of the letter canonicalize to it. [upper] is the code
    unit of the upper-case letter. *)
Definition letter_i (upper : N) : N -> bool :=
  fun c => ((c =? upper) || (c =? upper + 32))%N.

Definition chr (a : N) : N -> bool := fun c => (c =? a)%N.

(** [/^\s*#\s*CASE\s*(\d+)\b/i] *)
Definition case_marker : list node :=
  [ AssertStart; StarClass JS.is_space; Class (chr 35);
    StarClass JS.is_space;
    Class (letter_i 67); Class (letter_i 65); Class (letter_i 83); Class (letter_i 69);
    StarClass JS.is_space; GroupPlusClass JS.is_digit; AssertWordBoundary ].

End Regex.

(** ** The host: documents, diagnostics, clock *)

Record Position := { line : Z; character : Z }.

Record Range := { start : Position; end_ : Position }.

Record Diagnostic := {
  range : Range;
  message : list N;
  source : option (list N)   (* [None]: the diagnostic carries no source *)
}.

(** A [vscode.Uri]: what [uri.toString()] and
    [path.basename(uri.fsPath)] give for it. *)
Record Uri := { uri_toString : list N; fsPath_basename : list N }.

(** A text document is the list of the texts of its lines. *)
Record TextDocument := { lines : list (list N) }.

Definition lineCount (doc : TextDocument) : Z := Z.of_nat (length (lines doc)).

(** [doc.lineAt(i).text]; [None] when [lineAt] throws (line out of range). *)
Definition lineAt (doc : TextDocument) (i : Z) : option (list N) :=
  if (0 <=? i) && (i <? lineCount doc) then lines doc !! Z.to_nat i else None.

Record Host := {
  (* [None]: the promise of [vscode.workspace.openTextDocument] is rejected *)
  openTextDocument : Uri -> option TextDocument;
  (* [vscode.languages.getDiagnostics(uri)], all sources *)
  getDiagnostics : Uri -> list Diagnostic
}.

(** ** Case extractor and diagnostic matcher *)

Record Case := { id : JS.number; startLine : Z; endLine : Z }.

Definition set_endLine (c : Case) (e : Z) : Case :=
  {| id := id c; startLine := startLine c; endLine := e |}.

(** The body of the first loop of [extractCases] at index [i]. *)
Definition scan_line (doc : TextDocument) (cases : list Case) (i : nat) : list Case :=
  match lines doc !! i with
  | Some text =>
      match Regex.String_match text Regex.case_marker with
      | Some m1 =>
          cases ++ [ {| id := JS.Number_of_digits m1;
                        startLine := Z.of_nat i;
                        endLine := lineCount doc - 1 |} ]
      | None => cases
      end
  | None => cases
  end.

(** The body of the second loop: [cases[i].endLine = cases[i + 1].startLine - 1]. *)
Definition fix_endLine (cases : list Case) (i : nat) : list Case :=
  match cases !! i, cases !! S i with
  | Some c, Some d => <[ i := set_endLine c (startLine d - 1) ]> cases
  | _, _ => cases
  end.

Definition extractCases (doc : TextDocument) : list Case :=
  let cases := fold_left (scan_line doc) (seq 0 (length (lines doc))) [] in
  fold_left fix_endLine (seq 0 (length cases - 1)) cases.

Definition caseHasIssue (diagnostics : list Diagnostic) (caseRange : Case) : bool :=
  existsb (fun diag =>
             let line := line (start (range diag)) in
             (startLine caseRange <=? line) && (line <=? endLine caseRange))
          diagnostics.

(** ** Module state, events and the reporter *)

Record State := {
  outputChannel : bool;              (* created by [activate] or still undefined *)
  caseTerminal : option nat;
  caseTerminalWriter : option nat;
  lastReports : gmap (list N) (list N);
  lastChangeAt : gmap (list N) Z;
  created : nat                      (* terminals the host has created so far *)
}.

(** What the host observes. Terminals and their write emitters are named
    by the rank of their creation. *)
Inductive event :=
| ChannelShow                               (* outputChannel.show(true) *)
| ChannelAppendLine (s : list N)            (* outputChannel.appendLine(s) *)
| TerminalCreate (t : nat)                  (* vscode.window.createTerminal *)
| TerminalShow (t : nat)                    (* terminal.show(true) *)
| WriterFire (w : nat) (s : list N).        (* writer.fire(s) *)

Definition set_lastReports (s : State) (m : gmap (list N) (list N)) : State :=
  {| outputChannel := outputChannel s; caseTerminal := caseTerminal s;
     caseTerminalWriter := caseTerminalWriter s; lastReports := m;
     lastChangeAt := lastChangeAt s; created := created s |}.

Definition set_lastChangeAt (s : State) (m : gmap (list N) Z) : State :=
  {| outputChannel := outputChannel s; caseTerminal := caseTerminal s;
     caseTerminalWriter := caseTerminalWriter s; lastReports := lastReports s;
     lastChangeAt := m; created := created s |}.

(** The three document handlers of [activate] (changed, saved, opened)
    have this one body; [now] is the reading of [Date.now()]. *)
Definition onDidChangeTextDocument (languageId : list N) (uri : Uri) (now : Z)
    (s : State) : State :=
  if decide (languageId = JS.lit "python")
  then set_lastChangeAt s (<[ uri_toString uri := now ]> (lastChangeAt s))
  else s.

Definition onDidSaveTextDocument := onDidChangeTextDocument.
Definition onDidOpenTextDocument := onDidChangeTextDocument.

Definition onDidCloseTerminal (terminal : nat) (s : State) : State :=
  if decide (caseTerminal s = Some terminal) then
    {| outputChannel := outputChannel s; caseTerminal := None;
       caseTerminalWriter := None; lastReports := lastReports s;
       lastChangeAt := lastChangeAt s; created := created s |}
  else s.

(** Returns the terminal, its writer, the new state and the events. *)
Definition getCaseTerminal (s : State) : nat * nat * State * list event :=
  match caseTerminal s, caseTerminalWriter s with
  | Some t, Some w => (t, w, s, [])
  | _, _ =>
      let n := created s in
      (n, n,
       {| outputChannel := outputChannel s; caseTerminal := Some n;
          caseTerminalWriter := Some n; lastReports := lastReports s;
          lastChangeAt := lastChangeAt s; created := S n |},
       [TerminalCreate n])
  end.

(** The globals together with the locals of one call of
    [reportXssDiagnostics]: the two flags, the number of clock readings
    taken so far, and the events emitted so far. *)
Record Loop := {
  st : State;
  shown : bool;
  terminalShown : bool;
  reads : nat;
  out : list event
}.

Inductive completion :=
| Normal (l : Loop)
| Throw (l : Loop).

Definition loop_of (c : completion) : Loop :=
  match c with Normal l => l | Throw l => l end.

Definition is_xss (diag : Diagnostic) : bool :=
  bool_decide (source diag = Some (JS.lit "xss-lsp")).

(** "성공" (success) and "실패" (failure), as UTF-16 code units. *)
Definition label_success : list N := [49457; 44277]%N.
Definition label_failure : list N := [49892; 54056]%N.

(** "번 케이스" *)
Definition case_word : list N := [48264; 32; 52992; 51060; 49828]%N.

Definition case_entry (diagnostics : list Diagnostic) (c : Case) : list N :=
  JS.ToString (id c) ++ JS.lit ":"
    ++ JS.ToString (if caseHasIssue diagnostics c then 1 else 0).

Definition case_line (diagnostics : list Diagnostic) (elapsedSec : Z * Z) (c : Case) : list N :=
  let ok := caseHasIssue diagnostics c in
  let status := if ok then label_success else label_failure in
  JS.lit "### " ++ JS.ToString (id c) ++ case_word ++ JS.lit " -> " ++ status
    ++ JS.lit " " ++ JS.toFixed2 elapsedSec ++ JS.lit "s".

Definition flat_entry (diag : Diagnostic) : list N :=
  let r := range diag in
  JS.ToString (line (start r)) ++ JS.lit ":" ++ JS.ToString (character (start r))
    ++ JS.lit ":" ++ JS.ToString (line (end_ r)) ++ JS.lit ":"
    ++ JS.ToString (character (end_ r)) ++ JS.lit ":" ++ message diag.

Definition report_key (diagnostics : list Diagnostic) (cases : list Case) : list N :=
  JS.join (JS.lit "|") (map (case_entry diagnostics) cases).

Definition flat_fingerprint (diagnostics : list Diagnostic) : list N :=
  JS.join (JS.lit "|") (JS.sort (map flat_entry diagnostics)).

(** The last loop of the case branch. *)
Definition render_cases (writer : nat) (diagnostics : list Diagnostic)
    (elapsedSec : Z * Z) (cases : list Case) : list event :=
  flat_map (fun c =>
              let line := case_line diagnostics elapsedSec c in
              [ChannelAppendLine line; WriterFire writer (line ++ [13; 10]%N)])
           cases.

(** The last loop of the flat branch; [inr] when [doc.lineAt] throws, with
    the events emitted before. *)
Fixpoint render_flat (doc : TextDocument) (uri : Uri) (diagnostics : list Diagnostic)
    (acc : list event) : list event + list event :=
  match diagnostics with
  | [] => inl acc
  | diag :: rest =>
      let line := line (start (range diag)) in
      let col := character (start (range diag)) in
      match lineAt doc line with
      | None => inr acc
      | Some lineText =>
          render_flat doc uri rest
            (acc ++ [ ChannelAppendLine
                        (JS.lit "[XSS] " ++ fsPath_basename uri ++ JS.lit ":"
                           ++ JS.ToString (line + 1) ++ JS.lit ":"
                           ++ JS.ToString (col + 1) ++ JS.lit " " ++ message diag);
                      ChannelAppendLine lineText ])
      end
  end.

Definition with_state (l : Loop) (s : State) (rd : nat) : Loop :=
  {| st := s; shown := shown l; terminalShown := terminalShown l; reads := rd; out := out l |}.

(** [if (!shown) { outputChannel.show(true); shown = true; }] *)
Definition reveal_channel (l : Loop) : Loop :=
  if shown l then l
  else {| st := st l; shown := true; terminalShown := terminalShown l;
          reads := reads l; out := out l ++ [ChannelShow] |}.

(** [if (!terminalShown) { terminal.show(true); terminalShown = true; }] *)
Definition reveal_terminal (terminal : nat) (l : Loop) : Loop :=
  if terminalShown l then l
  else {| st := st l; shown := shown l; terminalShown := true;
          reads := reads l; out := out l ++ [TerminalShow terminal] |}.

Definition emit (l : Loop) (es : list event) : Loop :=
  {| st := st l; shown := shown l; terminalShown := terminalShown l;
     reads := reads l; out := out l ++ es |}.

(** One iteration of [for (const uri of uris)]. [clock n] is the [n]-th
    reading of [Date.now()] in this call. *)
Definition report_uri (h : Host) (clock : nat -> Z) (uri : Uri) (l : Loop) : completion :=
  let uriKey := uri_toString uri in
  match openTextDocument h uri with
  | None => Throw l
  | Some doc =>
      let diagnostics := List.filter is_xss (getDiagnostics h uri) in
      let cases := extractCases doc in
      if (0 <? length cases)%nat then
        let now := clock (reads l) in
        let last :=
          match lastChangeAt (st l) !! uriKey with
          | Some t => (t, S (reads l))
          | None => (clock (S (reads l)), S (S (reads l)))
          end in
        let elapsedMs := now - fst last in
        let elapsedSec := JS.div1000 (Z.max 0 elapsedMs) in
        let reportKey := report_key diagnostics cases in
        if decide (lastReports (st l) !! uriKey = Some reportKey) then
          Normal (with_state l (st l) (snd last))
        else
          let l := with_state l (set_lastReports (st l) (<[ uriKey := reportKey ]> (lastReports (st l))))
                     (snd last) in
          let l := reveal_channel l in
          let '(terminal, writer, s, created_events) := getCaseTerminal (st l) in
          let l := emit (with_state l s (reads l)) created_events in
          let l := reveal_terminal terminal l in
          Normal (emit l (render_cases writer diagnostics elapsedSec cases))
      else if (length diagnostics =? 0)%nat then Normal l
      else
        let fingerprint := flat_fingerprint diagnostics in
        if decide (lastReports (st l) !! uriKey = Some fingerprint) then Normal l
        else
          let l := with_state l (set_lastReports (st l) (<[ uriKey := fingerprint ]> (lastReports (st l))))
                     (reads l) in
          let l := reveal_channel l in
          match render_flat doc uri diagnostics [] with
          | inl es => Normal (emit l es)
          | inr es => Throw (emit l es)
          end
  end.

Fixpoint for_uris (h : Host) (clock : nat -> Z) (uris : list Uri) (l : Loop) : completion :=
  match uris with
  | [] => Normal l
  | uri :: rest =>
      match report_uri h clock uri l with
      | Normal l' => for_uris h clock rest l'
      | Throw l' => Throw l'
      end
  end.

Definition enter (s : State) : Loop :=
  {| st := s; shown := false; terminalShown := false; reads := 0; out := [] |}.

Definition reportXssDiagnostics (h : Host) (clock : nat -> Z) (uris : list Uri)
    (s : State) : completion :=
  if outputChannel s then for_uris h clock uris (enter s)
  else Normal (enter s).

(** ** Activation and the delivery of notifications *)

(** What [activate] reads of the value of [spawnSync]. *)
Record SpawnSyncReturns := {
  error : bool;            (* [result.error] is defined *)
  status : option Z        (* [result.status]; [None] is null *)
}.

(** [!candidate] for a string. *)
Definition falsy (candidate : list N) : bool :=
  match candidate with
  | [] => true
  | _ :: _ => false
  end.

(** [!result.error && result.status === 0] *)
Definition ran (result : SpawnSyncReturns) : bool :=
  negb (error result) && bool_decide (status result = Some 0).

(** The loop of [resolvePythonPath]. [spawnSync n c] is the value of the
    [n]-th call of the function, [spawnSync(c, ["--version"], { stdio:
    "ignore" })]; [n] counts the calls made so far. *)
Fixpoint first_candidate (spawnSync : nat -> list N -> SpawnSyncReturns) (n : nat)
    (candidates : list (list N)) : option (list N) :=
  match candidates with
  | [] => None
  | candidate :: rest =>
      if falsy candidate then first_candidate spawnSync n rest
      else
        let result := spawnSync n candidate in
        if ran result then Some candidate
        else first_candidate spawnSync (S n) rest
  end.

Definition resolvePythonPath (spawnSync : nat -> list N -> SpawnSyncReturns)
    (configured : list N) : option (list N) :=
  first_candidate spawnSync 0 [configured; JS.lit "python3"; JS.lit "python"].

(** The paths [activate] asks of the extension context. *)
Record ExtensionContext := {
  server_py : list N;      (* context.asAbsolutePath(path.join("server", "server.py")) *)
  server_dir : list N      (* context.asAbsolutePath("server") *)
}.

Record ServerOptions := { command : list N; args : list (list N); cwd : list N }.

(** What [activate] and [deactivate] do to the window and to the client. *)
Inductive lifecycle_event :=
| ShowErrorMessage (text : list N)
| ShowInformationMessage (text : list N)
| CreateOutputChannel (name : list N)
| ClientStart (options : ServerOptions)
| ClientStop.

(** The module variables [client] and [outputChannel] (with the other
    globals), and whether the handlers of [activate] are subscribed. *)
Record Extension := {
  client : option ServerOptions;
  globals : State;
  subscribed : bool
}.

Definition set_outputChannel (s : State) : State :=
  {| outputChannel := true; caseTerminal := caseTerminal s;
     caseTerminalWriter := caseTerminalWriter s; lastReports := lastReports s;
     lastChangeAt := lastChangeAt s; created := created s |}.

(** [cfg.get("pythonPath") || "python"] *)
Definition configuredPython (setting : option (list N)) : list N :=
  match setting with
  | Some p => if falsy p then JS.lit "python" else p
  | None => JS.lit "python"
  end.

(** [activate(context)]; [setting] is [cfg.get("pythonPath")]. *)
Definition activate (context : ExtensionContext) (setting : option (list N))
    (spawnSync : nat -> list N -> SpawnSyncReturns) (e : Extension)
    : Extension * list lifecycle_event :=
  match resolvePythonPath spawnSync (configuredPython setting) with
  | None =>
      (e, [ShowErrorMessage
             (JS.lit "XSS LSP: Python executable not found. Set xssLsp.pythonPath to python3 or a full path.")])
  | Some pythonPath =>
      let serverOptions :=
        {| command := pythonPath; args := [server_py context]; cwd := server_dir context |} in
      ({| client := Some serverOptions;
          globals := set_outputChannel (globals e);
          subscribed := true |},
       [ CreateOutputChannel (JS.lit "XSS LSP Issues");
         ClientStart serverOptions;
         ShowInformationMessage (JS.lit "XSS LSP started (Python AST).") ])
  end.

(** [deactivate()]; [stopped] tells whether the promise of [client.stop()]
    is fulfilled. When it is rejected the assignment is not reached. *)
Definition deactivate (stopped : bool) (e : Extension) : Extension * list lifecycle_event :=
  match client e with
  | Some _ =>
      if stopped
      then ({| client := None; globals := globals e; subscribed := subscribed e |}, [ClientStop])
      else (e, [ClientStop])
  | None => (e, [])
  end.

(** The notifications the handlers of [activate] subscribe to. *)
Inductive notification :=
| DidChangeDiagnostics (uris : list Uri)
| DidChangeTextDocument (languageId : list N) (uri : Uri)
| DidSaveTextDocument (languageId : list N) (uri : Uri)
| DidOpenTextDocument (languageId : list N) (uri : Uri)
| DidCloseTerminal (terminal : nat).

(** A call of [reportXssDiagnostics] suspended at
    [await vscode.workspace.openTextDocument(uri)]: its locals, the URI it
    waits for and the URIs after it. *)
Record Call := {
  call_shown : bool;
  call_terminalShown : bool;
  call_reads : nat;
  awaited : Uri;
  remaining : list Uri
}.

(** The module between two turns of the event loop: its variables and the
    calls that are suspended. *)
Record Running := { vars : State; calls : list Call }.

(** The loop reaches the next [await], or its end. *)
Definition suspend (l : Loop) (uris : list Uri) : list Call :=
  match uris with
  | [] => []
  | uri :: rest =>
      [ {| call_shown := shown l; call_terminalShown := terminalShown l;
           call_reads := reads l; awaited := uri; remaining := rest |} ]
  end.

(** A call continues with the variables as they are now. *)
Definition resumed (s : State) (c : Call) : Loop :=
  {| st := s; shown := call_shown c; terminalShown := call_terminalShown c;
     reads := call_reads c; out := [] |}.

(** A handler of [activate] runs up to its end or its first [await];
    [now] is the reading of [Date.now()]. *)
Definition notify (n : notification) (now : Z) (r : Running) : Running :=
  match n with
  | DidChangeDiagnostics uris =>
      if outputChannel (vars r)
      then {| vars := vars r; calls := calls r ++ suspend (enter (vars r)) uris |}
      else r
  | DidChangeTextDocument languageId uri =>
      {| vars := onDidChangeTextDocument languageId uri now (vars r); calls := calls r |}
  | DidSaveTextDocument languageId uri =>
      {| vars := onDidSaveTextDocument languageId uri now (vars r); calls := calls r |}
  | DidOpenTextDocument languageId uri =>
      {| vars := onDidOpenTextDocument languageId uri now (vars r); calls := calls r |}
  | DidCloseTerminal terminal =>
      {| vars := onDidCloseTerminal terminal (vars r); calls := calls r |}
  end.

(** The promise that the [i]-th suspended call awaits is settled by the
    host [h]: the call runs the rest of the iteration and on to its next
    [await], its end, or the exception that ends it. *)
Definition settle (i : nat) (h : Host) (clock : nat -> Z) (r : Running)
    : Running * list event :=
  match calls r !! i with
  | None => (r, [])
  | Some c =>
      match report_uri h clock (awaited c) (resumed (vars r) c) with
      | Normal l =>
          ({| vars := st l;
              calls := take i (calls r) ++ suspend l (remaining c) ++ drop (S i) (calls r) |},
           out l)
      | Throw l => ({| vars := st l; calls := delete i (calls r) |}, out l)
      end
  end.

(** The turns of the event loop that reach the module. *)
Inductive turn :=
| Notified (n : notification) (now : Z)
| Settled (i : nat) (h : Host) (clock : nat -> Z).

Definition step (t : turn) (r : Running) : Running * list event :=
  match t with
  | Notified n now => (notify n now r, [])
  | Settled i h clock => settle i h clock r
  end.

Fixpoint run (turns : list turn) (r : Running) : Running * list event :=
  match turns with
  | [] => (r, [])
  | t :: rest =>
      let (r1, o1) := step t r in
      let (r2, o2) := run rest r1 in
      (r2, o1 ++ o2)
  end.

(** * Notions used in the statements *)

(** ** Marker lines *)

(** The four letters of the keyword, in either case. *)
Definition keyword (kw : list N) : Prop :=
  exists c a s e,
    kw = [c; a; s; e] /\ Regex.letter_i 67 c = true /\ Regex.letter_i 65 a = true /\
    Regex.letter_i 83 s = true /\ Regex.letter_i 69 e = true.

(** The shape of a marker line, read off the pattern: blanks, a hash,
    blanks, the keyword, blanks, a non-empty run of digits [ds] that is not
    followed by a word character. *)
Definition marker_shape (text ds : list N) : Prop :=
  exists ws1 ws2 kw ws3 rest,
    text = ws1 ++ [35%N] ++ ws2 ++ kw ++ ws3 ++ ds ++ rest /\
    forallb JS.is_space ws1 = true /\ forallb JS.is_space ws2 = true /\
    keyword kw /\ forallb JS.is_space ws3 = true /\
    ds <> [] /\ forallb JS.is_digit ds = true /\ Regex.word_at rest = false.

(** The first code unit of a line that is not white space. *)
Definition first_non_space (text : list N) : option N :=
  List.find (fun c => negb (JS.is_space c)) text.

(** The id a line carries when it is a marker. *)
Definition marker_id (text : list N) : option JS.number :=
  JS.Number_of_digits <$> Regex.String_match text Regex.case_marker.

(** ** The two loops of the extractor, by recursion on the list *)

(** The cases the first loop pushes for the lines [ls] that start at
    index [i]. *)
Fixpoint pushed (total : Z) (ls : list (list N)) (i : nat) : list Case :=
  match ls with
  | [] => []
  | text :: ls' =>
      match Regex.String_match text Regex.case_marker with
      | Some m1 =>
          {| id := JS.Number_of_digits m1; startLine := Z.of_nat i; endLine := total - 1 |}
            :: pushed total ls' (S i)
      | None => pushed total ls' (S i)
      end
  end.

(** Every case but the last ends one line before the next one starts. *)
Fixpoint chained (cases : list Case) : list Case :=
  match cases with
  | c :: (d :: _) as tl => set_endLine c (startLine d - 1) :: chained tl
  | _ => cases
  end.

(** What the first loop establishes. *)
Inductive ascending (total : Z) : Z -> list Case -> Prop :=
| asc_nil lo : ascending total lo []
| asc_cons lo c cases :
    lo <= startLine c -> startLine c <= total - 1 -> endLine c = total - 1 ->
    ascending total (startLine c + 1) cases ->
    ascending total lo (c :: cases).

(** ** One document of a pass *)

(** The diagnostics of the analyzer for a document. *)
Definition filtered (h : Host) (uri : Uri) : list Diagnostic :=
  List.filter is_xss (getDiagnostics h uri).

(** [Date.now() - (lastChangeAt.get(uriKey) ?? Date.now())] as the loop
    finds it. *)
Definition elapsedMs_of (clock : nat -> Z) (uri : Uri) (l : Loop) : Z :=
  clock (reads l)
  - default (clock (S (reads l))) (lastChangeAt (st l) !! uri_toString uri).

(** What a rendering case pass emits before its case lines. *)
Definition reveals (l : Loop) : list event :=
  (if shown l then [] else [ChannelShow])
  ++ (getCaseTerminal (st l)).2
  ++ (if terminalShown l then [] else [TerminalShow (getCaseTerminal (st l)).1.1.1]).

(** The writer the pass fires on. *)
Definition writer_of (s : State) : nat := (getCaseTerminal s).1.1.2.

(** Events that bring a sink to the foreground or create the terminal, as
    opposed to the events that write text. *)
Definition is_reveal (e : event) : Prop :=
  match e with
  | ChannelShow | TerminalCreate _ | TerminalShow _ => True
  | ChannelAppendLine _ | WriterFire _ _ => False
  end.

(** The key of a document, by the mode its text selects. *)
Definition fingerprint_of (h : Host) (uri : Uri) (doc : TextDocument) : list N :=
  match extractCases doc with
  | [] => flat_fingerprint (filtered h uri)
  | _ :: _ => report_key (filtered h uri) (extractCases doc)
  end.

(** The two lines of a flat entry, for a diagnostic inside the document. *)
Definition flat_lines (doc : TextDocument) (uri : Uri) (diag : Diagnostic) : list event :=
  [ ChannelAppendLine
      (JS.lit "[XSS] " ++ fsPath_basename uri ++ JS.lit ":"
         ++ JS.ToString (line (start (range diag)) + 1) ++ JS.lit ":"
         ++ JS.ToString (character (start (range diag)) + 1) ++ JS.lit " " ++ message diag);
    ChannelAppendLine (default [] (lineAt doc (line (start (range diag))))) ].

(** ** Case lines and outcomes *)

(** The diagnostics whose start line lies in the range of a case. *)
Definition issues_in (diagnostics : list Diagnostic) (c : Case) : list Diagnostic :=
  List.filter (fun diag =>
                 (startLine c <=? line (start (range diag)))
                 && (line (start (range diag)) <=? endLine c))
              diagnostics.

(** The label of a case, by the number of diagnostics in its range. *)
Definition label_of (diagnostics : list Diagnostic) (c : Case) : list N :=
  match issues_in diagnostics c with
  | [] => label_failure
  | _ :: _ => label_success
  end.

(** A case line with a given label and elapsed text. *)
Definition labelled_line (label : list N) (c : Case) (elapsed : list N) : list N :=
  JS.lit "### " ++ JS.ToString (id c) ++ case_word ++ JS.lit " -> " ++ label
    ++ JS.lit " " ++ elapsed ++ JS.lit "s".

(** The line is on the output channel and, with its line terminator, on
    the terminal writer. *)
Definition written_with (label : list N) (c : Case) (elapsed : list N) (w : nat)
    (o : list event) : Prop :=
  ChannelAppendLine (labelled_line label c elapsed) ∈ o
  /\ WriterFire w (labelled_line label c elapsed ++ [13; 10]%N) ∈ o.

(** What the key records of a case. *)
Definition outcome (diagnostics : list Diagnostic) (c : Case) : JS.number * bool :=
  (id c, caseHasIssue diagnostics c).

(** ** Code units and order *)

(** The code units of a rendered Number: digits, the signs, the point, the
    exponent mark and the letters of "Infinity". *)
Definition numeric (c : N) : Prop :=
  JS.is_digit c = true \/ c ∈ JS.lit "-+.eInfinity".

(** The code units of the fraction of an exponent form. *)
Definition fraction_unit (c : N) : Prop := JS.is_digit c = true \/ c = 46%N.

(** The order of the default sort, as a relation. *)
Definition str_le (x y : list N) : Prop := JS.str_leb x y = true.

(** ** The claims in the words of the specification *)

(** The labelling as the specification words it, for the pass over one
    document: "fail" where the range holds a diagnostic, "pass" where it
    holds none. *)
Definition labels_as_specified (h : Host) (clock : nat -> Z) (uri : Uri) (s : State) : Prop :=
  forall doc c,
    openTextDocument h uri = Some doc -> c ∈ extractCases doc ->
    let o := out (loop_of (reportXssDiagnostics h clock [uri] s)) in
    (issues_in (filtered h uri) c <> [] -> exists e w, written_with label_failure c e w o)
    /\ (issues_in (filtered h uri) c = [] -> exists e w, written_with label_success c e w o).

(** The key as the specification words it lists the cases sorted by id;
    this is the insertion of a case into a list sorted by id. *)
Fixpoint insert_by_id (c : Case) (cases : list Case) : list Case :=
  match cases with
  | [] => [c]
  | d :: rest => if JS.leb (id c) (id d) then c :: cases else d :: insert_by_id c rest
  end.

(** Cases in ascending order of id. *)
Definition sort_by_id (cases : list Case) : list Case := foldr insert_by_id [] cases.

(** The key of the cases sorted by id. *)
Definition report_key_by_id (diagnostics : list Diagnostic) (cases : list Case) : list N :=
  report_key diagnostics (sort_by_id cases).

(** The default of the elapsed time as the specification words it: when
    no change was recorded for the document, every case line of a pass
    that renders carries "0.00". *)
Definition zero_default_as_specified (h : Host) (clock : nat -> Z) (uri : Uri)
    (s : State) : Prop :=
  forall doc c,
    openTextDocument h uri = Some doc -> c ∈ extractCases doc ->
    lastChangeAt s !! uri_toString uri = None ->
    lastReports s !! uri_toString uri
      <> Some (report_key (filtered h uri) (extractCases doc)) ->
    exists w,
      written_with (label_of (filtered h uri) c) c (JS.lit "0.00") w
        (out (loop_of (reportXssDiagnostics h clock [uri] s))).

(** The gate as the specification words it: a key that differs from the
    stored one (or no stored key) makes the pass render and store it. *)
Definition sole_gate_as_specified (h : Host) (clock : nat -> Z) (uri : Uri) (s : State) : Prop :=
  forall doc,
    openTextDocument h uri = Some doc ->
    lastReports s !! uri_toString uri <> Some (fingerprint_of h uri doc) ->
    out (loop_of (reportXssDiagnostics h clock [uri] s)) <> []
    /\ lastReports (st (loop_of (reportXssDiagnostics h clock [uri] s))) !! uri_toString uri
       = Some (fingerprint_of h uri doc).

(** Batch isolation as the specification words it: when [a] cannot be
    fetched, the batch [a; b] reports [b] as the batch [b] does. *)
Definition batch_isolation_as_specified (h : Host) (clock : nat -> Z) (a b : Uri)
    (s : State) : Prop :=
  openTextDocument h a = None ->
  out (loop_of (reportXssDiagnostics h clock [a; b] s))
  = out (loop_of (reportXssDiagnostics h clock [b] s)).


(** The claim that keys and output determine each other, as the
    specification words it, in flat mode and in case mode. *)
Definition keys_follow_output_as_specified : Prop :=
  (forall doc uri dsA dsB,
     render_flat doc uri dsA [] <> render_flat doc uri dsB [] ->
     flat_fingerprint dsA <> flat_fingerprint dsB)
  /\ (forall doc uri dsA dsB,
        render_flat doc uri dsA [] = render_flat doc uri dsB [] ->
        flat_fingerprint dsA = flat_fingerprint dsB)
  /\ (forall w dsA dsB xA xB casesA casesB,
        render_cases w dsA xA casesA <> render_cases w dsB xB casesB ->
        report_key dsA casesA <> report_key dsB casesB)
  /\ (forall w dsA dsB xA xB casesA casesB,
        render_cases w dsA xA casesA = render_cases w dsB xB casesB ->
        report_key dsA casesA = report_key dsB casesB).

(** ** Notions of the further properties *)

(** The [n]-th call of [spawnSync] ran [c --version] without error and
    with status 0. *)
Definition runnable (spawnSync : nat -> list N -> SpawnSyncReturns) (n : nat)
    (c : list N) : Prop :=
  error (spawnSync n c) = false /\ status (spawnSync n c) = Some 0.

(** The start line of a diagnostic, which is all the matcher reads. *)
Definition start_line (diag : Diagnostic) : Z := line (start (range diag)).

(** The terminal and its writer are set together, to a terminal that the
    host has created. *)
Definition paired_handles (s : State) : Prop :=
  caseTerminalWriter s = caseTerminal s
  /\ forall t, caseTerminal s = Some t -> (t < created s)%nat.

(** Events that write a line on the output channel. *)
Definition is_channel_event (e : event) : Prop :=
  match e with
  | ChannelShow | ChannelAppendLine _ => True
  | TerminalCreate _ | TerminalShow _ | WriterFire _ _ => False
  end.

(** A notification of an edit, a save or an opening of a python document
    with the given URI string. *)
Definition records_change (k : list N) (n : notification) : Prop :=
  match n with
  | DidChangeTextDocument languageId uri
  | DidSaveTextDocument languageId uri
  | DidOpenTextDocument languageId uri =>
      languageId = JS.lit "python" /\ uri_toString uri = k
  | DidChangeDiagnostics _ | DidCloseTerminal _ => False
  end.

(** Kinds of events. *)
Definition is_append (e : event) : Prop :=
  match e with ChannelAppendLine _ => True | _ => False end.

Definition is_fire (e : event) : Prop :=
  match e with WriterFire _ _ => True | _ => False end.

Definition is_terminal_show (e : event) : Prop :=
  match e with TerminalShow _ => True | _ => False end.

Definition is_create (e : event) : Prop :=
  match e with TerminalCreate _ => True | _ => False end.

(** Events that write text: a line on the channel or a chunk on the
    terminal. *)
Definition is_text (e : event) : Prop :=
  match e with ChannelAppendLine _ | WriterFire _ _ => True | _ => False end.

(** Every chunk fired on a terminal writer comes right after the same
    line on the output channel, with CR LF appended. *)
Inductive lines_paired : list event -> Prop :=
| paired_nil : lines_paired []
| paired_other e o : ~ is_fire e -> lines_paired o -> lines_paired (e :: o)
| paired_pair line w o :
    lines_paired o ->
    lines_paired (ChannelAppendLine line :: WriterFire w (line ++ [13; 10]%N) :: o).


(** A terminal that was reported closed: the module does not hold it, and
    its handle is used up. *)
Definition gone (t : nat) (s : State) : Prop :=
  paired_handles s /\ (t < created s)%nat /\ caseTerminal s <> Some t.

(** The notification of a turn, if it is one. *)
Definition notification_of (t : turn) : option notification :=
  match t with
  | Notified n _ => Some n
  | Settled _ _ _ => None
  end.

(** The turn does not record a change of the document [k]. *)
Definition no_change (k : list N) (t : turn) : Prop :=
  match t with
  | Notified n _ => ~ records_change k n
  | Settled _ _ _ => True
  end.

(** The loop [l], with the events [o] emitted before it. *)
Definition after_events (o : list event) (l : Loop) : Loop :=
  {| st := st l; shown := shown l; terminalShown := terminalShown l;
     reads := reads l; out := o ++ out l |}.

Definition completion_after (o : list event) (c : completion) : completion :=
  match c with
  | Normal l => Normal (after_events o l)
  | Throw l => Throw (after_events o l)
  end.

(** The candidates that [resolvePythonPath] spawns, in the order of the
    attempts: the empty ones are skipped without a call. *)
Definition attempts (configured : list N) : list (list N) :=
  List.filter (fun c => negb (falsy c)) [configured; JS.lit "python3"; JS.lit "python"].

(** The attempt [n] on the candidate [p] is the first that runs. *)
Definition first_runnable (spawnSync : nat -> list N -> SpawnSyncReturns)
    (tried : list (list N)) (n : nat) (p : list N) : Prop :=
  tried !! n = Some p
  /\ runnable spawnSync n p
  /\ forall m c, (m < n)%nat -> tried !! m = Some c -> ~ runnable spawnSync m c.

(** No attempt runs. *)
Definition none_runnable (spawnSync : nat -> list N -> SpawnSyncReturns)
    (tried : list (list N)) : Prop :=
  forall n c, tried !! n = Some c -> ~ runnable spawnSync n c.

(** The message of a failed activation. *)
Definition not_found : lifecycle_event :=
  ShowErrorMessage
    (JS.lit "XSS LSP: Python executable not found. Set xssLsp.pythonPath to python3 or a full path.").

(** The ranges tile the lines from the first start line down to the line
    [last]: each range is not empty and ends right before the next one
    starts, and the last range ends at [last]. *)
Inductive tiled (last : Z) : list Case -> Prop :=
| tiled_last c : startLine c <= endLine c -> endLine c = last -> tiled last [c]
| tiled_cons c d rest :
    startLine c <= endLine c -> endLine c = startLine d - 1 ->
    tiled last (d :: rest) -> tiled last (c :: d :: rest).

(** Where a case starts and what id it carries. *)
Definition mark (c : Case) : Z * JS.number := (startLine c, id c).

(** The channel is revealed as the first event of a batch that writes
    anything, and only once. *)
Definition revealed_once (l : Loop) : Prop :=
  (shown l = false /\ out l = [])
  \/ (shown l = true /\ exists rest, out l = ChannelShow :: rest /\ ChannelShow ∉ rest).

(** The terminal is revealed once, before the first chunk written to it. *)
Definition terminal_revealed_once (l : Loop) : Prop :=
  (terminalShown l = false /\ Forall is_channel_event (out l))
  \/ (terminalShown l = true
      /\ exists pre t post,
           out l = pre ++ TerminalShow t :: post
           /\ Forall (fun e => ~ is_terminal_show e /\ ~ is_fire e) pre
           /\ Forall (fun e => ~ is_terminal_show e) post).

(** What the loop keeps of the terminal, relative to the state [s0] at
    entry. *)
Definition handles_kept (s0 : State) (l : Loop) : Prop :=
  paired_handles (st l)
  /\ (forall w x, WriterFire w x ∈ out l -> caseTerminalWriter (st l) = Some w)
  /\ ((caseTerminal (st l) = caseTerminal s0 /\ created (st l) = created s0
       /\ Forall (fun e => ~ is_create e) (out l))
      \/ (caseTerminal s0 = None /\ caseTerminal (st l) = Some (created s0)
          /\ created (st l) = S (created s0)
          /\ exists pre post,
               out l = pre ++ TerminalCreate (created s0) :: post
               /\ Forall (fun e => ~ is_create e /\ ~ is_fire e) pre
               /\ Forall (fun e => ~ is_create e) post)).

(** * Running examples *)

(** Two documents of a workspace. *)
Definition cases_py : Uri :=
  {| uri_toString := JS.lit "file:///w/cases.py"; fsPath_basename := JS.lit "cases.py" |}.

Definition a_py : Uri :=
  {| uri_toString := JS.lit "file:///w/a.py"; fsPath_basename := JS.lit "a.py" |}.

(** A 30-line document with markers at lines 2, 10 and 25. *)
Definition thirty_lines : TextDocument :=
  {| lines :=
       replicate 2 (JS.lit "import os") ++ [JS.lit "# CASE 1"]
       ++ replicate 7 (JS.lit "x = 1") ++ [JS.lit "# CASE 2"]
       ++ replicate 14 (JS.lit "y = x") ++ [JS.lit "  # case 3"]
       ++ replicate 4 (JS.lit "print(y)") |}.

(** Two cases; the analyzer reports line 1, inside the first. *)
Definition two_cases : TextDocument :=
  {| lines := [ JS.lit "# CASE 1"; JS.lit "print(request.args['q'])";
                JS.lit "# CASE 2"; JS.lit "print('ok')" ] |}.

(** Markers whose digits are not the digits of a Number: 2^53 + 1, 10^21
    and a run of 400 nines. *)
Definition large_ids : TextDocument :=
  {| lines := [ JS.lit "# CASE 9007199254740993"; JS.lit "print('a')";
                JS.lit "# CASE 1000000000000000000000"; JS.lit "print('b')";
                JS.lit "# CASE " ++ replicate 400 57%N ] |}.

(** A document without markers. *)
Definition plain_py : TextDocument :=
  {| lines := [ JS.lit "import os"; JS.lit "print(os.name)" ] |}.

(** Case 2 written above case 1. *)
Definition second_first : TextDocument :=
  {| lines := [ JS.lit "# CASE 2"; JS.lit "x = 1"; JS.lit "# CASE 1"; JS.lit "y = 2" ] |}.

(** The cases of [second_first] in the order of their ids. *)
Definition first_second : TextDocument :=
  {| lines := [ JS.lit "# CASE 1"; JS.lit "x = 1"; JS.lit "# CASE 2"; JS.lit "y = 2" ] |}.

(** A diagnostic of the analyzer, five columns wide. *)
Definition diag_at (l c : Z) (msg : list N) : Diagnostic :=
  {| range := {| start := {| line := l; character := c |};
                 end_ := {| line := l; character := c + 5 |} |};
     message := msg;
     source := Some (JS.lit "xss-lsp") |}.

(** The diagnostic of [diag_at], ending at another column. *)
Definition diag_to (l c e : Z) (msg : list N) : Diagnostic :=
  {| range := {| start := {| line := l; character := c |};
                 end_ := {| line := l; character := e |} |};
     message := msg;
     source := Some (JS.lit "xss-lsp") |}.

(** The host serves [two_cases] with one diagnostic in the first case. *)
Definition host_two_cases : Host :=
  {| openTextDocument := fun _ => Some two_cases;
     getDiagnostics := fun _ => [diag_at 1 6 (JS.lit "reflected XSS")] |}.

(** The same document and the same analyzer diagnostics, next to a
    diagnostic of another tool. *)
Definition host_two_cases_lint : Host :=
  {| openTextDocument := fun _ => Some two_cases;
     getDiagnostics := fun _ =>
       [ {| range := {| start := {| line := 3; character := 0 |};
                        end_ := {| line := 3; character := 5 |} |};
            message := JS.lit "unused value";
            source := Some (JS.lit "pylint") |};
         diag_at 1 6 (JS.lit "reflected XSS") ] |}.

(** The host serves one document and one list of diagnostics. *)
Definition host_of (doc : TextDocument) (diagnostics : list Diagnostic) : Host :=
  {| openTextDocument := fun _ => Some doc; getDiagnostics := fun _ => diagnostics |}.

(** The host cannot open [a_py]; every other document reads as
    [two_cases] with one diagnostic. *)
Definition host_a_fails : Host :=
  {| openTextDocument :=
       fun u => if decide (uri_toString u = uri_toString a_py) then None else Some two_cases;
     getDiagnostics := fun _ => [diag_at 1 6 (JS.lit "reflected XSS")] |}.

(** The state that [activate] leaves. *)
Definition activated : State :=
  {| outputChannel := true; caseTerminal := None; caseTerminalWriter := None;
     lastReports := ∅; lastChangeAt := ∅; created := 0 |}.

(** A clock that stands still, and the same clock 1500 ms later. *)
Definition noon (n : nat) : Z := 1700000000000.

Definition half_past_noon (n : nat) : Z := noon n + 1500.

(** A clock that is set back by two seconds after its first reading. *)
Definition stepping_back (n : nat) : Z :=
  match n with
  | O => noon 0 + 2000
  | S _ => noon 0
  end.

(** The state after the first pass over [two_cases]: terminal 0 is live
    and the key "1:1|2:0" is stored. *)
Definition after_first_pass : State :=
  st (loop_of (reportXssDiagnostics host_two_cases noon [cases_py] activated)).


(** The module as [activate] leaves it, with no call suspended. *)
Definition started : Running := {| vars := activated; calls := [] |}.

(** The diagnostics of [cases_py] change and the call runs through. *)
Definition first_pass : list turn :=
  [ Notified (DidChangeDiagnostics [cases_py]) 1700000000000;
    Settled 0 host_two_cases noon ].

(** The diagnostics of [two_cases] are cleared. *)
Definition cleared : list turn :=
  [ Notified (DidChangeDiagnostics [cases_py]) 1700000000000;
    Settled 0 (host_of two_cases []) noon ].

(** Turns that leave the edit stamp of [cases_py] alone: another document
    is edited, a call is resumed, and [cases_py] is saved as plain text. *)
Definition other_turns : list turn :=
  [ Notified (DidChangeTextDocument (JS.lit "python") a_py) 1700000000500;
    Notified (DidChangeDiagnostics [cases_py]) 1700000000600;
    Settled 0 host_two_cases noon;
    Notified (DidSaveTextDocument (JS.lit "plaintext") cases_py) 1700000000700;
    Notified (DidCloseTerminal 0) 1700000000800 ].


(** The analyzer reports line 1 of [two_cases] at other columns and with
    another message, and a line past the end of the document. *)
Definition host_two_cases_moved : Host :=
  host_of two_cases [ diag_to 1 0 3 (JS.lit "stored XSS");
                      diag_at 7 0 (JS.lit "reflected XSS") ].

(** A document without markers and one diagnostic of the analyzer. *)
Definition host_plain_issue : Host :=
  host_of plain_py [diag_at 0 0 (JS.lit "reflected XSS")].

(** The analyzer reports line 0 and then line 9 of the two lines of
    [plain_py], and line 1 after it. *)
Definition host_plain_stale : Host :=
  host_of plain_py [ diag_at 0 0 (JS.lit "reflected XSS");
                     diag_at 9 0 (JS.lit "stored XSS");
                     diag_at 1 0 (JS.lit "reflected XSS") ].

(** A call over two documents with cases; between its two awaits the
    terminal of the first report is closed. *)
Definition closed_in_between : list turn :=
  [ Notified (DidChangeDiagnostics [cases_py; a_py]) 1700000000000;
    Settled 0 host_two_cases noon;
    Notified (DidCloseTerminal 0) 1700000000100 ].

(** * Properties *)

(** ** Facts about the JavaScript values *)

Lemma uint_units_digits d : forallb JS.is_digit (JS.uint_units d) = true.
Proof. induction d; simpl; auto. Qed.

Lemma uint_units_inj : forall d d', JS.uint_units d = JS.uint_units d' -> d = d'.
Proof.
  induction d; intros d' H; destruct d'; simpl in H; try discriminate; try reflexivity;
    f_equal; apply IHd; congruence.
Qed.

Lemma digits_digits n : forallb JS.is_digit (JS.digits n) = true.
Proof. apply uint_units_digits. Qed.

Lemma digits_inj a b : JS.digits a = JS.digits b -> a = b.
Proof.
  intros H. apply uint_units_inj in H.
  rewrite <- (DecimalN.Unsigned.of_to a), <- (DecimalN.Unsigned.of_to b). by rewrite H.
Qed.

Lemma digits_nonempty n : JS.digits n <> [].
Proof.
  unfold JS.digits. destruct n as [|p]; simpl; [done|].
  pose proof (DecimalPos.Unsigned.to_uint_nonnil p) as Hp.
  destruct (Pos.to_uint p); simpl; done.
Qed.

Lemma decimal_acc d : forall acc : positive,
  fold_left (fun a c => 10 * a + (Z.of_N c - 48)) (JS.uint_units d) (Z.pos acc)
  = Z.pos (Pos.of_uint_acc d acc).
Proof.
  induction d; intros acc; simpl; try reflexivity;
    match goal with
    | |- fold_left _ _ ?z = Z.pos (Pos.of_uint_acc _ ?q) =>
        replace z with (Z.pos q) by lia; apply IHd
    end.
Qed.

Lemma decimal_of_uint d : JS.decimal (JS.uint_units d) = Z.of_N (N.of_uint d).
Proof.
  unfold JS.decimal, N.of_uint.
  induction d; simpl; try reflexivity; try exact IHd;
    match goal with
    | |- fold_left _ _ ?z = Z.pos (Pos.of_uint_acc _ ?q) =>
        replace z with (Z.pos q) by lia; apply decimal_acc
    end.
Qed.

(** Reading back the digits of a number gives the number. *)
Lemma decimal_digits n : JS.decimal (JS.digits n) = Z.of_N n.
Proof. unfold JS.digits. by rewrite decimal_of_uint, DecimalN.Unsigned.of_to. Qed.

Lemma decimal_zeros n l :
  JS.decimal (replicate n 48%N ++ l) = JS.decimal l.
Proof.
  unfold JS.decimal. induction n as [|n IH]; simpl; [done|]. exact IH.
Qed.

(** Two texts that start with a run of a class, ended by a code unit
    outside the class, agree piece by piece. *)
Lemma app_class_inj (P : N -> Prop) : forall x y c c' r r',
  Forall P x -> Forall P y -> ~ P c -> ~ P c' ->
  x ++ c :: r = y ++ c' :: r' -> x = y /\ c = c' /\ r = r'.
Proof.
  induction x as [|a x IH]; intros [|b y] c c' r r' Hx Hy Hc Hc' H; simpl in H.
  - by injection H.
  - injection H as -> _. inversion Hy; subst. done.
  - injection H as -> _. inversion Hx; subst. done.
  - injection H as -> H. inversion Hx; inversion Hy; subst.
    destruct (IH y c c' r r') as (-> & -> & ->); auto.
Qed.

Lemma app_class_end (P : N -> Prop) : forall x y c r,
  Forall P x -> Forall P y -> ~ P c -> x = y ++ c :: r -> False.
Proof.
  intros x y c r Hx Hy Hc ->. apply Forall_app in Hx as [_ Hx]. inversion Hx; subst. done.
Qed.

(** *** Numbers *)

Lemma number_eq (x y : JS.number) : JS.value_of x = JS.value_of y -> x = y.
Proof.
  destruct x as [v p], y as [w q]. cbn. intros ->. f_equal. apply proof_irrel.
Qed.

Lemma quot_half_even_cases a b :
  JS.quot_half_even a b = a / b \/ JS.quot_half_even a b = a / b + 1.
Proof.
  unfold JS.quot_half_even.
  destruct (2 * (a mod b) <? b); [by left|].
  destruct (b <? 2 * (a mod b)); [by right|].
  destruct (Z.even (a / b)); [by left | by right].
Qed.

Lemma quot_half_even_exact a b : 0 < b -> a mod b = 0 -> JS.quot_half_even a b = a / b.
Proof.
  intros Hb Hr. unfold JS.quot_half_even. rewrite Hr.
  destruct (Z.ltb_spec (2 * 0) b); [done | lia].
Qed.

(** A Number with 53 significant bits or less. *)
Lemma representable_small z : Z.abs z < 2 ^ 53 -> JS.representable z = true.
Proof.
  intros Hz. unfold JS.representable.
  assert (Z.log2 (Z.abs z) - 52 <= 0) as Hsh.
  { destruct (Z.eq_dec (Z.abs z) 0) as [->|Hne]; [done|].
    assert (Z.log2 (Z.abs z) < 53) by (apply Z.log2_lt_pow2; lia). lia. }
  destruct (Z.leb_spec (Z.log2 (Z.abs z) - 52) 0); [done | lia].
Qed.

Lemma nearest_of_representable z : JS.representable z = true -> JS.nearest z = JS.Finite z.
Proof.
  unfold JS.representable, JS.nearest. intros Hrep.
  destruct (Z.leb_spec (Z.log2 (Z.abs z) - 52) 0) as [|Hsh]; [done|].
  cbn [orb] in Hrep. apply andb_true_iff in Hrep as [Hmod Hlt].
  apply Z.eqb_eq in Hmod. apply Z.ltb_lt in Hlt.
  assert (0 < 2 ^ (Z.log2 (Z.abs z) - 52)) as Hpow by (apply Z.pow_pos_nonneg; lia).
  rewrite quot_half_even_exact by done.
  assert (Z.abs z / 2 ^ (Z.log2 (Z.abs z) - 52) * 2 ^ (Z.log2 (Z.abs z) - 52) = Z.abs z) as ->.
  { pose proof (Z.div_mod (Z.abs z) (2 ^ (Z.log2 (Z.abs z) - 52)) ltac:(lia)). lia. }
  destruct (Z.ltb_spec (Z.abs z) (2 ^ 1024)); [|lia].
  f_equal. rewrite Z.mul_comm. apply Z.abs_sgn.
Qed.

Lemma nearest_small z : Z.abs z < 2 ^ 53 -> JS.nearest z = JS.Finite z.
Proof. intros Hz. by apply nearest_of_representable, representable_small. Qed.

(** The significand of a rounded integer of more than 53 bits. *)
Lemma significand_bounds a :
  52 < Z.log2 a ->
  2 ^ 52 <= JS.quot_half_even a (2 ^ (Z.log2 a - 52)) <= 2 ^ 53.
Proof.
  intros Hsh.
  assert (0 < a) as Ha.
  { destruct (Z.le_gt_cases a 0) as [Hle|]; [|done]. rewrite Z.log2_nonpos in Hsh by done. lia. }
  remember (Z.log2 a - 52) as sh eqn:Esh.
  assert (0 < 2 ^ sh) as Hpow by (apply Z.pow_pos_nonneg; lia).
  destruct (Z.log2_spec a Ha) as [Hlo Hhi].
  assert (2 ^ Z.log2 a = 2 ^ 52 * 2 ^ sh) as Hsplit.
  { rewrite <- Z.pow_add_r by lia. f_equal. lia. }
  assert (Z.succ (Z.log2 a) = 53 + sh) as Hsucc by lia.
  assert (2 ^ 52 <= a / 2 ^ sh < 2 ^ 53) as Hq.
  { split.
    - apply Z.div_le_lower_bound; lia.
    - apply Z.div_lt_upper_bound; [lia|].
      rewrite Hsucc in Hhi. rewrite Z.pow_add_r in Hhi by lia. lia. }
  destruct (quot_half_even_cases a (2 ^ sh)) as [->| ->]; lia.
Qed.

(** Rounding gives a binary64 value. *)
Lemma nearest_is_Number z : JS.is_Number (JS.nearest z) = true.
Proof.
  unfold JS.nearest.
  destruct (Z.leb_spec (Z.log2 (Z.abs z) - 52) 0) as [Hsh|Hsh].
  { cbn [JS.is_Number]. unfold JS.representable.
    destruct (Z.leb_spec (Z.log2 (Z.abs z) - 52) 0); [done | lia]. }
  pose proof (significand_bounds (Z.abs z) ltac:(lia)) as Hq'.
  assert (0 < Z.abs z) as Ha.
  { destruct (Z.eq_dec (Z.abs z) 0) as [H0|]; [|lia]. rewrite H0 in Hsh. cbn in Hsh. lia. }
  remember (Z.abs z) as a eqn:Ea. remember (Z.log2 a - 52) as sh eqn:Esh.
  assert (0 < 2 ^ sh) as Hpow by (apply Z.pow_pos_nonneg; lia).
  set (q := JS.quot_half_even a (2 ^ sh)) in *.
  destruct (q * 2 ^ sh <? 2 ^ 1024) eqn:Hfin; [|done].
  cbn [JS.is_Number]. unfold JS.representable.
  assert (Z.abs (Z.sgn z * (q * 2 ^ sh)) = q * 2 ^ sh) as ->.
  { assert (0 <= q * 2 ^ sh) as Hnn by nia.
    destruct z as [|pz|pz]; cbn [Z.sgn]; cbn [Z.abs] in Ea; lia. }
  rewrite Hfin. rewrite andb_true_r.
  assert (Z.log2 (q * 2 ^ sh) = sh + Z.log2 q) as Hlog
    by (apply Z.log2_mul_pow2; lia).
  rewrite Hlog.
  destruct (Z.eq_dec q (2 ^ 53)) as [Hmax|Hne].
  - rewrite Hmax. rewrite Z.log2_pow2 by lia.
    replace (sh + 53 - 52) with (sh + 1) by lia.
    assert (2 ^ 53 * 2 ^ sh = 2 ^ 52 * 2 ^ (sh + 1)) as ->.
    { rewrite (Z.pow_add_r 2 sh 1) by lia. lia. }
    rewrite Z.mod_mul by (apply Z.pow_nonzero; lia). by rewrite orb_true_r.
  - assert (Z.log2 q = 52) as ->.
    { apply Z.log2_unique; lia. }
    replace (sh + 52 - 52) with sh by lia.
    rewrite Z.mod_mul by lia. by rewrite orb_true_r.
Qed.

(** An integer from 2^53 on is not rounded below 2^53. *)
Lemma nearest_large v b : 2 ^ 53 <= v -> JS.nearest v = JS.Finite b -> 2 ^ 53 <= b.
Proof.
  intros Hv. unfold JS.nearest. rewrite (Z.abs_eq v) by lia.
  assert (53 <= Z.log2 v) as Hlog by (apply Z.log2_le_pow2; lia).
  destruct (Z.leb_spec (Z.log2 v - 52) 0) as [|Hsh]; [lia|].
  pose proof (significand_bounds v ltac:(lia)) as Hq.
  assert (2 ^ 1 <= 2 ^ (Z.log2 v - 52)) as Hpow by (apply Z.pow_le_mono_r; lia).
  destruct (_ <? 2 ^ 1024); [|done]. intros [= <-].
  rewrite Z.sgn_pos by lia. nia.
Qed.

Lemma of_value_value v : JS.is_Number v = true -> JS.value_of (JS.of_value v) = v.
Proof.
  intros Hv. unfold JS.of_value. destruct (JS.Is_true_dec (JS.is_Number v)) as [|Hn]; [done|].
  exfalso. apply Hn. by rewrite Hv.
Qed.

(** The Number of an integer is the binary64 value nearest to it. *)
Lemma of_Z_value z : JS.value_of (JS.of_Z z) = JS.nearest z.
Proof. apply of_value_value, nearest_is_Number. Qed.

Lemma of_Z_small z : Z.abs z < 2 ^ 53 -> JS.value_of (JS.of_Z z) = JS.Finite z.
Proof. intros Hz. by rewrite of_Z_value, nearest_small. Qed.

Lemma number_is_Number (x : JS.number) : JS.is_Number (JS.value_of x) = true.
Proof. destruct x as [v p]. cbn. by apply Is_true_true in p. Qed.

(** Integers of 53 bits are distinct Numbers. *)
Lemma of_Z_inj_small a b : Z.abs a < 2 ^ 53 -> Z.abs b < 2 ^ 53 -> JS.of_Z a = JS.of_Z b -> a = b.
Proof.
  intros Ha Hb Heq. apply (f_equal JS.value_of) in Heq.
  rewrite !of_Z_small in Heq by done. by injection Heq.
Qed.

(** *** The digits of Number::toString *)

Lemma candidate_round_trips a p v :
  0 <= a -> 0 < p -> JS.candidate a p = Some v -> JS.round_trips a v = true /\ 0 <= v.
Proof.
  intros Ha Hp. unfold JS.candidate.
  assert (0 <= a / p * p) as Hlo by (pose proof (Z.div_pos a p Ha Hp); nia).
  destruct (JS.round_trips a (a / p * p)) eqn:H1, (JS.round_trips a (a / p * p + p)) eqn:H2;
    intros [= <-]; try (split; [done | lia]).
  destruct (a - a / p * p <? a / p * p + p - a); [split; [done | lia]|].
  destruct (a / p * p + p - a <? a - a / p * p); [split; [done | lia]|].
  destruct (Z.even (a / p)); split; done || lia.
Qed.

Lemma shortest_from_round_trips a n : forall fuel k,
  0 <= a -> JS.round_trips a a = true ->
  JS.round_trips a (JS.shortest_from a n k fuel) = true /\ 0 <= JS.shortest_from a n k fuel.
Proof.
  induction fuel as [|fuel IH]; intros k Ha Hself; cbn [JS.shortest_from]; [done|].
  destruct (JS.candidate a (10 ^ Z.of_nat (n - k))) as [v|] eqn:Hc; [|by apply IH].
  apply (candidate_round_trips a (10 ^ Z.of_nat (n - k))); [done | | done].
  apply Z.pow_pos_nonneg; lia.
Qed.

(** The integer that is printed converts back to the Number. *)
Lemma shortest_round_trips a :
  0 <= a -> JS.representable a = true ->
  JS.nearest (JS.shortest a) = JS.Finite a /\ 0 <= JS.shortest a.
Proof.
  intros Ha Hrep.
  assert (JS.round_trips a a = true) as Hself.
  { unfold JS.round_trips. rewrite nearest_of_representable by done. apply Z.eqb_refl. }
  destruct (shortest_from_round_trips a (length (JS.digits (Z.to_N a)))
              (length (JS.digits (Z.to_N a))) 1%nat Ha Hself) as [Hrt Hpos].
  fold (JS.shortest a) in Hrt, Hpos. split; [|done].
  unfold JS.round_trips in Hrt. destruct (JS.nearest (JS.shortest a)); [|done].
  apply Z.eqb_eq in Hrt. by subst.
Qed.

(** *** The text of a Number *)

Lemma strip_zeros_pad ds :
  ds = JS.strip_zeros ds ++ replicate (length ds - length (JS.strip_zeros ds)) 48%N.
Proof.
  induction ds as [|d ds IH]; [done|]. cbn [JS.strip_zeros].
  destruct (JS.strip_zeros ds) as [|s ss] eqn:Hs.
  - cbn [app length Nat.sub] in IH. rewrite Nat.sub_0_r in IH.
    destruct (N.eqb_spec d 48) as [->|Hd].
    + cbn [app length Nat.sub]. rewrite IH at 1. done.
    + cbn [app length]. rewrite IH at 1. f_equal. f_equal. lia.
  - cbn [app length]. f_equal. cbn [length] in IH. rewrite IH at 1.
    cbn [app]. f_equal. 
Qed.

Lemma strip_zeros_digits ds :
  forallb JS.is_digit ds = true -> forallb JS.is_digit (JS.strip_zeros ds) = true.
Proof.
  induction ds as [|d ds IH]; [done|]. cbn [forallb JS.strip_zeros].
  intros Hd. apply andb_true_iff in Hd as [Hd Hds]. specialize (IH Hds).
  destruct (JS.strip_zeros ds) as [|s ss].
  - destruct (d =? 48)%N; [done|]. cbn. by rewrite Hd.
  - cbn [forallb] in *. by rewrite Hd, IH.
Qed.

(** The digits of a positive integer are not all zero, so that its
    exponent form has a first digit. *)
Lemma exponent_form_met v : 0 < v -> JS.strip_zeros (JS.digits (Z.to_N v)) <> [].
Proof.
  intros Hv Hnil. pose proof (strip_zeros_pad (JS.digits (Z.to_N v))) as Hpad.
  rewrite Hnil in Hpad. cbn [app length] in Hpad.
  pose proof (decimal_digits (Z.to_N v)) as Hval. rewrite Hpad in Hval.
  rewrite <- (app_nil_r (replicate _ _)) in Hval. rewrite decimal_zeros in Hval.
  cbn in Hval. lia.
Qed.

Lemma exponent_form_inj ds1 ds2 :
  forallb JS.is_digit ds1 = true -> forallb JS.is_digit ds2 = true ->
  JS.exponent_form ds1 = JS.exponent_form ds2 -> ds1 = ds2.
Proof.
  intros Hd1 Hd2. unfold JS.exponent_form.
  pose proof (strip_zeros_pad ds1) as Hp1. pose proof (strip_zeros_pad ds2) as Hp2.
  pose proof (strip_zeros_digits ds1 Hd1) as Hs1.
  pose proof (strip_zeros_digits ds2 Hd2) as Hs2.
  assert (forall ds (l r : list N), forallb JS.is_digit ds = true ->
            ds = l ++ 101%N :: r -> False) as Hno_e.
  { intros ds l r Hds ->. rewrite forallb_app in Hds.
    apply andb_true_iff in Hds as [_ Hds]. cbn in Hds. discriminate Hds. }
  assert (forall frac : list N, forallb JS.is_digit frac = true ->
            Forall fraction_unit (match frac with [] => [] | _ :: _ => 46%N :: frac end))
    as Hfrac.
  { intros frac Hf. assert (Forall fraction_unit frac) as Hall.
    { apply Forall_forall. intros c Hc. left.
      rewrite forallb_forall in Hf. apply Hf. by apply list_elem_of_In. }
    destruct frac; [constructor|]. constructor; [by right | done]. }
  assert (~ fraction_unit 101%N) as He by (intros [H|H]; [vm_compute in H|]; discriminate H).
  destruct (JS.strip_zeros ds1) as [|h1 f1] eqn:E1, (JS.strip_zeros ds2) as [|h2 f2] eqn:E2.
  - done.
  - intros Heq. exfalso.
    apply (Hno_e ds1 (h2 :: match f2 with [] => [] | _ :: _ => 46%N :: f2 end)
             (43%N :: JS.digits (N.of_nat (length ds2 - 1))) Hd1).
    rewrite Heq. cbn [app]. reflexivity.
  - intros Heq. exfalso.
    apply (Hno_e ds2 (h1 :: match f1 with [] => [] | _ :: _ => 46%N :: f1 end)
             (43%N :: JS.digits (N.of_nat (length ds1 - 1))) Hd2).
    rewrite <- Heq. cbn [app]. reflexivity.
  - cbn [forallb] in Hs1, Hs2.
    apply andb_true_iff in Hs1 as [_ Hs1]. apply andb_true_iff in Hs2 as [_ Hs2].
    intros Heq. injection Heq as -> Heq. cbn [app] in Heq.
    apply (app_class_inj fraction_unit) in Heq as (Hf & _ & Hexp);
      [|by apply Hfrac|by apply Hfrac|done|done].
    injection Hexp as Hexp. apply digits_inj in Hexp.
    assert (f1 = f2) as ->.
    { destruct f1, f2; try done. by injection Hf as -> ->. }
    assert (length ds1 = length ds2) as Hlen.
    { assert (length ds1 <> 0%nat) by (destruct ds1; [discriminate E1 | done]).
      assert (length ds2 <> 0%nat) by (destruct ds2; [discriminate E2 | done]). lia. }
    rewrite Hp1, Hp2. cbn [length]. by rewrite Hlen.
Qed.

Lemma exponent_form_plain ds ds' :
  forallb JS.is_digit ds' = true -> JS.exponent_form ds = ds' -> ds = ds'.
Proof.
  intros Hd. unfold JS.exponent_form.
  destruct (JS.strip_zeros ds) as [|h f]; [done|]. intros <-.
  cbn [forallb] in Hd. apply andb_true_iff in Hd as [_ Hd].
  rewrite forallb_app in Hd. apply andb_true_iff in Hd as [_ Hd].
  cbn in Hd. discriminate Hd.
Qed.

(** The text determines the integer. *)
Lemma print_inj v w : 0 <= v -> 0 <= w -> JS.print v = JS.print w -> v = w.
Proof.
  intros Hv Hw. unfold JS.print.
  assert (JS.digits (Z.to_N v) = JS.digits (Z.to_N w) -> v = w) as Hdigits.
  { intros H. apply digits_inj in H. lia. }
  destruct (v <? 10 ^ 21), (w <? 10 ^ 21); intros Heq.
  - exact (Hdigits Heq).
  - symmetry in Heq. apply exponent_form_plain in Heq; [|apply digits_digits].
    symmetry in Heq. exact (Hdigits Heq).
  - apply exponent_form_plain in Heq; [|apply digits_digits]. exact (Hdigits Heq).
  - apply exponent_form_inj in Heq; [|apply digits_digits|apply digits_digits].
    exact (Hdigits Heq).
Qed.

(** The text of an integer starts with a digit. *)
Lemma print_head v : exists c r, JS.print v = c :: r /\ JS.is_digit c = true.
Proof.
  pose proof (digits_digits (Z.to_N v)) as Hd. pose proof (digits_nonempty (Z.to_N v)) as Hn.
  unfold JS.print, JS.exponent_form.
  assert (exists c r, JS.digits (Z.to_N v) = c :: r /\ JS.is_digit c = true) as Hplain.
  { destruct (JS.digits (Z.to_N v)) as [|c r]; [done|]. exists c, r. split; [done|].
    cbn [forallb] in Hd. by apply andb_true_iff in Hd as [Hc _]. }
  destruct (v <? 10 ^ 21); [done|].
  pose proof (strip_zeros_digits _ Hd) as Hs.
  destruct (JS.strip_zeros (JS.digits (Z.to_N v))) as [|h f]; [done|].
  eexists _, _. split; [reflexivity|].
  cbn [forallb] in Hs. by apply andb_true_iff in Hs as [Hh _].
Qed.

Lemma representable_abs z : JS.representable (Z.abs z) = JS.representable z.
Proof. unfold JS.representable. by rewrite Z.abs_idemp. Qed.

Lemma ToString_nonempty x : JS.ToString x <> [].
Proof.
  unfold JS.ToString. destruct (JS.value_of x) as [z|s].
  - destruct (print_head (JS.shortest (Z.abs z))) as (c & r & -> & _).
    by destruct (z <? 0).
  - by destruct s.
Qed.

(** Two Numbers with the same text are the same Number. *)
Lemma ToString_inj x y : JS.ToString x = JS.ToString y -> x = y.
Proof.
  intros Heq. apply number_eq. unfold JS.ToString in Heq.
  pose proof (number_is_Number x) as Hx. pose proof (number_is_Number y) as Hy.
  change (JS.lit "Infinity") with (73%N :: JS.lit "nfinity") in Heq.
  assert (forall c, JS.is_digit c = true -> c <> 45%N /\ c <> 73%N) as Hdigit.
  { intros c Hc. split; intros ->; discriminate Hc. }
  destruct (JS.value_of x) as [a|s], (JS.value_of y) as [b|t]; cbn [JS.is_Number] in Hx, Hy.
  - destruct (print_head (JS.shortest (Z.abs a))) as (c & r & Hpa & Hc).
    destruct (print_head (JS.shortest (Z.abs b))) as (d & u & Hpb & Hd).
    destruct (Hdigit c Hc) as [Hc1 _]. destruct (Hdigit d Hd) as [Hd1 _].
    destruct (shortest_round_trips (Z.abs a)) as [Hra Hna];
      [lia | by rewrite representable_abs|].
    destruct (shortest_round_trips (Z.abs b)) as [Hrb Hnb];
      [lia | by rewrite representable_abs|].
    assert (JS.print (JS.shortest (Z.abs a)) = JS.print (JS.shortest (Z.abs b)) ->
            Z.abs a = Z.abs b) as Habs.
    { intros Hp. apply print_inj in Hp; [|done|done]. rewrite Hp in Hra. congruence. }
    destruct (Z.ltb_spec a 0), (Z.ltb_spec b 0); cbn [app] in Heq.
    + injection Heq as Heq. apply Habs in Heq. f_equal. lia.
    + rewrite Hpb in Heq. injection Heq as Heq _. by subst.
    + rewrite Hpa in Heq. injection Heq as Heq _. by subst.
    + apply Habs in Heq. f_equal. lia.
  - exfalso. destruct (print_head (JS.shortest (Z.abs a))) as (c & r & Hpa & Hc).
    destruct (Hdigit c Hc) as [Hc1 Hc2]. rewrite Hpa in Heq.
    destruct (a <? 0), t; cbn [app] in Heq; injection Heq as Heq; try done;
      try (injection Heq as Heq; done).
  - exfalso. destruct (print_head (JS.shortest (Z.abs b))) as (c & r & Hpb & Hc).
    destruct (Hdigit c Hc) as [Hc1 Hc2]. rewrite Hpb in Heq.
    destruct (b <? 0), s; cbn [app] in Heq; injection Heq as Heq; try done;
      try (injection Heq as Heq; done).
  - destruct s, t; cbn [app] in Heq; try done; discriminate Heq.
Qed.

(** Below 2^53 every integer is a Number, and its text is its digits. *)
Lemma shortest_small a : 0 <= a < 2 ^ 53 -> JS.shortest a = a.
Proof.
  intros Ha.
  assert (forall v, 0 <= v -> JS.round_trips a v = true -> v = a) as Honly.
  { intros v Hv Hrt. unfold JS.round_trips in Hrt.
    destruct (Z.lt_ge_cases v (2 ^ 53)) as [Hsmall|Hlarge].
    - rewrite nearest_small in Hrt by lia. by apply Z.eqb_eq in Hrt.
    - destruct (JS.nearest v) as [b|] eqn:Hn; [|done].
      apply Z.eqb_eq in Hrt. subst b. apply nearest_large in Hn; lia. }
  assert (JS.round_trips a a = true) as Hself.
  { unfold JS.round_trips. rewrite nearest_small by lia. apply Z.eqb_refl. }
  destruct (shortest_from_round_trips a (length (JS.digits (Z.to_N a)))
              (length (JS.digits (Z.to_N a))) 1%nat ltac:(lia) Hself) as [Hrt Hpos].
  by apply Honly.
Qed.

Lemma ToString_small z :
  Z.abs z < 2 ^ 53 ->
  JS.ToString (JS.of_Z z) = (if z <? 0 then [45%N] else []) ++ JS.digits (Z.to_N (Z.abs z)).
Proof.
  intros Hz. unfold JS.ToString. rewrite of_Z_small by done.
  rewrite shortest_small by lia. unfold JS.print.
  destruct (Z.ltb_spec (Z.abs z) (10 ^ 21)); [done|]. lia.
Qed.

Lemma forallb_numeric l : forallb JS.is_digit l = true -> Forall numeric l.
Proof.
  induction l as [|c l IH]; simpl; intros H; constructor;
    apply andb_true_iff in H as [Hc Hl]; [by left | auto].
Qed.

Lemma numeric_units l : Forall (fun c => c ∈ JS.lit "-+.eInfinity") l -> Forall numeric l.
Proof. intros H. eapply Forall_impl; [exact H|]. intros c Hc. by right. Qed.

Ltac by_units :=
  apply numeric_units; repeat constructor;
  apply (bool_decide_unpack _); vm_compute; exact I.

Lemma print_numeric v : Forall numeric (JS.print v).
Proof.
  pose proof (digits_digits (Z.to_N v)) as Hd.
  unfold JS.print, JS.exponent_form. destruct (v <? 10 ^ 21); [by apply forallb_numeric|].
  pose proof (strip_zeros_digits _ Hd) as Hs.
  destruct (JS.strip_zeros (JS.digits (Z.to_N v))) as [|h f]; [by apply forallb_numeric|].
  apply forallb_numeric in Hs. inversion Hs as [|? ? Hh Hf]; subst.
  constructor; [done|]. apply Forall_app. split.
  - destruct f; [constructor|]. constructor; [|done].
    right. apply (bool_decide_unpack _). vm_compute. exact I.
  - apply Forall_app. split; [by_units|]. apply forallb_numeric, digits_digits.
Qed.

Lemma ToString_numeric x : Forall numeric (JS.ToString x).
Proof.
  unfold JS.ToString. destruct (JS.value_of x) as [z|s].
  - apply Forall_app. split; [destruct (z <? 0); [by_units | constructor]|].
    apply print_numeric.
  - destruct s; by_units.
Qed.

Lemma numeric_not c (s : N) :
  JS.is_digit s = false -> s ∉ JS.lit "-+.eInfinity" -> numeric c -> c <> s.
Proof. intros Hd Hs [Hc|Hc] ->; [congruence | done]. Qed.

Lemma ToString_free x (s : N) :
  JS.is_digit s = false -> s ∉ JS.lit "-+.eInfinity" -> s ∉ JS.ToString x.
Proof.
  intros Hd Hs Hin. pose proof (ToString_numeric x) as Hn.
  rewrite Forall_forall in Hn. by apply (numeric_not s s Hd Hs (Hn _ Hin)).
Qed.

Ltac by_not_numeric :=
  let H := fresh "H" in
  intros [H|H]; [discriminate H | revert H; apply (bool_decide_unpack _); vm_compute; exact I].

Ltac by_free :=
  apply ToString_free; [reflexivity | apply (bool_decide_unpack _); vm_compute; exact I].

(** *** join *)

Lemma join_cons sep x y l :
  JS.join sep (x :: y :: l) = x ++ sep ++ JS.join sep (y :: l).
Proof. reflexivity. Qed.

(** Entries that are not empty and do not contain the separator can be
    read back from the joined text. *)
Lemma join_inj (s : N) : forall l1 l2,
  Forall (fun x => x <> [] /\ s ∉ x) l1 -> Forall (fun x => x <> [] /\ s ∉ x) l2 ->
  JS.join [s] l1 = JS.join [s] l2 -> l1 = l2.
Proof.
  assert (forall x : list N, s ∉ x -> Forall (fun c => c <> s) x) as Hfree.
  { intros x Hx. apply Forall_forall. intros c Hc ->. done. }
  induction l1 as [|x l1 IH]; intros [|y l2] H1 H2 H.
  - done.
  - inversion H2 as [|? ? [Hy _] _]; subst. destruct l2; simpl in H; destruct y; done.
  - inversion H1 as [|? ? [Hx _] _]; subst. destruct l1; simpl in H; destruct x; done.
  - inversion H1 as [|? ? [Hx Hsx] H1']; inversion H2 as [|? ? [Hy Hsy] H2']; subst.
    destruct l1 as [|x' l1], l2 as [|y' l2].
    + simpl in H. by subst.
    + rewrite join_cons in H. simpl in H. exfalso.
      eapply (app_class_end (fun c => c <> s) x y s); eauto.
    + rewrite join_cons in H. simpl in H. exfalso. symmetry in H.
      eapply (app_class_end (fun c => c <> s) y x s); eauto.
    + rewrite !join_cons in H. simpl in H.
      apply (app_class_inj (fun c => c <> s)) in H as (-> & _ & H); auto; try by intros ?.
      f_equal. by apply IH.
Qed.

(** *** sort *)

Lemma str_leb_total x : forall y, JS.str_leb x y = true \/ JS.str_leb y x = true.
Proof.
  induction x as [|a x IH]; intros [|b y]; simpl; auto.
  destruct (N.ltb_spec a b), (N.ltb_spec b a); auto; lia.
Qed.

Lemma str_leb_antisym x : forall y,
  JS.str_leb x y = true -> JS.str_leb y x = true -> x = y.
Proof.
  induction x as [|a x IH]; intros [|b y]; simpl; try done.
  destruct (N.ltb_spec a b), (N.ltb_spec b a); try done; try lia.
  intros Hxy Hyx. assert (a = b) as -> by lia. f_equal. auto.
Qed.

Lemma str_leb_trans x : forall y z,
  JS.str_leb x y = true -> JS.str_leb y z = true -> JS.str_leb x z = true.
Proof.
  induction x as [|a x IH]; intros [|b y] [|c z]; simpl; try done.
  destruct (N.ltb_spec a b), (N.ltb_spec b a), (N.ltb_spec b c), (N.ltb_spec c b),
    (N.ltb_spec a c), (N.ltb_spec c a); try done; try lia.
  apply IH.
Qed.

#[local] Instance str_le_trans : Transitive str_le.
Proof. intros x y z. apply str_leb_trans. Qed.

#[local] Instance str_le_antisym : AntiSymm (=) str_le.
Proof. intros x y. apply str_leb_antisym. Qed.

Lemma insert_sorted_perm x l : JS.insert_sorted x l ≡ₚ x :: l.
Proof.
  induction l as [|y l IH]; simpl; [done|].
  destruct (JS.str_leb x y); [done|]. rewrite IH. apply perm_swap.
Qed.

Lemma sort_perm l : JS.sort l ≡ₚ l.
Proof.
  induction l as [|x l IH]; simpl; [done|]. by rewrite insert_sorted_perm, IH.
Qed.

Lemma insert_sorted_Sorted x l : Sorted str_le l -> Sorted str_le (JS.insert_sorted x l).
Proof.
  induction l as [|y l IH]; intros Hl; simpl.
  - repeat constructor.
  - destruct (JS.str_leb x y) eqn:Hxy.
    + constructor; [done|]. by constructor.
    + inversion Hl as [|? ? Hl' Hhd]; subst. constructor; [auto|].
      assert (str_le y x) as Hyx by (destruct (str_leb_total x y); [congruence | done]).
      destruct l as [|z l]; simpl; [by constructor|].
      destruct (JS.str_leb x z); constructor; [done|]. by inversion Hhd.
Qed.

Lemma sort_Sorted l : Sorted str_le (JS.sort l).
Proof.
  induction l as [|x l IH]; simpl; [constructor|]. by apply insert_sorted_Sorted.
Qed.

(** The sorted array depends on the elements only, not on their order. *)
Lemma sort_of_perm l l' : l ≡ₚ l' -> JS.sort l = JS.sort l'.
Proof.
  intros Hp. apply (Sorted_unique str_le); try apply sort_Sorted.
  by rewrite !sort_perm.
Qed.

(** ** The marker pattern *)

Section Greedy.
Context {R : Type} (p : N -> bool) (k : list N -> list N -> list N -> option R).

(** A successful greedy iteration has consumed some run of the class and
    handed the rest to its continuation. *)
Lemma greedy_inv bef aft acc r :
  Regex.greedy p k bef aft acc = Some r ->
  exists taken rest,
    aft = taken ++ rest /\ forallb p taken = true /\
    k (rev taken ++ bef) rest (acc ++ taken) = Some r.
Proof.
  revert bef acc. induction aft as [|c aft IH]; intros bef acc H; simpl in H.
  - exists [], []. simpl. rewrite app_nil_r. auto.
  - destruct (p c) eqn:Hc.
    + destruct (Regex.greedy p k (c :: bef) aft (acc ++ [c])) as [r'|] eqn:Hg.
      * inversion H; subst r'. apply IH in Hg as (taken & rest & -> & Hall & Hk).
        exists (c :: taken), rest. simpl. rewrite Hc, Hall.
        rewrite <- !app_assoc in *. simpl in *. auto.
      * exists [], (c :: aft). simpl. rewrite app_nil_r. auto.
    + exists [], (c :: aft). simpl. rewrite app_nil_r. auto.
Qed.

(** The longest run is tried first: when the continuation accepts it,
    that is the result. *)
Lemma greedy_longest taken rest bef acc r :
  forallb p taken = true ->
  k (rev taken ++ bef) rest (acc ++ taken) = Some r ->
  match rest with c :: _ => p c = false | [] => True end ->
  Regex.greedy p k bef (taken ++ rest) acc = Some r.
Proof.
  revert bef acc. induction taken as [|c taken IH]; intros bef acc Hall Hk Hrest.
  - simpl in *. rewrite app_nil_r in Hk.
    destruct rest as [|c rest]; simpl; [done|]. by rewrite Hrest.
  - simpl in Hall. apply andb_true_iff in Hall as [Hc Hall]. simpl. rewrite Hc.
    rewrite (IH (c :: bef) (acc ++ [c])); auto.
    simpl in Hk. by rewrite <- !app_assoc in *.
Qed.
End Greedy.

Lemma digit_is_word c : JS.is_digit c = true -> JS.is_word c = true.
Proof. unfold JS.is_word. intros ->. by rewrite orb_true_r. Qed.

Lemma digit_not_space c : JS.is_digit c = true -> JS.is_space c = false.
Proof.
  unfold JS.is_digit, JS.is_space. intros H.
  apply andb_true_iff in H as [H1 H2].
  apply N.leb_le in H1. apply N.leb_le in H2.
  repeat match goal with
         | |- context [(?a <=? c)%N] => destruct (N.leb_spec a c); try lia
         | |- context [(c <=? ?a)%N] => destruct (N.leb_spec c a); try lia
         | |- context [(c =? ?a)%N] => destruct (N.eqb_spec c a); try lia
         end; reflexivity.
Qed.

Lemma letter_not_space u c :
  (65 <= u <= 90)%N -> Regex.letter_i u c = true -> JS.is_space c = false.
Proof.
  unfold Regex.letter_i, JS.is_space. intros Hu H.
  apply orb_true_iff in H as [H|H]; apply N.eqb_eq in H; subst c;
  repeat match goal with
         | |- context [(?a <=? ?b)%N] => destruct (N.leb_spec a b); try lia
         | |- context [(?b =? ?a)%N] => destruct (N.eqb_spec b a); try lia
         end; reflexivity.
Qed.

Lemma exec_from_not_at_start aft : forall c bef,
  Regex.exec_from Regex.case_marker (c :: bef) aft = None.
Proof.
  induction aft as [|d aft IH]; intros c bef; simpl; [done|].
  apply IH.
Qed.

Lemma String_match_run text :
  Regex.String_match text Regex.case_marker = Regex.run Regex.case_marker [] text [].
Proof.
  unfold Regex.String_match. destruct text as [|c text]; cbn [Regex.exec_from].
  - by destruct (Regex.run _ _ _ _).
  - destruct (Regex.run _ _ _ _); [done|]. apply exec_from_not_at_start.
Qed.

(** The code unit just before the position, after a run has been
    consumed, belongs to the class of the run. *)
Lemma rev_run_head (p : N -> bool) l x bef :
  p x = true -> forallb p l = true ->
  exists y rest, rev l ++ x :: bef = y :: rest /\ p y = true.
Proof.
  revert x bef. induction l as [|a l IH]; intros x bef Hx Hl.
  - eexists _, _. simpl. eauto.
  - simpl in *. apply andb_true_iff in Hl as [Ha Hl].
    rewrite <- app_assoc. simpl. by apply IH.
Qed.

Lemma String_match_shape text ds :
  Regex.String_match text Regex.case_marker = Some ds <-> marker_shape text ds.
Proof.
  rewrite String_match_run. split.
  - intros H. simpl in H.
    apply greedy_inv in H as (ws1 & r1 & -> & Hws1 & H).
    destruct r1 as [|h r1]; [done|].
    destruct (Regex.chr 35 h) eqn:Hh; [|done].
    apply N.eqb_eq in Hh. subst h.
    apply greedy_inv in H as (ws2 & r2 & -> & Hws2 & H).
    destruct r2 as [|c r2]; [done|]. destruct (Regex.letter_i 67 c) eqn:Hc; [|done].
    destruct r2 as [|a r2]; [done|]. destruct (Regex.letter_i 65 a) eqn:Ha; [|done].
    destruct r2 as [|s r2]; [done|]. destruct (Regex.letter_i 83 s) eqn:Hs; [|done].
    destruct r2 as [|e r2]; [done|]. destruct (Regex.letter_i 69 e) eqn:He; [|done].
    apply greedy_inv in H as (ws3 & r3 & -> & Hws3 & H).
    destruct r3 as [|d r3]; [done|]. destruct (JS.is_digit d) eqn:Hd; [|done].
    apply greedy_inv in H as (dt & rest & -> & Hdt & H).
    destruct (rev_run_head JS.is_digit dt d
                (rev ws3 ++ e :: s :: a :: c :: rev ws2 ++ 35%N :: rev ws1 ++ []) Hd Hdt)
      as (y & tl & E & Hy).
    rewrite E in H. simpl in H.
    assert (JS.is_word y = true) as Hw by by apply digit_is_word.
    rewrite Hw in H. destruct (Regex.word_at rest) eqn:Hrest; simpl in H; [done|].
    inversion H; subst ds.
    exists ws1, ws2, [c; a; s; e], ws3, rest. simpl.
    repeat split; auto.
    + unfold keyword. eauto 10.
    + by rewrite Hd, Hdt.
  - intros (ws1 & ws2 & kw & ws3 & rest & -> & H1 & H2 & (c & a & s & e & -> & Hc & Ha & Hs & He)
            & H3 & Hne & Hds & Hrest).
    destruct ds as [|d dt]; [done|]. simpl in Hds.
    apply andb_true_iff in Hds as [Hd Hdt].
    cbn [Regex.run Regex.case_marker].
    apply greedy_longest; [done| |by simpl].
    cbn [app]. unfold Regex.chr at 1. rewrite N.eqb_refl.
    apply greedy_longest; [done| |]; cycle 1.
    { simpl. eapply letter_not_space; [|exact Hc]. lia. }
    cbn [app]. rewrite Hc, Ha, Hs, He.
    apply greedy_longest; [done| |]; cycle 1.
    { simpl. by apply digit_not_space. }
    cbn [app]. rewrite Hd.
    apply greedy_longest; [done| |]; cycle 1.
    { destruct rest as [|x rest]; [done|]. simpl in Hrest.
      destruct (JS.is_digit x) eqn:Hx; [|done]. apply digit_is_word in Hx. congruence. }
    match goal with |- context [rev dt ++ d :: ?b] =>
      destruct (rev_run_head JS.is_digit dt d b Hd Hdt) as (y & tl & E & Hy); rewrite E end.
    assert (JS.is_word y = true) as Hw by by apply digit_is_word.
    simpl. by rewrite Hw, Hrest.
Qed.

(** ** The case extractor *)

Lemma scan_fold doc : forall ls k acc,
  drop k (lines doc) = ls ->
  fold_left (scan_line doc) (seq k (length ls)) acc = acc ++ pushed (lineCount doc) ls k.
Proof.
  induction ls as [|text ls IH]; intros k acc Hdrop; simpl.
  - by rewrite app_nil_r.
  - assert (lines doc !! k = Some text) as Hk.
    { rewrite <- (Nat.add_0_r k), <- lookup_drop, Hdrop. done. }
    assert (drop (S k) (lines doc) = ls) as Hd.
    { replace (S k) with (k + 1)%nat by lia. by rewrite <- drop_drop, Hdrop. }
    unfold scan_line at 2. rewrite Hk.
    destruct (Regex.String_match text Regex.case_marker).
    + rewrite (IH (S k) _ Hd), <- app_assoc. done.
    + by rewrite (IH (S k) _ Hd).
Qed.

Lemma fix_endLine_cons c cases i :
  fix_endLine (c :: cases) (S i) = c :: fix_endLine cases i.
Proof.
  unfold fix_endLine. simpl.
  destruct (cases !! i), (cases !! S i); done.
Qed.

Lemma fix_fold_cons c : forall n a cases,
  fold_left fix_endLine (seq (S a) n) (c :: cases)
  = c :: fold_left fix_endLine (seq a n) cases.
Proof.
  induction n as [|n IH]; intros a cases; simpl; [done|].
  by rewrite fix_endLine_cons, IH.
Qed.

Lemma fix_fold_chained cases :
  fold_left fix_endLine (seq 0 (length cases - 1)) cases = chained cases.
Proof.
  induction cases as [|c [|d tl] IH]; try done.
  change (length (c :: d :: tl) - 1)%nat with (S (length tl)).
  change (seq 0 (S (length tl))) with (0%nat :: seq 1 (length tl)).
  cbn [fold_left]. change (fix_endLine (c :: d :: tl) 0)
    with (set_endLine c (startLine d - 1) :: d :: tl).
  rewrite fix_fold_cons.
  change (chained (c :: d :: tl)) with (set_endLine c (startLine d - 1) :: chained (d :: tl)).
  f_equal. rewrite <- IH. simpl. by rewrite Nat.sub_0_r.
Qed.

Lemma extractCases_eq doc :
  extractCases doc = chained (pushed (lineCount doc) (lines doc) 0).
Proof.
  unfold extractCases. rewrite (scan_fold doc (lines doc) 0 []) by done.
  simpl. apply fix_fold_chained.
Qed.

Lemma ascending_weaken total lo lo' cases :
  lo' <= lo -> ascending total lo cases -> ascending total lo' cases.
Proof. intros Hle H. destruct H; constructor; auto; lia. Qed.

Lemma pushed_ascending total : forall ls i,
  Z.of_nat i + Z.of_nat (length ls) = total ->
  ascending total (Z.of_nat i) (pushed total ls i).
Proof.
  induction ls as [|text ls IH]; intros i Hlen; simpl in *; [constructor|].
  assert (ascending total (Z.of_nat (S i)) (pushed total ls (S i))) as Hrec
    by (apply IH; lia).
  destruct (Regex.String_match text Regex.case_marker).
  - constructor; simpl; try lia. eapply ascending_weaken; [|exact Hrec]. lia.
  - eapply ascending_weaken; [|exact Hrec]. lia.
Qed.

Lemma chained_head c cases :
  exists e, chained (c :: cases) = set_endLine c e :: chained cases
            /\ (cases = [] -> e = endLine c)
            /\ (forall d tl, cases = d :: tl -> e = startLine d - 1).
Proof.
  destruct cases as [|d tl].
  - exists (endLine c). destruct c; simpl. split; [done|]. split; [done|]. by intros.
  - exists (startLine d - 1). split; [done|]. split; [done|].
    intros d' tl' [= -> ->]. done.
Qed.

Lemma chained_props total : forall cases lo,
  ascending total lo cases ->
  Forall (fun c => lo <= startLine c <= endLine c) (chained cases)
  /\ (forall i j c d, chained cases !! i = Some c -> chained cases !! j = Some d ->
                      (i < j)%nat -> startLine c < startLine d)
  /\ (forall i c d, chained cases !! i = Some c -> chained cases !! S i = Some d ->
                    endLine c = startLine d - 1)
  /\ (forall c, last (chained cases) = Some c -> endLine c = total - 1).
Proof.
  induction cases as [|c cases IH]; intros lo Hasc.
  - simpl. repeat split; [constructor | | | ]; intros; simplify_eq; done.
  - inversion Hasc as [|? ? ? Hlo Hhi Hend Hrest]; subst.
    destruct (IH _ Hrest) as (Hall & Hord & Hadj & Hlast).
    destruct (chained_head c cases) as (e & -> & He1 & He2).
    assert (startLine c <= e) as Hce.
    { destruct cases as [|d tl]; [rewrite He1 by done; lia|].
      rewrite (He2 d tl) by done. inversion Hrest; subst. lia. }
    repeat split.
    + constructor; [simpl; lia|].
      eapply Forall_impl; [exact Hall|]. simpl. intros; lia.
    + intros i j x y Hi Hj Hij. destruct j as [|j]; [lia|]. simpl in Hj.
      assert (startLine c + 1 <= startLine y) as Hy.
      { rewrite Forall_forall in Hall. apply Hall. eapply list_elem_of_lookup_2; eauto. }
      destruct i as [|i]; simpl in Hi.
      * simplify_eq. simpl. lia.
      * eapply Hord; eauto. lia.
    + intros i x y Hi Hj. destruct i as [|i]; simpl in Hi, Hj.
      * simplify_eq. simpl.
        destruct cases as [|d tl]; [done|].
        rewrite (He2 d tl) by done. simpl in Hj.
        destruct tl; simpl in Hj; by simplify_eq.
      * eauto.
    + intros x Hx. destruct (chained cases) as [|y ys] eqn:Hch.
      * simpl in Hx. simplify_eq. simpl.
        destruct cases as [|d tl]; [rewrite He1 by done; done|].
        simpl in Hch. by destruct tl.
      * apply Hlast. by rewrite last_cons_cons in Hx.
Qed.

(** C6. For every document, [extractCases] returns the cases in ascending
    order of [startLine], each with [startLine <= endLine]; the [endLine]
    of every case but the last is the next case's [startLine] minus one and
    the last case's [endLine] is [lineCount - 1]. Markers at lines 2, 10
    and 25 of a 30-line document give the ranges [2,9], [10,24], [25,29]. *)
Theorem extractCases_ranges :
  (forall doc,
     let cases := extractCases doc in
     (forall i j c d, cases !! i = Some c -> cases !! j = Some d -> (i < j)%nat ->
                      startLine c < startLine d)
     /\ (forall c, c ∈ cases -> startLine c <= endLine c)
     /\ (forall i c d, cases !! i = Some c -> cases !! S i = Some d ->
                       endLine c = startLine d - 1)
     /\ (forall c, last cases = Some c -> endLine c = lineCount doc - 1))
  /\ lineCount thirty_lines = 30
  /\ extractCases thirty_lines
     = [ {| id := 1; startLine := 2; endLine := 9 |};
         {| id := 2; startLine := 10; endLine := 24 |};
         {| id := 3; startLine := 25; endLine := 29 |} ].
Proof.
  split; [|split; reflexivity].
  intros doc cases. subst cases. rewrite extractCases_eq.
  destruct (chained_props (lineCount doc) (pushed (lineCount doc) (lines doc) 0) 0)
    as (Hall & Hord & Hadj & Hlast).
  { apply (pushed_ascending (lineCount doc) (lines doc) 0). unfold lineCount. lia. }
  repeat split; auto.
  intros c Hc. rewrite Forall_forall in Hall. apply Hall in Hc. lia.
Qed.

(** ** Recognition of marker lines *)

Lemma first_non_space_app ws c rest :
  forallb JS.is_space ws = true -> JS.is_space c = false ->
  first_non_space (ws ++ c :: rest) = Some c.
Proof.
  intros Hws Hc. induction ws as [|w ws IH]; simpl in *.
  - by rewrite Hc.
  - apply andb_true_iff in Hws as [-> Hws]. simpl. auto.
Qed.

(** C10. A line is a marker only when its first non-blank character is
    the hash sign, so no other comment syntax is recognized; the id is a
    non-empty run of decimal digits that ends at a word boundary, and the
    line is a marker exactly when it has the shape blanks, hash, blanks,
    CASE in any case, blanks, digits, boundary. The line "# CASE 12abc" is
    not a marker and yields no case. *)
Theorem marker_recognition :
  (forall text ds,
     Regex.String_match text Regex.case_marker = Some ds <-> marker_shape text ds)
  /\ (forall text ds,
        Regex.String_match text Regex.case_marker = Some ds ->
        first_non_space text = Some 35%N)
  /\ (forall text ds,
        Regex.String_match text Regex.case_marker = Some ds ->
        ds <> [] /\ forallb JS.is_digit ds = true
        /\ exists before rest, text = before ++ ds ++ rest /\ Regex.word_at rest = false)
  /\ Regex.String_match (JS.lit "# CASE 12abc") Regex.case_marker = None
  /\ extractCases {| lines := [JS.lit "# CASE 12abc"; JS.lit "x = 1"] |} = []
  /\ Regex.String_match (JS.lit "// CASE 12") Regex.case_marker = None
  /\ Regex.String_match (JS.lit "-- CASE 12") Regex.case_marker = None
  /\ Regex.String_match (JS.lit "/* CASE 12 */") Regex.case_marker = None
  /\ Regex.String_match (JS.lit "x = 1  # CASE 12") Regex.case_marker = None
  /\ Regex.String_match (JS.lit "# CASE twelve") Regex.case_marker = None
  /\ Regex.String_match (JS.lit "  # case 12: reflected") Regex.case_marker = Some (JS.lit "12").
Proof.
  split; [exact String_match_shape|].
  split.
  { intros text ds H. apply String_match_shape in H
      as (ws1 & ws2 & kw & ws3 & rest & -> & H1 & _).
    by apply first_non_space_app. }
  split.
  { intros text ds H. apply String_match_shape in H
      as (ws1 & ws2 & kw & ws3 & rest & -> & _ & _ & _ & _ & Hne & Hds & Hrest).
    repeat split; auto.
    exists (ws1 ++ [35%N] ++ ws2 ++ kw ++ ws3), rest.
    by rewrite <- !app_assoc. }
  repeat split; reflexivity.
Qed.

(** ** One document of a pass *)

Lemma reveals_are_reveals l : Forall is_reveal (reveals l).
Proof.
  unfold reveals, getCaseTerminal.
  destruct (shown l), (terminalShown l), (caseTerminal (st l)) as [t|],
    (caseTerminalWriter (st l)) as [w|]; simpl; repeat constructor.
Qed.

Section OneDocument.
Context (h : Host) (clock : nat -> Z) (uri : Uri) (l : Loop) (doc : TextDocument).
Hypothesis fetched : openTextDocument h uri = Some doc.

Let uriKey := uri_toString uri.
Let diagnostics := filtered h uri.
Let cases := extractCases doc.

(** The case branch when the key is the stored one. *)
Lemma report_uri_case_same :
  cases <> [] ->
  lastReports (st l) !! uriKey = Some (report_key diagnostics cases) ->
  exists rd, report_uri h clock uri l = Normal (with_state l (st l) rd).
Proof.
  intros Hne Hsame. unfold report_uri. rewrite fetched.
  fold cases. destruct cases as [|c cs] eqn:Hc; [done|].
  cbn [length Nat.ltb Nat.leb]. fold diagnostics uriKey. unfold filtered in diagnostics.
  fold diagnostics. rewrite decide_True by exact Hsame. eauto.
Qed.

(** The case branch when the key differs from the stored one. *)
Lemma report_uri_case_new :
  cases <> [] ->
  lastReports (st l) !! uriKey <> Some (report_key diagnostics cases) ->
  exists l',
    report_uri h clock uri l = Normal l'
    /\ out l' = out l ++ reveals l
                  ++ render_cases (writer_of (st l)) diagnostics
                       (JS.div1000 (Z.max 0 (elapsedMs_of clock uri l))) cases
    /\ lastReports (st l') = <[ uriKey := report_key diagnostics cases ]> (lastReports (st l))
    /\ lastChangeAt (st l') = lastChangeAt (st l)
    /\ shown l' = true /\ terminalShown l' = true.
Proof.
  intros Hne Hnew. unfold report_uri. rewrite fetched.
  fold cases. destruct cases as [|c cs] eqn:Hc; [done|].
  cbn [length Nat.ltb Nat.leb]. fold diagnostics uriKey. unfold filtered in diagnostics.
  fold diagnostics. rewrite decide_False by exact Hnew.
  unfold reveals, writer_of, elapsedMs_of. fold uriKey.
  unfold reveal_channel, reveal_terminal, emit, with_state. cbn [st shown terminalShown reads out].
  destruct (lastChangeAt (st l) !! uriKey) as [t|]; cbn [fst snd default];
    destruct (shown l); cbn [st shown terminalShown reads out];
    unfold getCaseTerminal, set_lastReports;
    cbn [caseTerminal caseTerminalWriter created lastReports lastChangeAt outputChannel];
    destruct (caseTerminal (st l)) as [tm|], (caseTerminalWriter (st l)) as [w|];
    cbn [st shown terminalShown reads out fst snd];
    destruct (terminalShown l); cbn [st shown terminalShown reads out fst snd];
    eexists; (split; [reflexivity|]); cbn [st shown terminalShown reads out lastReports lastChangeAt];
    rewrite <- ?app_assoc; cbn [app]; rewrite ?app_nil_r; repeat split; reflexivity.
Qed.
End OneDocument.

(** ** Case labels *)

Lemma caseHasIssue_issues_in diagnostics c :
  caseHasIssue diagnostics c = match issues_in diagnostics c with [] => false | _ => true end.
Proof.
  unfold caseHasIssue, issues_in.
  induction diagnostics as [|d ds IH]; simpl; [done|].
  destruct ((startLine c <=? line (start (range d))) && (line (start (range d)) <=? endLine c));
    simpl; auto.
Qed.

Lemma case_line_labelled diagnostics x c :
  case_line diagnostics x c = labelled_line (label_of diagnostics c) c (JS.toFixed2 x).
Proof.
  unfold case_line, labelled_line, label_of. rewrite caseHasIssue_issues_in.
  by destruct (issues_in diagnostics c).
Qed.

Lemma render_cases_labelled w diagnostics x cases :
  render_cases w diagnostics x cases
  = flat_map (fun c =>
                [ ChannelAppendLine (labelled_line (label_of diagnostics c) c (JS.toFixed2 x));
                  WriterFire w (labelled_line (label_of diagnostics c) c (JS.toFixed2 x)
                                  ++ [13; 10]%N) ])
             cases.
Proof.
  unfold render_cases. induction cases as [|c cs IH]; cbn [flat_map app]; [done|].
  by rewrite IH, case_line_labelled.
Qed.

(** C1, as the code has it. In a case pass that renders, the events after
    the reveals are, for each case in turn, its line on the output channel
    and the same line with CR LF on the terminal writer; the line of a case
    whose range holds at least one filtered diagnostic carries the label
    "성공" (success) and the line of a case whose range holds none carries
    "실패" (failure), for all cases of the pass. *)
Theorem case_labels (h : Host) (clock : nat -> Z) (uri : Uri) (l : Loop) (doc : TextDocument) :
  openTextDocument h uri = Some doc ->
  extractCases doc <> [] ->
  lastReports (st l) !! uri_toString uri
    <> Some (report_key (filtered h uri) (extractCases doc)) ->
  exists l' elapsed w pre,
    report_uri h clock uri l = Normal l'
    /\ Forall is_reveal pre
    /\ out l' = out l ++ pre
                 ++ flat_map (fun c =>
                      [ ChannelAppendLine (labelled_line (label_of (filtered h uri) c) c elapsed);
                        WriterFire w (labelled_line (label_of (filtered h uri) c) c elapsed
                                        ++ [13; 10]%N) ])
                      (extractCases doc)
    /\ forall c, c ∈ extractCases doc ->
         (issues_in (filtered h uri) c <> [] -> written_with label_success c elapsed w (out l'))
         /\ (issues_in (filtered h uri) c = [] -> written_with label_failure c elapsed w (out l')).
Proof.
  intros Hdoc Hne Hnew.
  destruct (report_uri_case_new h clock uri l doc Hdoc Hne Hnew)
    as (l' & Hrun & Hout & _).
  rewrite render_cases_labelled in Hout.
  eexists l', _, _, (reveals l). split; [exact Hrun|].
  split; [apply reveals_are_reveals|]. split; [exact Hout|].
  intros c Hc.
  assert (forall lab, label_of (filtered h uri) c = lab ->
            written_with lab c
              (JS.toFixed2 (JS.div1000 (Z.max 0 (elapsedMs_of clock uri l))))
              (writer_of (st l)) (out l')) as Hw.
  { intros lab <-. unfold written_with. rewrite Hout.
    split; rewrite !elem_of_app; right; right; apply list_elem_of_In, in_flat_map;
      exists c; (split; [by apply list_elem_of_In|]); simpl; auto. }
  unfold label_of in Hw.
  split; intros Hi; apply Hw; destruct (issues_in (filtered h uri) c); done.
Qed.

(** The pass over [two_cases] from the activated state is an instance. *)
Lemma case_labels_witness :
  exists l' elapsed w,
    report_uri host_two_cases noon cases_py (enter activated) = Normal l'
    /\ forall c, c ∈ extractCases two_cases ->
         (issues_in (filtered host_two_cases cases_py) c <> [] ->
          written_with label_success c elapsed w (out l'))
         /\ (issues_in (filtered host_two_cases cases_py) c = [] ->
             written_with label_failure c elapsed w (out l')).
Proof.
  destruct (case_labels host_two_cases noon cases_py (enter activated) two_cases)
    as (l' & e & w & pre & Hrun & _ & _ & Hlab).
  - reflexivity.
  - discriminate.
  - discriminate.
  - exists l', e, w. split; [exact Hrun | exact Hlab].
Defined.

(** C1, as the specification words it, fails on the document [two_cases]:
    the first case holds the diagnostic and is written with "성공", not
    with the failure label. *)
Lemma labels_as_specified_fails :
  ~ labels_as_specified host_two_cases noon cases_py activated.
Proof.
  intros H.
  destruct (H two_cases {| id := 1; startLine := 0; endLine := 1 |}) as [Hfail _].
  - reflexivity.
  - vm_compute. left.
  - destruct Hfail as (e & w & Hch & _); [discriminate|].
    apply list_elem_of_In in Hch. vm_compute in Hch.
    repeat (destruct Hch as [Hch|Hch]; [discriminate Hch|]). exact Hch.
Qed.

(** ** Order of the cases in the key and in the output *)

Lemma pushed_ids total : forall ls i,
  map id (pushed total ls i) = omap marker_id ls.
Proof.
  induction ls as [|text ls IH]; intros i; simpl; [done|].
  unfold marker_id at 1.
  destruct (Regex.String_match text Regex.case_marker); simpl; by rewrite IH.
Qed.

Lemma chained_ids cases : map id (chained cases) = map id cases.
Proof.
  induction cases as [|c cases IH]; [done|].
  destruct (chained_head c cases) as (e & -> & _). simpl. by rewrite IH.
Qed.

Lemma extractCases_ids doc : map id (extractCases doc) = omap marker_id (lines doc).
Proof. by rewrite extractCases_eq, chained_ids, pushed_ids. Qed.

Lemma extractCases_ascending doc i j c d :
  extractCases doc !! i = Some c -> extractCases doc !! j = Some d -> (i < j)%nat ->
  startLine c < startLine d.
Proof.
  rewrite extractCases_eq.
  destruct (chained_props (lineCount doc) (pushed (lineCount doc) (lines doc) 0) 0)
    as (_ & Hord & _).
  { apply (pushed_ascending (lineCount doc) (lines doc) 0). unfold lineCount. lia. }
  apply Hord.
Qed.

(** C2, as the specification words it, fails. The key of [second_first]
    lists case 2 before case 1, it is not the key of the cases sorted by
    id, and it differs from the key of [first_second] although both
    documents carry the same ids with the same outcomes; the rendered
    lines come in the same textual order. *)
Lemma report_key_not_by_id :
  report_key [] (extractCases second_first) = JS.lit "2:0|1:0"
  /\ report_key_by_id [] (extractCases second_first) = JS.lit "1:0|2:0"
  /\ map (outcome []) (extractCases second_first)
       ≡ₚ map (outcome []) (extractCases first_second)
  /\ report_key [] (extractCases second_first) <> report_key [] (extractCases first_second)
  /\ out (loop_of (reportXssDiagnostics (host_of second_first []) noon [cases_py] activated))
     = [ ChannelShow; TerminalCreate 0; TerminalShow 0;
         ChannelAppendLine (labelled_line label_failure
                              {| id := 2; startLine := 0; endLine := 1 |} (JS.lit "0.00"));
         WriterFire 0 (labelled_line label_failure
                         {| id := 2; startLine := 0; endLine := 1 |} (JS.lit "0.00")
                         ++ [13; 10]%N);
         ChannelAppendLine (labelled_line label_failure
                              {| id := 1; startLine := 2; endLine := 3 |} (JS.lit "0.00"));
         WriterFire 0 (labelled_line label_failure
                         {| id := 1; startLine := 2; endLine := 3 |} (JS.lit "0.00")
                         ++ [13; 10]%N) ].
Proof.
  split; [reflexivity|]. split; [reflexivity|]. split.
  - change (map (outcome []) (extractCases second_first))
      with [(JS.of_Z 2, false); (JS.of_Z 1, false)].
    change (map (outcome []) (extractCases first_second))
      with [(JS.of_Z 1, false); (JS.of_Z 2, false)].
    apply perm_swap.
  - split; [discriminate | reflexivity].
Qed.

Lemma entries_of_outcomes dsA dsB : forall casesA casesB,
  map (outcome dsA) casesA = map (outcome dsB) casesB ->
  map (case_entry dsA) casesA = map (case_entry dsB) casesB.
Proof.
  induction casesA as [|a casesA IH]; intros [|b casesB] Hmap; try done.
  cbn [map] in *. unfold outcome at 1 3 in Hmap. injection Hmap as Hid Hflag Hrest.
  unfold case_entry at 1 3. rewrite Hid, Hflag. f_equal. by apply IH.
Qed.

(** C2, as the code has it. The cases come out of the extractor in the
    order of their markers in the text, and the key lists them in that
    order, one entry "<id>:<0|1>" per case, whatever the ids are; a case
    pass that renders stores that key and emits the case lines in the same
    textual order. Two case lists that agree position by position on id and
    outcome have the same key. The id of an entry is the text of the
    Number that the digits of the marker convert to: the digits of the
    id when it is below 2^53, and for the markers of [large_ids] the
    entries of 9007199254740992, 1e+21 and Infinity. *)
Theorem report_key_textual_order :
  (forall doc diagnostics,
     (forall i j c d, extractCases doc !! i = Some c -> extractCases doc !! j = Some d ->
                      (i < j)%nat -> startLine c < startLine d)
     /\ map id (extractCases doc) = omap marker_id (lines doc)
     /\ report_key diagnostics (extractCases doc)
        = JS.join (JS.lit "|")
            (map (fun c => JS.ToString (id c) ++ JS.lit ":"
                             ++ (if caseHasIssue diagnostics c then JS.lit "1" else JS.lit "0"))
                 (extractCases doc)))
  /\ (forall h clock uri l doc,
        openTextDocument h uri = Some doc ->
        extractCases doc <> [] ->
        lastReports (st l) !! uri_toString uri
          <> Some (report_key (filtered h uri) (extractCases doc)) ->
        exists l' elapsed w pre,
          report_uri h clock uri l = Normal l'
          /\ lastReports (st l') !! uri_toString uri
             = Some (report_key (filtered h uri) (extractCases doc))
          /\ Forall is_reveal pre
          /\ out l' = out l ++ pre
                ++ flat_map (fun c => [ ChannelAppendLine (case_line (filtered h uri) elapsed c);
                                        WriterFire w (case_line (filtered h uri) elapsed c
                                                        ++ [13; 10]%N) ])
                            (extractCases doc))
  /\ (forall dsA dsB casesA casesB,
        map (outcome dsA) casesA = map (outcome dsB) casesB ->
        report_key dsA casesA = report_key dsB casesB)
  /\ (forall z, 0 <= z < 2 ^ 53 -> JS.ToString (JS.of_Z z) = JS.digits (Z.to_N z))
  /\ report_key [] (extractCases large_ids)
     = JS.lit "9007199254740992:0|1e+21:0|Infinity:0".
Proof.
  split; [|split; [|split; [|split]]]; [| | | |vm_compute; reflexivity].
  - intros doc diagnostics. split; [apply extractCases_ascending|].
    split; [apply extractCases_ids|].
    unfold report_key. f_equal. apply map_ext. intros c. unfold case_entry.
    by destruct (caseHasIssue diagnostics c).
  - intros h clock uri l doc Hdoc Hne Hnew.
    destruct (report_uri_case_new h clock uri l doc Hdoc Hne Hnew)
      as (l' & Hrun & Hout & Hrep & _).
    eexists l', _, _, (reveals l). split; [exact Hrun|].
    split; [by rewrite Hrep, lookup_insert_eq|].
    split; [apply reveals_are_reveals|]. exact Hout.
  - intros dsA dsB casesA casesB Hmap. unfold report_key.
    by rewrite (entries_of_outcomes dsA dsB casesA casesB Hmap).
  - intros z Hz. rewrite ToString_small by lia.
    destruct (Z.ltb_spec z 0); [lia|]. cbn [app]. by rewrite Z.abs_eq by lia.
Qed.

(** The pass over [second_first] stores the key in textual order. *)
Lemma report_key_textual_order_witness :
  extractCases second_first <> []
  /\ exists l',
       report_uri (host_of second_first []) noon cases_py (enter activated) = Normal l'
       /\ lastReports (st l') !! uri_toString cases_py = Some (JS.lit "2:0|1:0").
Proof.
  split; [discriminate|].
  destruct report_key_textual_order as (_ & Hpass & _).
  destruct (Hpass (host_of second_first []) noon cases_py (enter activated) second_first)
    as (l' & e & w & pre & Hrun & Hkey & _).
  - reflexivity.
  - discriminate.
  - cbn [enter st activated lastReports]. rewrite lookup_empty. discriminate.
  - exists l'. split; [exact Hrun|]. rewrite Hkey. reflexivity.
Defined.

(** ** The dedup gate *)

Lemma render_flat_inside doc uri : forall diagnostics acc,
  Forall (fun diag => 0 <= line (start (range diag)) < lineCount doc) diagnostics ->
  render_flat doc uri diagnostics acc = inl (acc ++ flat_map (flat_lines doc uri) diagnostics).
Proof.
  induction diagnostics as [|d ds IH]; intros acc Hall; cbn [render_flat flat_map].
  - by rewrite app_nil_r.
  - inversion Hall as [|? ? Hd Hds]; subst.
    assert (exists text, lineAt doc (line (start (range d))) = Some text) as [text Htext].
    { unfold lineAt.
      destruct (Z.leb_spec 0 (line (start (range d)))); [|lia].
      destruct (Z.ltb_spec (line (start (range d))) (lineCount doc)); [|lia].
      simpl. apply lookup_lt_is_Some. unfold lineCount in *. lia. }
    unfold flat_lines at 1. rewrite Htext. cbn [default].
    rewrite IH by done. by rewrite <- app_assoc.
Qed.

Section OneFlatDocument.
Context (h : Host) (clock : nat -> Z) (uri : Uri) (l : Loop) (doc : TextDocument).
Hypothesis fetched : openTextDocument h uri = Some doc.
Hypothesis no_cases : extractCases doc = [].

Lemma report_uri_flat_empty :
  filtered h uri = [] -> report_uri h clock uri l = Normal l.
Proof.
  intros Hds. unfold report_uri. rewrite fetched, no_cases. cbn [length Nat.ltb Nat.leb].
  unfold filtered in Hds. by rewrite Hds.
Qed.

Lemma report_uri_flat_same :
  filtered h uri <> [] ->
  lastReports (st l) !! uri_toString uri = Some (flat_fingerprint (filtered h uri)) ->
  report_uri h clock uri l = Normal l.
Proof.
  intros Hds Hsame. unfold report_uri. rewrite fetched, no_cases. cbn [length Nat.ltb Nat.leb].
  unfold filtered in *. destruct (List.filter is_xss (getDiagnostics h uri)) eqn:E; [done|].
  cbn [length Nat.eqb]. by rewrite decide_True.
Qed.

(** The flat branch when the key differs: the key is stored, the channel
    is revealed, and the entries are written until [lineAt] throws. *)
Lemma report_uri_flat_new :
  filtered h uri <> [] ->
  lastReports (st l) !! uri_toString uri <> Some (flat_fingerprint (filtered h uri)) ->
  exists l' es,
    loop_of (report_uri h clock uri l) = l'
    /\ (render_flat doc uri (filtered h uri) [] = inl es
        /\ report_uri h clock uri l = Normal l'
        \/ render_flat doc uri (filtered h uri) [] = inr es
           /\ report_uri h clock uri l = Throw l')
    /\ out l' = out l ++ (if shown l then [] else [ChannelShow]) ++ es
    /\ st l' = set_lastReports (st l)
                 (<[ uri_toString uri := flat_fingerprint (filtered h uri) ]> (lastReports (st l)))
    /\ shown l' = true /\ terminalShown l' = terminalShown l.
Proof.
  intros Hds Hnew. unfold report_uri. rewrite fetched, no_cases. cbn [length Nat.ltb Nat.leb].
  unfold filtered in *. destruct (List.filter is_xss (getDiagnostics h uri)) as [|d ds] eqn:E; [done|].
  cbn [length Nat.eqb]. rewrite decide_False by done.
  destruct (render_flat doc uri (d :: ds) []) as [es|es] eqn:Hr;
    unfold reveal_channel, emit, with_state; cbn [st shown terminalShown reads out loop_of];
    destruct (shown l); cbn [st shown terminalShown reads out loop_of];
    eexists _, es; (split; [reflexivity|]);
    (split; [first [left; split; reflexivity | right; split; reflexivity]|]);
    cbn [st shown terminalShown reads out]; rewrite <- ?app_assoc; done.
Qed.
End OneFlatDocument.

Lemma with_state_same l : with_state l (st l) (reads l) = l.
Proof. by destruct l. Qed.

Lemma fingerprint_of_cases h uri doc :
  extractCases doc <> [] ->
  fingerprint_of h uri doc = report_key (filtered h uri) (extractCases doc).
Proof. unfold fingerprint_of. by destruct (extractCases doc). Qed.

Lemma fingerprint_of_flat h uri doc :
  extractCases doc = [] -> fingerprint_of h uri doc = flat_fingerprint (filtered h uri).
Proof. unfold fingerprint_of. by intros ->. Qed.

(** Nothing to report: the stored key is the key of the document, or the
    document has neither cases nor diagnostics. *)
Lemma report_uri_settled h clock uri l doc :
  openTextDocument h uri = Some doc ->
  lastReports (st l) !! uri_toString uri = Some (fingerprint_of h uri doc)
  \/ (extractCases doc = [] /\ filtered h uri = []) ->
  exists rd, report_uri h clock uri l = Normal (with_state l (st l) rd).
Proof.
  intros Hdoc Hcase.
  destruct (extractCases doc) as [|c cs] eqn:Hc.
  - exists (reads l). rewrite with_state_same.
    destruct (filtered h uri) as [|d ds] eqn:Hd.
    + by apply (report_uri_flat_empty h clock uri l doc).
    + destruct Hcase as [Hsame|[_ ?]]; [|done].
      rewrite fingerprint_of_flat in Hsame by done.
      apply (report_uri_flat_same h clock uri l doc); auto. by rewrite Hd.
  - destruct Hcase as [Hsame|[? _]]; [|done].
    rewrite fingerprint_of_cases in Hsame by by rewrite Hc.
    apply (report_uri_case_same h clock uri l doc); auto. by rewrite Hc.
Qed.

(** Whenever there is something to report, the key of the document is the
    stored key once the document has been handled. *)
Lemma report_uri_stores h clock uri l doc :
  openTextDocument h uri = Some doc ->
  extractCases doc <> [] \/ filtered h uri <> [] ->
  lastReports (st (loop_of (report_uri h clock uri l))) !! uri_toString uri
  = Some (fingerprint_of h uri doc).
Proof.
  intros Hdoc Hsome.
  destruct (decide (lastReports (st l) !! uri_toString uri = Some (fingerprint_of h uri doc)))
    as [Hsame|Hnew].
  - destruct (report_uri_settled h clock uri l doc Hdoc (or_introl Hsame)) as [rd ->]. done.
  - destruct (extractCases doc) as [|c cs] eqn:Hc.
    + destruct Hsome as [?|Hds]; [done|].
      rewrite fingerprint_of_flat in * by done.
      destruct (report_uri_flat_new h clock uri l doc Hdoc Hc Hds Hnew)
        as (l' & es & Hl' & _ & _ & Hst & _).
      rewrite Hl', Hst. apply lookup_insert_eq.
    + assert (extractCases doc <> []) as Hne by by rewrite Hc.
      rewrite fingerprint_of_cases in * by done.
      destruct (report_uri_case_new h clock uri l doc Hdoc Hne Hnew)
        as (l' & Hrun & _ & Hrep & _).
      rewrite Hrun. cbn [loop_of]. rewrite Hrep. apply lookup_insert_eq.
Qed.

(** C3, as the specification words it, fails in flat mode with an empty
    filtered set: the key of the empty set is the empty string, nothing is
    stored for the document, and yet the pass writes nothing and stores
    nothing. *)
Lemma sole_gate_fails_on_empty_flat :
  ~ sole_gate_as_specified (host_of plain_py []) noon cases_py activated.
Proof.
  intros H. destruct (H plain_py) as [Hout _].
  - reflexivity.
  - unfold activated. cbn [lastReports]. rewrite lookup_empty. discriminate.
  - by apply Hout.
Qed.

(** C3, as the code has it. For a fetched document with cases, or without
    cases and with a non-empty filtered set, the comparison of the new key
    with the stored one decides alone: equal keys leave output, state and
    flags as they are; a different key (or none stored) is stored and the
    rendering starts -- all case lines in case mode, and in flat mode the
    entries of the diagnostics up to the first one whose line [lineAt]
    rejects (all of them when every line lies in the document). Without
    cases and with an empty filtered set the pass writes and stores
    nothing, whatever key is stored. *)
Theorem dedup_gate (h : Host) (clock : nat -> Z) (uri : Uri) (l : Loop) (doc : TextDocument) :
  openTextDocument h uri = Some doc ->
  (extractCases doc = [] -> filtered h uri = [] -> report_uri h clock uri l = Normal l)
  /\ (extractCases doc <> [] \/ filtered h uri <> [] ->
      (lastReports (st l) !! uri_toString uri = Some (fingerprint_of h uri doc) ->
       exists l',
         report_uri h clock uri l = Normal l'
         /\ out l' = out l /\ st l' = st l
         /\ shown l' = shown l /\ terminalShown l' = terminalShown l)
      /\ (lastReports (st l) !! uri_toString uri <> Some (fingerprint_of h uri doc) ->
          exists l',
            loop_of (report_uri h clock uri l) = l'
            /\ lastReports (st l')
               = <[ uri_toString uri := fingerprint_of h uri doc ]> (lastReports (st l))
            /\ shown l' = true
            /\ (extractCases doc <> [] ->
                report_uri h clock uri l = Normal l'
                /\ exists pre w x,
                     Forall is_reveal pre
                     /\ out l' = out l ++ pre
                                  ++ render_cases w (filtered h uri) x (extractCases doc))
            /\ (extractCases doc = [] ->
                exists es,
                  out l' = out l ++ (if shown l then [] else [ChannelShow]) ++ es
                  /\ (render_flat doc uri (filtered h uri) [] = inl es
                      /\ report_uri h clock uri l = Normal l'
                      \/ render_flat doc uri (filtered h uri) [] = inr es
                         /\ report_uri h clock uri l = Throw l')
                  /\ (Forall (fun diag => 0 <= line (start (range diag)) < lineCount doc)
                             (filtered h uri) ->
                      es = flat_map (flat_lines doc uri) (filtered h uri)
                      /\ report_uri h clock uri l = Normal l')))).
Proof.
  intros Hdoc. split.
  { intros Hc Hd. by apply (report_uri_flat_empty h clock uri l doc). }
  intros Hsome. split.
  - intros Hsame.
    destruct (report_uri_settled h clock uri l doc Hdoc (or_introl Hsame)) as [rd ->].
    eexists. split; [reflexivity|]. done.
  - intros Hnew. destruct (extractCases doc) as [|c cs] eqn:Hc.
    + destruct Hsome as [?|Hds]; [done|].
      rewrite fingerprint_of_flat in * by done.
      destruct (report_uri_flat_new h clock uri l doc Hdoc Hc Hds Hnew)
        as (l' & es & Hl' & Hrun & Hout & Hst & Hshown & _).
      exists l'. split; [done|]. split; [by rewrite Hst|]. split; [done|].
      split; [done|]. intros _. exists es. split; [done|]. split; [done|].
      intros Hinside.
      rewrite (render_flat_inside doc uri (filtered h uri) [] Hinside) in Hrun.
      destruct Hrun as [[Hes Hn]|[Hes _]]; [|discriminate Hes].
      injection Hes as <-. done.
    + assert (extractCases doc <> []) as Hne by by rewrite Hc.
      rewrite fingerprint_of_cases in * by done.
      destruct (report_uri_case_new h clock uri l doc Hdoc Hne Hnew)
        as (l' & Hrun & Hout & Hrep & _ & Hshown & _).
      exists l'. rewrite Hrun. split; [done|]. split; [by rewrite Hrep, Hc|].
      split; [done|]. split; [|done]. intros _. split; [done|].
      exists (reveals l), (writer_of (st l)),
        (JS.div1000 (Z.max 0 (elapsedMs_of clock uri l))).
      split; [apply reveals_are_reveals|]. by rewrite Hout, Hc.
Qed.

(** The first pass over [two_cases] stores its key. *)
Lemma dedup_gate_witness :
  openTextDocument host_two_cases cases_py = Some two_cases
  /\ exists l',
       report_uri host_two_cases noon cases_py (enter activated) = Normal l'
       /\ lastReports (st l') = {[ uri_toString cases_py := JS.lit "1:1|2:0" ]}.
Proof.
  split; [reflexivity|].
  destruct (dedup_gate host_two_cases noon cases_py (enter activated) two_cases eq_refl)
    as [_ Hgate].
  destruct Hgate as [_ Hnew]; [left; discriminate|].
  destruct Hnew as (l' & _ & Hrep & _ & Hcase & _).
  { cbn [enter st activated lastReports]. rewrite lookup_empty. discriminate. }
  destruct Hcase as [Hrun _]; [discriminate|].
  exists l'. split; [exact Hrun|]. rewrite Hrep. reflexivity.
Defined.

(** ** Batches *)

Lemma for_uris_app h clock : forall before after l,
  for_uris h clock (before ++ after) l
  = match for_uris h clock before l with
    | Normal l' => for_uris h clock after l'
    | Throw l' => Throw l'
    end.
Proof.
  induction before as [|u before IH]; intros after l; cbn [for_uris app]; [done|].
  destruct (report_uri h clock u l); [apply IH | done].
Qed.

(** C4, as the specification words it, fails: with [a_py] first in the
    batch, nothing is written for [cases_py] and its key is not stored,
    although the batch of [cases_py] alone writes its two case lines. *)
Lemma batch_isolation_fails :
  ~ batch_isolation_as_specified host_a_fails noon a_py cases_py activated
  /\ reportXssDiagnostics host_a_fails noon [a_py; cases_py] activated = Throw (enter activated)
  /\ length (out (loop_of (reportXssDiagnostics host_a_fails noon [cases_py] activated))) = 7%nat.
Proof.
  split; [|split; reflexivity].
  intros H. specialize (H eq_refl). discriminate H.
Qed.

(** C4, as the code has it. The rejected promise of a document that cannot
    be fetched ends the call: the documents before it in the batch have
    been handled, the failing document and all documents after it are not,
    so that state and output are those of the batch cut before the failing
    document. *)
Theorem fetch_failure_ends_pass (h : Host) (clock : nat -> Z) (before after : list Uri)
    (a : Uri) (s : State) :
  outputChannel s = true ->
  openTextDocument h a = None ->
  reportXssDiagnostics h clock (before ++ a :: after) s
  = Throw (loop_of (reportXssDiagnostics h clock before s)).
Proof.
  intros Hch Ha. unfold reportXssDiagnostics. rewrite Hch, for_uris_app.
  destruct (for_uris h clock before (enter s)) as [l'|l']; [|done].
  cbn [for_uris loop_of]. unfold report_uri. by rewrite Ha.
Qed.

(** A batch with [a_py] in the middle stops after its first document. *)
Lemma fetch_failure_ends_pass_witness :
  outputChannel activated = true
  /\ openTextDocument host_a_fails a_py = None
  /\ reportXssDiagnostics host_a_fails noon ([cases_py] ++ a_py :: [cases_py]) activated
     = Throw (loop_of (reportXssDiagnostics host_a_fails noon [cases_py] activated)).
Proof.
  split; [reflexivity|]. split; [reflexivity|].
  apply (fetch_failure_ends_pass host_a_fails noon [cases_py] [cases_py] a_py activated);
    reflexivity.
Defined.

(** ** Idempotence *)

(** The key depends on the host through the filtered diagnostics only. *)
Lemma fingerprint_of_filtered h1 h2 uri doc :
  filtered h2 uri = filtered h1 uri -> fingerprint_of h2 uri doc = fingerprint_of h1 uri doc.
Proof. unfold fingerprint_of. by intros ->. Qed.

(** C5. For any document, state and host, a second pass over the document
    with unchanged text and unchanged filtered diagnostics (the clock may
    have moved) emits no event at all, on the channel or on the terminal,
    and leaves the module state as the first pass left it; the output of
    the two passes together is the output of the first. *)
Theorem second_pass_silent (h1 h2 : Host) (clock1 clock2 : nat -> Z) (uri : Uri) (s : State) :
  openTextDocument h2 uri = openTextDocument h1 uri ->
  filtered h2 uri = filtered h1 uri ->
  let first := loop_of (reportXssDiagnostics h1 clock1 [uri] s) in
  let second := loop_of (reportXssDiagnostics h2 clock2 [uri] (st first)) in
  out second = []
  /\ st second = st first
  /\ out first ++ out second = out first.
Proof.
  intros Htext Hdiags first second.
  assert (out second = [] /\ st second = st first) as [Hout Hst];
    [|by rewrite Hout, app_nil_r].
  subst second. unfold reportXssDiagnostics.
  destruct (outputChannel (st first)) eqn:Hch; [|done].
  cbn [for_uris].
  destruct (openTextDocument h1 uri) as [doc|] eqn:Hdoc; cycle 1.
  { unfold report_uri. rewrite Htext. done. }
  assert (lastReports (st first) !! uri_toString uri = Some (fingerprint_of h1 uri doc)
          \/ (extractCases doc = [] /\ filtered h1 uri = [])) as Hsettled.
  { destruct (extractCases doc) as [|c cs] eqn:Hc, (filtered h1 uri) as [|d ds] eqn:Hd;
      [by right| left..];
      subst first; unfold reportXssDiagnostics;
      (destruct (outputChannel s) eqn:Hs;
       [|exfalso; unfold reportXssDiagnostics in Hch; rewrite Hs in Hch; cbn in Hch; congruence]);
      cbn [for_uris];
      pose proof (report_uri_stores h1 clock1 uri (enter s) doc Hdoc) as Hstore;
      (destruct (report_uri h1 clock1 uri (enter s)); cbn [loop_of] in *; apply Hstore);
      rewrite ?Hc, ?Hd; auto. }
  rewrite <- (fingerprint_of_filtered h1 h2 uri doc Hdiags), <- Hdiags in Hsettled.
  destruct (report_uri_settled h2 clock2 uri (enter (st first)) doc Htext Hsettled) as [rd ->].
  done.
Qed.

(** The first pass writes seven events; the second, with a diagnostic of
    another tool added and the clock advanced, writes none. *)
Lemma second_pass_silent_witness :
  openTextDocument host_two_cases_lint cases_py = openTextDocument host_two_cases cases_py
  /\ filtered host_two_cases_lint cases_py = filtered host_two_cases cases_py
  /\ length (out (loop_of (reportXssDiagnostics host_two_cases noon [cases_py] activated)))
     = 7%nat
  /\ out (loop_of (reportXssDiagnostics host_two_cases_lint half_past_noon [cases_py]
                     (st (loop_of (reportXssDiagnostics host_two_cases noon [cases_py]
                                     activated)))))
     = [].
Proof.
  split; [reflexivity|]. split; [reflexivity|]. split; [reflexivity|].
  apply (second_pass_silent host_two_cases host_two_cases_lint noon half_past_noon
           cases_py activated); reflexivity.
Defined.

(** ** The flat key *)

(** An entry whose message is free of the bar is free of the bar. *)
Lemma flat_entry_free d :
  124%N ∉ message d -> flat_entry d <> [] /\ 124%N ∉ flat_entry d.
Proof.
  intros Hm. split.
  - unfold flat_entry. pose proof (ToString_nonempty (line (start (range d)))).
    by destruct (JS.ToString (line (start (range d)))).
  - unfold flat_entry. rewrite !not_elem_of_app.
    repeat split; try by_free; try done;
      change (JS.lit ":") with [58%N]; apply not_elem_of_cons;
      (split; [lia | apply not_elem_of_nil]).
Qed.



Lemma flat_fingerprint_perm ds ds' :
  ds ≡ₚ ds' -> flat_fingerprint ds = flat_fingerprint ds'.
Proof.
  intros Hp. unfold flat_fingerprint. f_equal. apply sort_of_perm. by apply Permutation_map.
Qed.

(** For messages free of the bar, the key gives back the entries, up to
    their order. *)
Lemma flat_fingerprint_entries dsA dsB :
  Forall (fun x => 124%N ∉ message x) dsA -> Forall (fun x => 124%N ∉ message x) dsB ->
  flat_fingerprint dsA = flat_fingerprint dsB ->
  map flat_entry dsA ≡ₚ map flat_entry dsB.
Proof.
  intros HA HB Hkey.
  assert (forall ds, Forall (fun x => 124%N ∉ message x) ds ->
            Forall (fun x => x <> [] /\ 124%N ∉ x) (JS.sort (map flat_entry ds))) as Hsorted.
  { intros ds Hds. rewrite sort_perm. apply Forall_map.
    eapply Forall_impl; [exact Hds|]. intros x Hx. by apply flat_entry_free. }
  unfold flat_fingerprint in Hkey. apply (join_inj 124) in Hkey; auto.
  by rewrite <- (sort_perm (map flat_entry dsA)), Hkey, sort_perm.
Qed.




(** ** What the keys tell about the output *)

Lemma not_numeric_58 : ~ numeric 58%N.
Proof. by_not_numeric. Qed.

Lemma not_numeric_48264 : ~ numeric 48264%N.
Proof. by_not_numeric. Qed.

Lemma ToString_flag_inj (a b : bool) :
  JS.ToString (if a then 1 else 0) = JS.ToString (if b then 1 else 0) -> a = b.
Proof. destruct a, b; try done; intros H; vm_compute in H; discriminate H. Qed.

Lemma case_entry_outcome dsA dsB a b :
  case_entry dsA a = case_entry dsB b -> outcome dsA a = outcome dsB b.
Proof.
  unfold case_entry, outcome. change (JS.lit ":") with [58%N]. cbn [app]. intros H.
  apply (app_class_inj numeric) in H as (Hid & _ & Hflag);
    auto using ToString_numeric, not_numeric_58.
  apply ToString_inj in Hid. apply ToString_flag_inj in Hflag. by rewrite Hid, Hflag.
Qed.

Lemma case_entry_free ds c : case_entry ds c <> [] /\ 124%N ∉ case_entry ds c.
Proof.
  unfold case_entry. split.
  - pose proof (ToString_nonempty (id c)). by destruct (JS.ToString (id c)).
  - rewrite !not_elem_of_app. repeat split; try by_free.
    change (JS.lit ":") with [58%N]. apply not_elem_of_cons.
    split; [lia | apply not_elem_of_nil].
Qed.

Lemma outcomes_of_entries dsA dsB : forall casesA casesB,
  map (case_entry dsA) casesA = map (case_entry dsB) casesB ->
  map (outcome dsA) casesA = map (outcome dsB) casesB.
Proof.
  induction casesA as [|a casesA IH]; intros [|b casesB] H; try done.
  cbn [map] in *. injection H as Hab Hrest.
  f_equal; [by apply case_entry_outcome | by apply IH].
Qed.

Lemma report_key_outcomes dsA dsB casesA casesB :
  report_key dsA casesA = report_key dsB casesB <->
  map (outcome dsA) casesA = map (outcome dsB) casesB.
Proof.
  split.
  - intros H. unfold report_key in H. apply (join_inj 124) in H.
    + by apply outcomes_of_entries.
    + apply Forall_map, Forall_forall. intros c _. apply case_entry_free.
    + apply Forall_map, Forall_forall. intros c _. apply case_entry_free.
  - intros H. unfold report_key. by rewrite (entries_of_outcomes dsA dsB casesA casesB H).
Qed.

Lemma case_line_outcome dsA dsB xA xB a b :
  case_line dsA xA a = case_line dsB xB b -> outcome dsA a = outcome dsB b.
Proof.
  unfold case_line, outcome. intros H. apply app_inv_head in H.
  unfold case_word in H. cbn [app] in H.
  apply (app_class_inj numeric) in H as (Hid & _ & Hrest);
    auto using ToString_numeric, not_numeric_48264.
  apply ToString_inj in Hid. rewrite Hid. f_equal.
  change ([32%N; 52992%N; 51060%N; 49828%N] ++ JS.lit " -> "
            ++ (if caseHasIssue dsA a then label_success else label_failure)
            ++ JS.lit " " ++ JS.toFixed2 xA ++ JS.lit "s"
          = [32%N; 52992%N; 51060%N; 49828%N] ++ JS.lit " -> "
            ++ (if caseHasIssue dsB b then label_success else label_failure)
            ++ JS.lit " " ++ JS.toFixed2 xB ++ JS.lit "s") in Hrest.
  do 2 apply app_inv_head in Hrest.
  by destruct (caseHasIssue dsA a), (caseHasIssue dsB b).
Qed.

Lemma two_events_inj (x y : list N) (e f : event) (r s : list event) :
  ChannelAppendLine x :: e :: r = ChannelAppendLine y :: f :: s -> x = y /\ r = s.
Proof. intros H. by injection H. Qed.

Lemma render_cases_outcomes wA wB dsA dsB xA xB : forall casesA casesB,
  render_cases wA dsA xA casesA = render_cases wB dsB xB casesB ->
  map (outcome dsA) casesA = map (outcome dsB) casesB.
Proof.
  unfold render_cases.
  induction casesA as [|a casesA IH]; intros [|b casesB] H; try done.
  cbn [flat_map app map] in *. apply two_events_inj in H as [Hline Hrest].
  f_equal; [by eapply case_line_outcome | by apply IH].
Qed.

Lemma outcomes_render_cases w x dsA dsB : forall casesA casesB,
  map (outcome dsA) casesA = map (outcome dsB) casesB ->
  render_cases w dsA x casesA = render_cases w dsB x casesB.
Proof.
  unfold render_cases.
  induction casesA as [|a casesA IH]; intros [|b casesB] H; try done.
  cbn [flat_map app map] in *. unfold outcome at 1 3 in H. injection H as Hid Hflag Hrest.
  unfold case_line. rewrite Hid, Hflag. do 2 f_equal. by apply IH.
Qed.

(** C8, as the specification words it, fails. In flat mode two
    diagnostics that differ in the end column only are written alike and
    have two keys, and two orders of the same diagnostics are written
    differently and have one key; in case mode the elapsed time changes the
    lines and not the key. *)
Lemma keys_do_not_follow_output :
  ~ keys_follow_output_as_specified
  /\ (render_flat plain_py cases_py [diag_to 0 0 5 (JS.lit "reflected XSS")] []
      = render_flat plain_py cases_py [diag_to 0 0 9 (JS.lit "reflected XSS")] []
      /\ flat_fingerprint [diag_to 0 0 5 (JS.lit "reflected XSS")]
         <> flat_fingerprint [diag_to 0 0 9 (JS.lit "reflected XSS")])
  /\ (render_flat plain_py cases_py
        [diag_at 0 0 (JS.lit "reflected XSS"); diag_at 1 0 (JS.lit "stored XSS")] []
      <> render_flat plain_py cases_py
           [diag_at 1 0 (JS.lit "stored XSS"); diag_at 0 0 (JS.lit "reflected XSS")] []
      /\ flat_fingerprint [diag_at 0 0 (JS.lit "reflected XSS"); diag_at 1 0 (JS.lit "stored XSS")]
         = flat_fingerprint [diag_at 1 0 (JS.lit "stored XSS"); diag_at 0 0 (JS.lit "reflected XSS")])
  /\ (render_cases 0 [] (JS.div1000 0) (extractCases two_cases)
      <> render_cases 0 [] (JS.div1000 1500) (extractCases two_cases)
      /\ report_key [] (extractCases two_cases) = report_key [] (extractCases two_cases)).
Proof.
  split; [|split; [|split]].
  - intros (_ & Hsame & _).
    specialize (Hsame plain_py cases_py [diag_to 0 0 5 (JS.lit "reflected XSS")]
                  [diag_to 0 0 9 (JS.lit "reflected XSS")] eq_refl).
    discriminate Hsame.
  - split; [reflexivity | discriminate].
  - split; [discriminate | reflexivity].
  - split; [discriminate | reflexivity].
Qed.

(** C8, as the code has it. In case mode the key stands for the sequence
    of (id, issue flag) pairs in textual order: two case lists have the same
    key exactly when they agree on it position by position; identical case
    lines give identical keys, and identical keys give case lines that are
    identical once written with the same elapsed time, which the key does
    not cover. In flat mode the key stands for the entries
    "<startLine>:<startCol>:<endLine>:<endCol>:<message>" without their
    order: permuted sets have the same key, and for messages free of "|"
    equal keys mean the same entries up to order. *)
Theorem fingerprint_determines :
  (forall dsA dsB casesA casesB,
     report_key dsA casesA = report_key dsB casesB <->
     map (outcome dsA) casesA = map (outcome dsB) casesB)
  /\ (forall wA wB dsA dsB xA xB casesA casesB,
        render_cases wA dsA xA casesA = render_cases wB dsB xB casesB ->
        report_key dsA casesA = report_key dsB casesB)
  /\ (forall w x dsA dsB casesA casesB,
        report_key dsA casesA = report_key dsB casesB ->
        render_cases w dsA x casesA = render_cases w dsB x casesB)
  /\ (forall dsA dsB, dsA ≡ₚ dsB -> flat_fingerprint dsA = flat_fingerprint dsB)
  /\ (forall dsA dsB,
        Forall (fun x => 124%N ∉ message x) dsA -> Forall (fun x => 124%N ∉ message x) dsB ->
        flat_fingerprint dsA = flat_fingerprint dsB ->
        map flat_entry dsA ≡ₚ map flat_entry dsB).
Proof.
  split; [exact report_key_outcomes|]. split; [|split; [|split]].
  - intros wA wB dsA dsB xA xB casesA casesB H.
    by apply report_key_outcomes, (render_cases_outcomes wA wB dsA dsB xA xB).
  - intros w x dsA dsB casesA casesB H.
    by apply outcomes_render_cases, report_key_outcomes.
  - exact flat_fingerprint_perm.
  - exact flat_fingerprint_entries.
Qed.

(** Permuted flat sets, and two diagnostic sets with the same case outcomes. *)
Lemma fingerprint_determines_witness :
  flat_fingerprint [diag_at 0 0 (JS.lit "reflected XSS"); diag_at 1 0 (JS.lit "stored XSS")]
  = flat_fingerprint [diag_at 1 0 (JS.lit "stored XSS"); diag_at 0 0 (JS.lit "reflected XSS")]
  /\ map flat_entry [diag_at 0 0 (JS.lit "reflected XSS"); diag_at 1 0 (JS.lit "stored XSS")]
     ≡ₚ map flat_entry [diag_at 1 0 (JS.lit "stored XSS"); diag_at 0 0 (JS.lit "reflected XSS")]
  /\ render_cases 0 [diag_at 1 6 (JS.lit "reflected XSS")] (JS.div1000 1500)
       (extractCases two_cases)
     = render_cases 0 [diag_at 0 2 (JS.lit "stored XSS")] (JS.div1000 1500)
         (extractCases two_cases).
Proof.
  destruct fingerprint_determines as (_ & _ & Hlines & Hperm & Hentries).
  split; [apply Hperm, perm_swap|]. split.
  - apply Hentries; [| |reflexivity];
      repeat constructor; apply (bool_decide_unpack _); vm_compute; exact I.
  - apply Hlines. reflexivity.
Defined.

(** ** The elapsed time *)

Lemma quot_half_even_near a b :
  0 < b -> - b <= 2 * (b * JS.quot_half_even a b - a) <= b.
Proof.
  intros Hb. unfold JS.quot_half_even.
  pose proof (Z.div_mod a b ltac:(lia)) as Hdm.
  pose proof (Z.mod_pos_bound a b Hb) as Hr.
  destruct (Z.ltb_spec (2 * (a mod b)) b); [nia|].
  destruct (Z.ltb_spec b (2 * (a mod b))); [nia|].
  destruct (Z.even (a / b)); nia.
Qed.

(** Below 2^53 milliseconds the exponent of the quotient is at most -9. *)
Lemma div1000_exponent ms :
  0 < ms < 2 ^ 53 ->
  exists e, e <= -9 /\ JS.div1000 ms = (JS.quot_half_even (ms * 2 ^ (- e)) 1000, e).
Proof.
  intros Hms. unfold JS.div1000, JS.binary64_div.
  destruct (Z.leb_spec ms 0); [lia|].
  change (Z.log2 1000) with 9.
  assert (Z.log2 ms < 53) as Hlog by (apply Z.log2_lt_pow2; lia).
  set (e1 := Z.log2 ms - 9 - 52).
  assert (forall e, e <= -9 -> JS.scaled ms 1000 e = (ms * 2 ^ (- e), 1000)) as Hsc.
  { intros e He. unfold JS.scaled. destruct (Z.leb_spec 0 e); [lia | done]. }
  destruct (2 ^ 52 * snd (JS.scaled ms 1000 e1) <=? fst (JS.scaled ms 1000 e1)).
  - exists e1. split; [lia|]. rewrite Hsc by lia. done.
  - exists (e1 - 1). split; [lia|]. rewrite Hsc by lia. done.
Qed.

Lemma hundredth_bound ms m E n :
  512 <= E -> -1000 <= 2 * (1000 * m - ms * E) <= 1000 ->
  2 * E * n <= 200 * m + E < 2 * E * n + 2 * E ->
  -5 <= 10 * n - ms <= 5.
Proof.
  intros HE Hm Hn. split.
  - destruct (Z.le_gt_cases (-5) (10 * n - ms)) as [|Hlt]; [done|]. exfalso.
    assert (E * 1 <= E * (ms - 10 * n - 5)) by (apply Z.mul_le_mono_nonneg_l; lia).
    lia.
  - destruct (Z.le_gt_cases (10 * n - ms) 5) as [|Hgt]; [done|]. exfalso.
    assert (E * 1 <= E * (10 * n - ms - 5)) by (apply Z.mul_le_mono_nonneg_l; lia).
    lia.
Qed.

(** The two-decimal value is the elapsed time in seconds, rounded to the
    hundredth: it is within half a hundredth of [ms / 1000]. *)
Lemma nearest_hundredth_div1000 ms :
  0 <= ms < 2 ^ 53 ->
  -5 <= 10 * JS.nearest_hundredth (JS.div1000 ms) - ms <= 5.
Proof.
  intros Hms. destruct (decide (ms = 0)) as [->|Hnz]; [by vm_compute|].
  destruct (div1000_exponent ms) as (e & He & ->); [lia|].
  unfold JS.nearest_hundredth. destruct (Z.leb_spec 0 e); [lia|].
  replace (2 ^ (1 - e)) with (2 * 2 ^ (- e))
    by (replace (1 - e) with (Z.succ (- e)) by lia; rewrite Z.pow_succ_r; lia).
  assert (512 <= 2 ^ (- e)) as HE.
  { change 512 with (2 ^ 9). apply Z.pow_le_mono_r; lia. }
  generalize dependent (2 ^ (- e)). intros E HE.
  pose proof (quot_half_even_near (ms * E) 1000 ltac:(lia)) as Hm.
  generalize dependent (JS.quot_half_even (ms * E) 1000). intros m Hm.
  pose proof (Z.div_mod (200 * m + E) (2 * E) ltac:(lia)) as Hdm.
  pose proof (Z.mod_pos_bound (200 * m + E) (2 * E) ltac:(lia)) as Hr.
  generalize dependent ((200 * m + E) mod (2 * E)). intros r Hdm Hr.
  generalize dependent ((200 * m + E) / (2 * E)). intros n Hdm.
  apply (hundredth_bound ms m E); [done | lia | lia].
Qed.

Lemma forallb_replicate_zero n : forallb JS.is_digit (replicate n 48%N) = true.
Proof. induction n; simpl; auto. Qed.

(** The text of [toFixed(2)]: an integer part, a point and two digits,
    whose digits read as a number give the rounded hundredths. *)
Lemma toFixed2_shape x :
  exists a b,
    JS.toFixed2 x = a ++ JS.lit "." ++ b
    /\ a <> [] /\ length b = 2%nat
    /\ forallb JS.is_digit a = true /\ forallb JS.is_digit b = true
    /\ JS.decimal (a ++ b) = Z.of_N (Z.to_N (JS.nearest_hundredth x)).
Proof.
  unfold JS.toFixed2.
  set (m0 := JS.digits (Z.to_N (JS.nearest_hundredth x))).
  set (m := if (length m0 <=? 2)%nat then replicate (3 - length m0) 48%N ++ m0 else m0).
  assert (3 <= length m)%nat as Hlen.
  { subst m. destruct (Nat.leb_spec (length m0) 2); [|lia].
    rewrite length_app, length_replicate. lia. }
  assert (forallb JS.is_digit m = true) as Hdig.
  { subst m. destruct (length m0 <=? 2)%nat; [|apply digits_digits].
    rewrite forallb_app, forallb_replicate_zero. apply digits_digits. }
  assert (JS.decimal m = Z.of_N (Z.to_N (JS.nearest_hundredth x))) as Hval.
  { subst m. destruct (length m0 <=? 2)%nat; rewrite ?decimal_zeros;
      apply decimal_digits. }
  exists (take (length m - 2) m), (drop (length m - 2) m).
  rewrite take_drop. rewrite <- (take_drop (length m - 2) m), forallb_app in Hdig.
  apply andb_true_iff in Hdig as [Ha Hb].
  repeat split; auto.
  - intros Hnil. apply (f_equal length) in Hnil. rewrite length_take in Hnil. simpl in Hnil. lia.
  - rewrite length_drop. lia.
Qed.

Lemma onDidChangeTextDocument_records uri now s :
  lastChangeAt (onDidChangeTextDocument (JS.lit "python") uri now s) !! uri_toString uri
  = Some now.
Proof.
  unfold onDidChangeTextDocument. rewrite decide_True by done.
  cbn [set_lastChangeAt lastChangeAt]. apply lookup_insert_eq.
Qed.

(** C9, as the specification words it, fails: no change is recorded for
    [cases_py], the clock is set back by two seconds between the two
    readings of the pass, and the case lines carry "2.00". *)
Lemma zero_default_fails :
  ~ zero_default_as_specified host_two_cases stepping_back cases_py activated
  /\ out (loop_of (reportXssDiagnostics host_two_cases stepping_back [cases_py] activated))
     = [ ChannelShow; TerminalCreate 0; TerminalShow 0;
         ChannelAppendLine (labelled_line label_success
                              {| id := 1; startLine := 0; endLine := 1 |} (JS.lit "2.00"));
         WriterFire 0 (labelled_line label_success
                         {| id := 1; startLine := 0; endLine := 1 |} (JS.lit "2.00")
                         ++ [13; 10]%N);
         ChannelAppendLine (labelled_line label_failure
                              {| id := 2; startLine := 2; endLine := 3 |} (JS.lit "2.00"));
         WriterFire 0 (labelled_line label_failure
                         {| id := 2; startLine := 2; endLine := 3 |} (JS.lit "2.00")
                         ++ [13; 10]%N) ].
Proof.
  split; [|vm_compute; reflexivity].
  intros H.
  destruct (H two_cases {| id := 1; startLine := 0; endLine := 1 |}) as (w & Hch & _).
  - reflexivity.
  - vm_compute. left.
  - reflexivity.
  - cbn [activated lastReports]. rewrite lookup_empty. discriminate.
  - apply list_elem_of_In in Hch. vm_compute in Hch.
    repeat (destruct Hch as [Hch|Hch]; [discriminate Hch|]). exact Hch.
Qed.

(** C9, as the code has it. In a case pass that renders, one elapsed text
    is computed at entry and written in every case line of the document.
    It is [toFixed(2)] of [max(0, now - last) / 1000], where [last] is the
    recorded change, and a second reading of the clock when no change was
    recorded for the document. Without a recorded change the text is
    therefore "0.00" when the second reading is not earlier than the
    first, and "2.00" when the clock was set back by two seconds in
    between. It is "1.50" when the change was recorded 1500 ms before the
    pass, and, for elapsed times below 2^53 ms, an integer part and two
    decimals within half a hundredth of the elapsed seconds. *)
Theorem elapsed_reported (h : Host) (clock : nat -> Z) (uri : Uri) (l : Loop)
    (doc : TextDocument) :
  openTextDocument h uri = Some doc ->
  extractCases doc <> [] ->
  lastReports (st l) !! uri_toString uri
    <> Some (report_key (filtered h uri) (extractCases doc)) ->
  let now := clock (reads l) in
  let ms := Z.max 0 (now - default (clock (S (reads l)))
                             (lastChangeAt (st l) !! uri_toString uri)) in
  let elapsed := JS.toFixed2 (JS.div1000 ms) in
  (exists l' w pre,
     report_uri h clock uri l = Normal l'
     /\ Forall is_reveal pre
     /\ out l' = out l ++ pre
                  ++ flat_map (fun c =>
                       [ ChannelAppendLine
                           (labelled_line (label_of (filtered h uri) c) c elapsed);
                         WriterFire w
                           (labelled_line (label_of (filtered h uri) c) c elapsed
                              ++ [13; 10]%N) ])
                       (extractCases doc))
  /\ (lastChangeAt (st l) !! uri_toString uri = None ->
      now <= clock (S (reads l)) -> elapsed = JS.lit "0.00")
  /\ (lastChangeAt (st l) !! uri_toString uri = None ->
      now = clock (S (reads l)) + 2000 -> elapsed = JS.lit "2.00")
  /\ (forall t, lastChangeAt (st l) !! uri_toString uri = Some t ->
                now = t + 1500 -> elapsed = JS.lit "1.50")
  /\ (ms < 2 ^ 53 ->
      exists a b,
        elapsed = a ++ JS.lit "." ++ b
        /\ a <> [] /\ length b = 2%nat
        /\ forallb JS.is_digit a = true /\ forallb JS.is_digit b = true
        /\ -5 <= 10 * JS.decimal (a ++ b) - ms <= 5).
Proof.
  intros Hdoc Hne Hnew now ms elapsed. split; [|split; [|split; [|split]]].
  - destruct (report_uri_case_new h clock uri l doc Hdoc Hne Hnew)
      as (l' & Hrun & Hout & _).
    rewrite render_cases_labelled in Hout.
    exists l', (writer_of (st l)), (reveals l).
    split; [exact Hrun|]. split; [apply reveals_are_reveals|]. exact Hout.
  - intros Hnone Hclock. subst elapsed ms. rewrite Hnone.
    cbn [default from_option Datatypes.id].
    by rewrite Z.max_l by (subst now; lia).
  - intros Hnone Hclock. subst elapsed ms. rewrite Hnone.
    cbn [default from_option Datatypes.id].
    replace (now - clock (S (reads l))) with 2000 by lia. reflexivity.
  - intros t Ht Hnow. subst elapsed ms. rewrite Ht.
    cbn [default from_option Datatypes.id].
    replace (now - t) with 1500 by lia. reflexivity.
  - intros Hsafe.
    destruct (toFixed2_shape (JS.div1000 ms)) as (a & b & Heq & Ha & Hb & Hda & Hdb & Hval).
    exists a, b. repeat split; auto; rewrite Hval;
      pose proof (nearest_hundredth_div1000 ms ltac:(subst ms; lia)); lia.
Qed.

(** A change recorded at noon and a pass 1500 ms later: every case line
    carries "1.50". *)
Lemma elapsed_reported_witness :
  openTextDocument host_two_cases cases_py = Some two_cases
  /\ lastChangeAt (onDidChangeTextDocument (JS.lit "python") cases_py (noon 0) activated)
       !! uri_toString cases_py = Some (noon 0)
  /\ exists l' w pre,
       report_uri host_two_cases half_past_noon cases_py
         (enter (onDidChangeTextDocument (JS.lit "python") cases_py (noon 0) activated))
       = Normal l'
       /\ out l' = pre
            ++ [ ChannelAppendLine
                   (labelled_line label_success {| id := 1; startLine := 0; endLine := 1 |}
                      (JS.lit "1.50"));
                 WriterFire w
                   (labelled_line label_success {| id := 1; startLine := 0; endLine := 1 |}
                      (JS.lit "1.50") ++ [13; 10]%N);
                 ChannelAppendLine
                   (labelled_line label_failure {| id := 2; startLine := 2; endLine := 3 |}
                      (JS.lit "1.50"));
                 WriterFire w
                   (labelled_line label_failure {| id := 2; startLine := 2; endLine := 3 |}
                      (JS.lit "1.50") ++ [13; 10]%N) ].
Proof.
  split; [reflexivity|]. split; [apply onDidChangeTextDocument_records|].
  destruct (elapsed_reported host_two_cases half_past_noon cases_py
              (enter (onDidChangeTextDocument (JS.lit "python") cases_py (noon 0) activated))
              two_cases)
    as ((l' & w & pre & Hrun & _ & Hout) & _ & _ & Hlate & _).
  - reflexivity.
  - discriminate.
  - cbn [enter st]. unfold onDidChangeTextDocument. rewrite decide_True by done.
    cbn [set_lastChangeAt lastReports activated]. rewrite lookup_empty. discriminate.
  - exists l', w, pre. split; [exact Hrun|].
    rewrite Hout.
    rewrite (Hlate (noon 0)) by (first [apply onDidChangeTextDocument_records | reflexivity]).
    reflexivity.
Defined.

(** * Further properties of the code *)

(** ** One document of a pass, in full *)

(** The state a rendering case pass leaves: the key stored, the terminal
    acquired. *)
Lemma report_uri_case_new_state h clock uri l doc :
  openTextDocument h uri = Some doc ->
  extractCases doc <> [] ->
  lastReports (st l) !! uri_toString uri
    <> Some (report_key (filtered h uri) (extractCases doc)) ->
  exists l',
    report_uri h clock uri l = Normal l'
    /\ st l' = (getCaseTerminal
                  (set_lastReports (st l)
                     (<[ uri_toString uri := report_key (filtered h uri) (extractCases doc) ]>
                        (lastReports (st l))))).1.2
    /\ out l' = out l ++ reveals l
                  ++ render_cases (writer_of (st l)) (filtered h uri)
                       (JS.div1000 (Z.max 0 (elapsedMs_of clock uri l))) (extractCases doc)
    /\ shown l' = true /\ terminalShown l' = true.
Proof.
  intros Hdoc Hne Hnew. unfold report_uri. rewrite Hdoc.
  destruct (extractCases doc) as [|c cs] eqn:Hc; [done|].
  cbn [length Nat.ltb Nat.leb]. unfold filtered in *.
  rewrite decide_False by exact Hnew.
  unfold reveals, writer_of, elapsedMs_of.
  unfold reveal_channel, reveal_terminal, emit, with_state. cbn [st shown terminalShown reads out].
  destruct (lastChangeAt (st l) !! uri_toString uri) as [t|]; cbn [fst snd default];
    destruct (shown l); cbn [st shown terminalShown reads out];
    unfold getCaseTerminal, set_lastReports;
    cbn [caseTerminal caseTerminalWriter created lastReports lastChangeAt outputChannel];
    destruct (caseTerminal (st l)) as [tm|], (caseTerminalWriter (st l)) as [w|];
    cbn [st shown terminalShown reads out fst snd];
    destruct (terminalShown l); cbn [st shown terminalShown reads out fst snd];
    eexists; (split; [reflexivity|]); cbn [st shown terminalShown reads out lastReports lastChangeAt];
    rewrite <- ?app_assoc; cbn [app]; rewrite ?app_nil_r; repeat split; reflexivity.
Qed.

(** The four ways one document of a batch can go. *)
Lemma report_uri_step h clock uri l :
  (openTextDocument h uri = None /\ report_uri h clock uri l = Throw l)
  \/ (exists rd, report_uri h clock uri l = Normal (with_state l (st l) rd))
  \/ (exists doc l',
        openTextDocument h uri = Some doc /\ extractCases doc <> []
        /\ report_uri h clock uri l = Normal l'
        /\ st l' = (getCaseTerminal
                      (set_lastReports (st l)
                         (<[ uri_toString uri := report_key (filtered h uri) (extractCases doc) ]>
                            (lastReports (st l))))).1.2
        /\ out l' = out l ++ reveals l
                      ++ render_cases (writer_of (st l)) (filtered h uri)
                           (JS.div1000 (Z.max 0 (elapsedMs_of clock uri l))) (extractCases doc)
        /\ shown l' = true /\ terminalShown l' = true)
  \/ (exists doc l' es,
        openTextDocument h uri = Some doc /\ extractCases doc = [] /\ filtered h uri <> []
        /\ loop_of (report_uri h clock uri l) = l'
        /\ (render_flat doc uri (filtered h uri) [] = inl es
            /\ report_uri h clock uri l = Normal l'
            \/ render_flat doc uri (filtered h uri) [] = inr es
               /\ report_uri h clock uri l = Throw l')
        /\ st l' = set_lastReports (st l)
                     (<[ uri_toString uri := flat_fingerprint (filtered h uri) ]>
                        (lastReports (st l)))
        /\ out l' = out l ++ (if shown l then [] else [ChannelShow]) ++ es
        /\ shown l' = true /\ terminalShown l' = terminalShown l).
Proof.
  destruct (openTextDocument h uri) as [doc|] eqn:Hdoc; cycle 1.
  { left. split; [done|]. unfold report_uri. by rewrite Hdoc. }
  right.
  destruct (decide (lastReports (st l) !! uri_toString uri = Some (fingerprint_of h uri doc)
                    \/ (extractCases doc = [] /\ filtered h uri = []))) as [Hs|Hn].
  { left. by apply (report_uri_settled h clock uri l doc). }
  right.
  destruct (decide (extractCases doc = [])) as [Hc|Hne].
  - right. assert (filtered h uri <> []) as Hds by (intros Hd; apply Hn; by right).
    assert (lastReports (st l) !! uri_toString uri <> Some (flat_fingerprint (filtered h uri)))
      as Hnew.
    { intros Hk. apply Hn. left. by rewrite fingerprint_of_flat. }
    destruct (report_uri_flat_new h clock uri l doc Hdoc Hc Hds Hnew)
      as (l' & es & Hl' & Hrun & Hout & Hst & Hshown & Hterm).
    exists doc, l', es. done.
  - left.
    assert (lastReports (st l) !! uri_toString uri
            <> Some (report_key (filtered h uri) (extractCases doc))) as Hnew.
    { intros Hk. apply Hn. left. by rewrite fingerprint_of_cases. }
    destruct (report_uri_case_new_state h clock uri l doc Hdoc Hne Hnew)
      as (l' & Hrun & Hst & Hout & Hshown & Hterm).
    exists doc, l'. done.
Qed.

(** ** The events of a step, by kind *)

Lemma render_cases_text w ds x cases : Forall is_text (render_cases w ds x cases).
Proof.
  unfold render_cases. induction cases as [|c cs IH]; cbn [flat_map app]; [constructor|].
  repeat constructor. exact IH.
Qed.

Lemma render_flat_appends doc uri : forall ds acc es,
  (render_flat doc uri ds acc = inl es \/ render_flat doc uri ds acc = inr es) ->
  Forall is_append acc -> Forall is_append es.
Proof.
  induction ds as [|d ds IH]; intros acc es Hr Hacc; cbn [render_flat] in Hr.
  - destruct Hr as [Hr|Hr]; by simplify_eq.
  - destruct (lineAt doc (line (start (range d)))) as [text|].
    + eapply IH; [exact Hr|]. apply Forall_app. split; [done|]. by repeat constructor.
    + destruct Hr as [Hr|Hr]; by simplify_eq.
Qed.

Lemma getCaseTerminal_events s :
  (getCaseTerminal s).2 = [] \/ (getCaseTerminal s).2 = [TerminalCreate (created s)].
Proof.
  unfold getCaseTerminal. destruct (caseTerminal s), (caseTerminalWriter s); auto.
Qed.

Lemma Forall_not_elem {A} (P : A -> Prop) (e : A) (l : list A) :
  Forall P l -> ~ P e -> e ∉ l.
Proof. intros Hall Hne Hin. rewrite Forall_forall in Hall. by apply Hne, Hall. Qed.

Lemma Forall_weaken {A} (P Q : A -> Prop) (l : list A) :
  (forall x, P x -> Q x) -> Forall P l -> Forall Q l.
Proof. intros HPQ Hall. eapply Forall_impl; eauto. Qed.

(** An invariant of the loop variables that every document keeps holds
    after the whole batch. *)
Lemma for_uris_invariant (P : Loop -> Prop) h clock :
  (forall uri l, P l -> P (loop_of (report_uri h clock uri l))) ->
  forall uris l, P l -> P (loop_of (for_uris h clock uris l)).
Proof.
  intros Hstep. induction uris as [|u us IH]; intros l Hl; cbn [for_uris loop_of]; [done|].
  specialize (Hstep u l Hl).
  destruct (report_uri h clock u l) as [l'|l']; cbn [loop_of] in *; [by apply IH | done].
Qed.

(** ** Reveals *)

Lemma revealed_once_step h clock uri l :
  revealed_once l -> revealed_once (loop_of (report_uri h clock uri l)).
Proof.
  intros Hl.
  destruct (report_uri_step h clock uri l)
    as [[_ ->]|[[rd ->]|[(doc & l' & _ & _ & -> & _ & Hout & Hshown & _)
                        |(doc & l' & es & _ & _ & _ & -> & Hrun & _ & Hout & Hshown & _)]]];
    cbn [loop_of]; try done.
  - assert (ChannelShow ∉ (getCaseTerminal (st l)).2
              ++ (if terminalShown l then [] else [TerminalShow (getCaseTerminal (st l)).1.1.1])
              ++ render_cases (writer_of (st l)) (filtered h uri)
                   (JS.div1000 (Z.max 0 (elapsedMs_of clock uri l))) (extractCases doc)) as Hno.
    { rewrite !not_elem_of_app. split; [|split].
      - destruct (getCaseTerminal_events (st l)) as [-> | ->];
          [apply not_elem_of_nil | by apply not_elem_of_cons; split; [|apply not_elem_of_nil]].
      - destruct (terminalShown l);
          [apply not_elem_of_nil | by apply not_elem_of_cons; split; [|apply not_elem_of_nil]].
      - eapply Forall_not_elem; [apply render_cases_text | by intros ?]. }
    right. split; [done|]. unfold reveals in Hout.
    destruct Hl as [[Hs Ho]|[Hs (rest & Ho & Hrest)]]; rewrite Hs, Ho in Hout;
      cbn [app] in Hout; rewrite <- ?app_assoc in Hout.
    + eexists. split; [exact Hout|]. exact Hno.
    + eexists. split; [exact Hout|]. rewrite not_elem_of_app. done.
  - assert (ChannelShow ∉ es) as Hno.
    { apply (Forall_not_elem is_append); [|by intros ?].
      eapply (render_flat_appends doc uri (filtered h uri) []); [|constructor].
      destruct Hrun as [[H _]|[H _]]; eauto. }
    right. split; [done|].
    destruct Hl as [[Hs Ho]|[Hs (rest & Ho & Hrest)]]; rewrite Hs, Ho in Hout;
      cbn [app] in Hout.
    + eexists. split; [exact Hout|]. done.
    + eexists. split; [exact Hout|]. rewrite not_elem_of_app. done.
Qed.

(** Implications between kinds of events, by cases on the event. *)
Ltac by_kind := let e := fresh "e" in intros e; destruct e; simpl; tauto.

Lemma terminal_revealed_once_step h clock uri l :
  terminal_revealed_once l -> terminal_revealed_once (loop_of (report_uri h clock uri l)).
Proof.
  intros Hl.
  destruct (report_uri_step h clock uri l)
    as [[_ ->]|[[rd ->]|[(doc & l' & _ & _ & -> & _ & Hout & _ & Hterm)
                        |(doc & l' & es & _ & _ & _ & -> & Hrun & _ & Hout & _ & Hterm)]]];
    cbn [loop_of]; try done.
  - pose proof (render_cases_text (writer_of (st l)) (filtered h uri)
                  (JS.div1000 (Z.max 0 (elapsedMs_of clock uri l))) (extractCases doc)) as Htext.
    assert (Forall (fun e => ~ is_terminal_show e)
              (render_cases (writer_of (st l)) (filtered h uri)
                 (JS.div1000 (Z.max 0 (elapsedMs_of clock uri l))) (extractCases doc))) as Hr.
    { eapply Forall_weaken; [|exact Htext]. by_kind. }
    assert (Forall (fun e => ~ is_terminal_show e /\ ~ is_fire e)
              ((if shown l then [] else [ChannelShow]) ++ (getCaseTerminal (st l)).2)) as Hpre.
    { apply Forall_app. split.
      - destruct (shown l); repeat constructor; simpl; tauto.
      - destruct (getCaseTerminal_events (st l)) as [-> | ->]; repeat constructor; simpl; tauto. }
    right. split; [done|]. unfold reveals in Hout.
    destruct Hl as [[Hs Ho]|[Hs (pre & t & post & Ho & Hpre' & Hpost)]]; rewrite Hs in Hout.
    + exists (out l ++ (if shown l then [] else [ChannelShow]) ++ (getCaseTerminal (st l)).2),
        (getCaseTerminal (st l)).1.1.1,
        (render_cases (writer_of (st l)) (filtered h uri)
           (JS.div1000 (Z.max 0 (elapsedMs_of clock uri l))) (extractCases doc)).
      split; [by rewrite Hout, <- !app_assoc|]. split; [|done].
      apply Forall_app. split; [|done].
      eapply Forall_weaken; [|exact Ho]. by_kind.
    + exists pre, t,
        (post ++ ((if shown l then [] else [ChannelShow]) ++ (getCaseTerminal (st l)).2)
              ++ render_cases (writer_of (st l)) (filtered h uri)
                   (JS.div1000 (Z.max 0 (elapsedMs_of clock uri l))) (extractCases doc)).
      split; [rewrite Hout, Ho, <- !app_assoc; cbn [app]; by rewrite ?app_nil_r, <- ?app_assoc|].
      split; [done|]. apply Forall_app. split; [done|].
      apply Forall_app. split; [|done].
      eapply Forall_weaken; [|exact Hpre]. by_kind.
  - assert (Forall is_append es) as Hes.
    { eapply (render_flat_appends doc uri (filtered h uri) []); [|constructor].
      destruct Hrun as [[H _]|[H _]]; eauto. }
    assert (Forall is_channel_event ((if shown l then [] else [ChannelShow]) ++ es)) as Hnew.
    { apply Forall_app. split; [destruct (shown l); repeat constructor|].
      eapply Forall_weaken; [|exact Hes]. by_kind. }
    destruct Hl as [[Hs Ho]|[Hs (pre & t & post & Ho & Hpre' & Hpost)]].
    + left. split; [congruence|]. rewrite Hout. apply Forall_app. done.
    + right. split; [congruence|].
      exists pre, t, (post ++ (if shown l then [] else [ChannelShow]) ++ es).
      split; [by rewrite Hout, Ho, <- !app_assoc|]. split; [done|].
      apply Forall_app. split; [done|].
      eapply Forall_weaken; [|exact Hnew]. by_kind.
Qed.

(** X1. In every batch the output channel is revealed at most once, as
    the very first event of the batch, and the terminal is revealed at most
    once, before anything is written to it. *)
Theorem reveals_once_per_batch (h : Host) (clock : nat -> Z) (uris : list Uri) (s : State) :
  let o := out (loop_of (reportXssDiagnostics h clock uris s)) in
  (o = [] \/ exists rest, o = ChannelShow :: rest /\ ChannelShow ∉ rest)
  /\ (Forall is_channel_event o
      \/ exists pre t post,
           o = pre ++ TerminalShow t :: post
           /\ Forall (fun e => ~ is_terminal_show e /\ ~ is_fire e) pre
           /\ Forall (fun e => ~ is_terminal_show e) post).
Proof.
  intros o. subst o. unfold reportXssDiagnostics.
  destruct (outputChannel s); cbn [loop_of enter out]; [|split; left; [done|constructor]].
  split.
  - pose proof (for_uris_invariant revealed_once h clock (revealed_once_step h clock)
                  uris (enter s)) as H.
    destruct H as [[_ Ho]|[_ Hrest]]; [by left | by left | by right].
  - pose proof (for_uris_invariant terminal_revealed_once h clock
                  (terminal_revealed_once_step h clock) uris (enter s)) as H.
    destruct H as [[_ Ho]|[_ Hrest]]; [left; split; [done|constructor] | by left | by right].
Qed.

(** ** The two sinks *)

Lemma lines_paired_app a b : lines_paired a -> lines_paired b -> lines_paired (a ++ b).
Proof.
  intros Ha Hb. induction Ha; cbn [app]; [done | by constructor | by constructor].
Qed.

Lemma lines_paired_quiet o : Forall (fun e => ~ is_fire e) o -> lines_paired o.
Proof. induction 1; by constructor. Qed.

Lemma render_cases_paired w ds x cases : lines_paired (render_cases w ds x cases).
Proof.
  unfold render_cases. induction cases as [|c cs IH]; cbn [flat_map app]; by constructor.
Qed.

Lemma lines_paired_inv o :
  lines_paired o ->
  forall pre w text post,
    o = pre ++ WriterFire w text :: post ->
    exists pre' line, pre = pre' ++ [ChannelAppendLine line] /\ text = line ++ [13; 10]%N.
Proof.
  induction 1 as [|e o He Ho IH|line w' o Ho IH]; intros pre w text post Heq.
  - by destruct pre.
  - destruct pre as [|e' pre]; cbn [app] in Heq.
    + injection Heq as -> _. by destruct He.
    + injection Heq as -> Heq. destruct (IH _ _ _ _ Heq) as (pre' & line & -> & ->).
      by exists (e' :: pre'), line.
  - destruct pre as [|e1 [|e2 pre]]; cbn [app] in Heq.
    + discriminate Heq.
    + injection Heq as H1 H2 H3 H4. subst. by exists [], line.
    + injection Heq as <- <- Hrest.
      destruct (IH _ _ _ _ Hrest) as (pre' & line' & -> & ->).
      by exists (ChannelAppendLine line :: WriterFire w' (line ++ [13; 10]%N) :: pre'), line'.
Qed.

Lemma lines_paired_step h clock uri l :
  lines_paired (out l) -> lines_paired (out (loop_of (report_uri h clock uri l))).
Proof.
  intros Hl.
  destruct (report_uri_step h clock uri l)
    as [[_ ->]|[[rd ->]|[(doc & l' & _ & _ & -> & _ & Hout & _)
                        |(doc & l' & es & _ & _ & _ & -> & Hrun & _ & Hout & _)]]];
    cbn [loop_of]; try done; rewrite Hout.
  - apply lines_paired_app; [done|]. apply lines_paired_app; [|apply render_cases_paired].
    apply lines_paired_quiet. eapply Forall_weaken; [|apply (reveals_are_reveals l)]. by_kind.
  - apply lines_paired_app; [done|]. apply lines_paired_quiet, Forall_app.
    split; [destruct (shown l); repeat constructor; simpl; tauto|].
    eapply Forall_weaken; [|eapply (render_flat_appends doc uri (filtered h uri) []);
                             [|constructor]].
    + by_kind.
    + destruct Hrun as [[H _]|[H _]]; eauto.
Qed.

(** X2. Whatever the batch, every chunk fired on the terminal writer
    comes immediately after the same line on the output channel, and is
    that line with CR LF appended: the terminal never shows a line that the
    channel does not hold. *)
Theorem terminal_mirrors_channel (h : Host) (clock : nat -> Z) (uris : list Uri) (s : State)
    (pre post : list event) (w : nat) (text : list N) :
  out (loop_of (reportXssDiagnostics h clock uris s)) = pre ++ WriterFire w text :: post ->
  exists pre' line, pre = pre' ++ [ChannelAppendLine line] /\ text = line ++ [13; 10]%N.
Proof.
  apply lines_paired_inv. unfold reportXssDiagnostics.
  destruct (outputChannel s); [|constructor].
  apply (for_uris_invariant (fun l => lines_paired (out l)) h clock); [|constructor].
  apply lines_paired_step.
Qed.

(** The first chunk of the pass over [two_cases] is its first case line. *)
Lemma terminal_mirrors_channel_witness :
  exists pre post w text,
    out (loop_of (reportXssDiagnostics host_two_cases noon [cases_py] activated))
    = pre ++ WriterFire w text :: post
    /\ exists pre' line, pre = pre' ++ [ChannelAppendLine line] /\ text = line ++ [13; 10]%N.
Proof.
  eexists [ChannelShow; TerminalCreate 0; TerminalShow 0; ChannelAppendLine _], _, _, _.
  assert (forall (A : Prop) (B : Prop), A -> (A -> B) -> A /\ B) as Hcut by tauto.
  apply Hcut; [reflexivity|].
  apply (terminal_mirrors_channel host_two_cases noon [cases_py] activated).
Defined.

(** ** The terminal and its writer *)

Lemma getCaseTerminal_set_lastReports s m :
  getCaseTerminal (set_lastReports s m)
  = ((getCaseTerminal s).1.1.1, (getCaseTerminal s).1.1.2,
     set_lastReports (getCaseTerminal s).1.2 m, (getCaseTerminal s).2).
Proof.
  unfold getCaseTerminal, set_lastReports. cbn [caseTerminal caseTerminalWriter created].
  destruct (caseTerminal s) eqn:Ht, (caseTerminalWriter s) eqn:Hw;
    cbn [fst snd caseTerminal caseTerminalWriter created outputChannel lastChangeAt];
    rewrite ?Ht, ?Hw; reflexivity.
Qed.

(** With the handles paired, the accessor either returns the live terminal
    or creates the next one. *)
Lemma getCaseTerminal_paired s :
  paired_handles s ->
  (exists t, caseTerminal s = Some t /\ (t < created s)%nat
             /\ getCaseTerminal s = (t, t, s, []))
  \/ (caseTerminal s = None
      /\ exists s', getCaseTerminal s = (created s, created s, s', [TerminalCreate (created s)])
                    /\ caseTerminal s' = Some (created s)
                    /\ caseTerminalWriter s' = Some (created s)
                    /\ created s' = S (created s)
                    /\ lastReports s' = lastReports s /\ lastChangeAt s' = lastChangeAt s
                    /\ outputChannel s' = outputChannel s).
Proof.
  intros [Hw Hlt]. unfold getCaseTerminal. rewrite Hw.
  destruct (caseTerminal s) as [t|] eqn:Ht.
  - left. exists t. split; [done|]. split; [by apply Hlt|]. done.
  - right. split; [done|]. eexists. split; [reflexivity|]. done.
Qed.

Lemma render_cases_fire w ds x cases w' text :
  WriterFire w' text ∈ render_cases w ds x cases -> w' = w.
Proof.
  unfold render_cases. induction cases as [|c cs IH]; cbn [flat_map app]; intros Hin.
  - by apply elem_of_nil in Hin.
  - apply elem_of_cons in Hin as [Hin|Hin]; [discriminate Hin|].
    apply elem_of_cons in Hin as [Hin|Hin]; [by injection Hin | auto].
Qed.

Lemma reveals_live l t :
  paired_handles (st l) -> caseTerminal (st l) = Some t ->
  Forall (fun e => ~ is_create e /\ ~ is_fire e) (reveals l) /\ writer_of (st l) = t.
Proof.
  intros Hpair Ht. unfold reveals, writer_of.
  destruct (getCaseTerminal_paired (st l) Hpair) as [(t' & Ht' & _ & ->)|(Hn & _)];
    [|congruence].
  cbn [fst snd]. split; [|congruence].
  destruct (shown l), (terminalShown l); repeat constructor; simpl; tauto.
Qed.

Lemma reveals_fresh l :
  paired_handles (st l) -> caseTerminal (st l) = None ->
  reveals l = (if shown l then [] else [ChannelShow])
                ++ TerminalCreate (created (st l))
                   :: (if terminalShown l then [] else [TerminalShow (created (st l))])
  /\ writer_of (st l) = created (st l)
  /\ exists s', (getCaseTerminal (st l)).1.2 = s'
                /\ caseTerminal s' = Some (created (st l))
                /\ caseTerminalWriter s' = Some (created (st l))
                /\ created s' = S (created (st l))
                /\ lastReports s' = lastReports (st l)
                /\ lastChangeAt s' = lastChangeAt (st l)
                /\ outputChannel s' = outputChannel (st l).
Proof.
  intros Hpair Hn. unfold reveals, writer_of.
  destruct (getCaseTerminal_paired (st l) Hpair)
    as [(t' & Ht' & _)|(_ & s' & -> & Hs')]; [congruence|].
  cbn [fst snd]. split; [done|]. split; [done|]. by exists s'.
Qed.

Lemma handles_kept_step s0 h clock uri l :
  handles_kept s0 l -> handles_kept s0 (loop_of (report_uri h clock uri l)).
Proof.
  intros (Hpair & Hfire & Hcreate).
  destruct (report_uri_step h clock uri l)
    as [[_ ->]|[[rd ->]|[(doc & l' & _ & _ & -> & Hst & Hout & _)
                        |(doc & l' & es & _ & _ & _ & -> & Hrun & Hst & Hout & _)]]];
    cbn [loop_of]; try done.
  - (* a case pass that renders *)
    rewrite getCaseTerminal_set_lastReports in Hst. cbn [fst snd] in Hst.
    pose proof (render_cases_text (writer_of (st l)) (filtered h uri)
                  (JS.div1000 (Z.max 0 (elapsedMs_of clock uri l))) (extractCases doc)) as Htext.
    pose proof (fun w x => render_cases_fire (writer_of (st l)) (filtered h uri)
                  (JS.div1000 (Z.max 0 (elapsedMs_of clock uri l))) (extractCases doc) w x)
      as Hlines.
    set (lines := render_cases (writer_of (st l)) (filtered h uri)
                    (JS.div1000 (Z.max 0 (elapsedMs_of clock uri l))) (extractCases doc)) in *.
    assert (Forall (fun e => ~ is_create e) lines) as Hlines_nc
      by (eapply Forall_weaken; [|exact Htext]; by_kind).
    assert (forall w x, WriterFire w x ∉ reveals l) as Hquiet_r.
    { intros w x Hin. pose proof (reveals_are_reveals l) as Hr.
      rewrite Forall_forall in Hr. by apply Hr in Hin. }
    destruct (caseTerminal (st l)) as [t|] eqn:Ht.
    + (* the live terminal is reused *)
      destruct (reveals_live l t Hpair Ht) as [Hrev Hw].
      destruct (getCaseTerminal_paired (st l) Hpair) as [(t' & Ht' & _ & Hget)|(Hn & _)];
        [|congruence].
      rewrite Hget in Hst. cbn [fst snd] in Hst.
      split; [|split].
      * rewrite Hst. exact Hpair.
      * intros w x Hin. rewrite Hout in Hin. rewrite Hst. cbn [caseTerminalWriter set_lastReports].
        apply elem_of_app in Hin as [Hin|Hin]; [by apply Hfire in Hin|].
        apply elem_of_app in Hin as [Hin|Hin]; [by apply Hquiet_r in Hin|].
        apply Hlines in Hin. subst w. rewrite Hw. destruct Hpair as [-> _]. done.
      * assert (Forall (fun e => ~ is_create e) (reveals l ++ lines)) as Hnew.
        { apply Forall_app. split; [|done]. eapply Forall_weaken; [|exact Hrev]. tauto. }
        rewrite Hst. cbn [caseTerminal created set_lastReports]. rewrite Ht.
        destruct Hcreate as [(Hsame & Hcr & Hno)|(Hnone & Hnow & Hcr & pre & post & Ho & Hpre & Hpost)].
        -- left. split; [done|]. split; [done|]. rewrite Hout. by apply Forall_app.
        -- right. split; [done|]. split; [done|]. split; [done|].
           exists pre, (post ++ reveals l ++ lines).
           split; [by rewrite Hout, Ho, <- !app_assoc|]. split; [done|]. by apply Forall_app.
    + (* a terminal is created *)
      destruct (reveals_fresh l Hpair Ht) as (Hrev & Hw & s' & Hs' & Ht' & Hw' & Hc' & _).
      rewrite Hs' in Hst.
      destruct Hcreate as [(Hsame & Hcr & Hno)|(_ & Hnow & _)]; [|congruence].
      assert (forall w x, WriterFire w x ∉ out l) as Hquiet.
      { intros w x Hin. apply Hfire in Hin. destruct Hpair as [Hpw _]. congruence. }
      split; [|split].
      * rewrite Hst. split; cbn [caseTerminal caseTerminalWriter created set_lastReports].
        -- congruence.
        -- intros t0 Ht0. rewrite Ht' in Ht0. injection Ht0 as <-. lia.
      * intros w x Hin. rewrite Hout in Hin. rewrite Hst. cbn [caseTerminalWriter set_lastReports].
        apply elem_of_app in Hin as [Hin|Hin]; [by apply Hquiet in Hin|].
        apply elem_of_app in Hin as [Hin|Hin]; [by apply Hquiet_r in Hin|].
        apply Hlines in Hin. subst w. by rewrite Hw.
      * right. rewrite Hst. cbn [caseTerminal created set_lastReports].
        rewrite <- Hsame, <- Hcr. split; [done|]. split; [done|]. split; [done|].
        exists (out l ++ (if shown l then [] else [ChannelShow])),
          ((if terminalShown l then [] else [TerminalShow (created (st l))]) ++ lines).
        split; [rewrite Hout, Hrev, <- !app_assoc; cbn [app]; done|]. split.
        -- apply Forall_app. split.
           ++ apply Forall_forall. intros e He. split.
              ** rewrite Forall_forall in Hno. by apply Hno.
              ** intros Hf. destruct e; try done. by apply Hquiet in He.
           ++ destruct (shown l); repeat constructor; simpl; tauto.
        -- apply Forall_app. split; [|done].
           destruct (terminalShown l); repeat constructor; simpl; tauto.
  - (* a flat pass *)
    assert (Forall is_append es) as Hes.
    { eapply (render_flat_appends doc uri (filtered h uri) []); [|constructor].
      destruct Hrun as [[H _]|[H _]]; eauto. }
    assert (Forall (fun e => ~ is_create e /\ ~ is_fire e)
              ((if shown l then [] else [ChannelShow]) ++ es)) as Hnew.
    { apply Forall_app. split; [destruct (shown l); repeat constructor; simpl; tauto|].
      eapply Forall_weaken; [|exact Hes]. by_kind. }
    split; [|split].
    + rewrite Hst. exact Hpair.
    + intros w x Hin. rewrite Hout in Hin. rewrite Hst. cbn [caseTerminalWriter set_lastReports].
      apply elem_of_app in Hin as [Hin|Hin]; [by apply Hfire in Hin|].
      exfalso. rewrite Forall_forall in Hnew. by destruct (Hnew _ Hin) as [_ Hf]; apply Hf.
    + rewrite Hst. cbn [caseTerminal created set_lastReports].
      destruct Hcreate as [(Hsame & Hcr & Hno)|(Hnone & Hnow & Hcr & pre & post & Ho & Hpre & Hpost)].
      * left. split; [done|]. split; [done|]. rewrite Hout. apply Forall_app. split; [done|].
        eapply Forall_weaken; [|exact Hnew]. tauto.
      * right. split; [done|]. split; [done|]. split; [done|].
        exists pre, (post ++ (if shown l then [] else [ChannelShow]) ++ es).
        split; [by rewrite Hout, Ho, <- !app_assoc|]. split; [done|].
        apply Forall_app. split; [done|]. eapply Forall_weaken; [|exact Hnew]. tauto.
Qed.

Lemma handles_kept_batch h clock uris s :
  paired_handles s -> handles_kept s (loop_of (reportXssDiagnostics h clock uris s)).
Proof.
  intros Hpair.
  assert (handles_kept s (enter s)) as Hinit.
  { split; [done|]. split; [intros w x Hin; by apply elem_of_nil in Hin|].
    left. split; [done|]. split; [done|]. constructor. }
  unfold reportXssDiagnostics. destruct (outputChannel s); [|done].
  apply for_uris_invariant; [|done]. intros uri l. apply handles_kept_step.
Qed.

(** X3. From a state where the terminal and its writer are set together,
    a batch keeps them so. A live terminal is reused and none is created;
    without a live terminal at most one is created in the batch, with the
    next free handle and before any chunk is fired; and every chunk of the
    batch is fired on the writer that the module holds when the batch
    ends. *)
Theorem terminal_of_batch (h : Host) (clock : nat -> Z) (uris : list Uri) (s : State) :
  paired_handles s ->
  let l := loop_of (reportXssDiagnostics h clock uris s) in
  paired_handles (st l)
  /\ (forall w x, WriterFire w x ∈ out l -> caseTerminalWriter (st l) = Some w)
  /\ (forall t, caseTerminal s = Some t ->
                caseTerminal (st l) = Some t /\ created (st l) = created s
                /\ Forall (fun e => ~ is_create e) (out l))
  /\ (forall t, TerminalCreate t ∈ out l ->
                t = created s /\ caseTerminal s = None
                /\ caseTerminal (st l) = Some t /\ created (st l) = S t
                /\ exists pre post,
                     out l = pre ++ TerminalCreate t :: post
                     /\ Forall (fun e => ~ is_create e /\ ~ is_fire e) pre
                     /\ Forall (fun e => ~ is_create e) post).
Proof.
  intros Hpair l.
  destruct (handles_kept_batch h clock uris s Hpair) as (Hp & Hfire & Hcreate). fold l in Hp, Hfire, Hcreate.
  split; [done|]. split; [done|]. split.
  - intros t Ht.
    destruct Hcreate as [(Hsame & Hcr & Hno)|(Hnone & _)]; [|congruence].
    split; [congruence|]. done.
  - intros t Hin.
    destruct Hcreate as [(Hsame & Hcr & Hno)|(Hnone & Hnow & Hcr & pre & post & Ho & Hpre & Hpost)].
    + rewrite Forall_forall in Hno. by destruct (Hno _ Hin).
    + assert (t = created s) as ->.
      { rewrite Ho in Hin. apply elem_of_app in Hin as [Hin|Hin].
        - rewrite Forall_forall in Hpre. by destruct (Hpre _ Hin) as [Hc _]; destruct Hc.
        - apply elem_of_cons in Hin as [Hin|Hin]; [by injection Hin|].
          rewrite Forall_forall in Hpost. by destruct (Hpost _ Hin). }
      split; [done|]. split; [done|]. split; [done|]. split; [done|]. by exists pre, post.
Qed.

(** Membership in a list that computes. *)
Ltac by_membership :=
  apply list_elem_of_In; vm_compute; repeat (first [left; reflexivity | right]).

(** The first pass over [two_cases] creates terminal 0 and fires on it. *)
Lemma terminal_of_batch_witness :
  paired_handles activated
  /\ caseTerminalWriter
       (st (loop_of (reportXssDiagnostics host_two_cases noon [cases_py] activated)))
     = Some 0%nat
  /\ created (st (loop_of (reportXssDiagnostics host_two_cases noon [cases_py] activated)))
     = 1%nat.
Proof.
  assert (paired_handles activated) as Hpair by (split; [reflexivity | discriminate]).
  split; [exact Hpair|].
  destruct (terminal_of_batch host_two_cases noon [cases_py] activated Hpair)
    as (_ & Hfire & _ & Hcreate).
  split.
  - apply (Hfire 0%nat (labelled_line label_success {| id := 1; startLine := 0; endLine := 1 |}
                          (JS.lit "0.00") ++ [13; 10]%N)).
    by_membership.
  - destruct (Hcreate 0%nat) as (_ & _ & _ & Hc & _); [|exact Hc].
    by_membership.
Defined.

(** X4. After the host has reported the owned terminal closed, both
    variables of the module are cleared, and the next case pass that
    renders, be it of a call started afterwards or of a call that was
    suspended meanwhile, creates a terminal with a new handle and fires
    all its case lines on the new writer; the module then holds the new
    terminal. The new terminal is revealed exactly when the call has not
    revealed a terminal before: a call started after the close reveals
    it, a call whose flag [terminalShown] is already set does not. *)
Theorem terminal_recreated (h : Host) (clock : nat -> Z) (uri : Uri) (l : Loop)
    (t : nat) (doc : TextDocument) :
  paired_handles (st l) ->
  caseTerminal (st l) = Some t ->
  openTextDocument h uri = Some doc ->
  extractCases doc <> [] ->
  lastReports (st l) !! uri_toString uri
    <> Some (report_key (filtered h uri) (extractCases doc)) ->
  let closed := onDidCloseTerminal t (st l) in
  let fresh := created (st l) in
  caseTerminal closed = None /\ caseTerminalWriter closed = None
  /\ exists l' x,
       report_uri h clock uri (with_state l closed (reads l)) = Normal l'
       /\ out l' = out l ++ (if shown l then [] else [ChannelShow])
                     ++ TerminalCreate fresh
                        :: (if terminalShown l then [] else [TerminalShow fresh])
                     ++ render_cases fresh (filtered h uri) x (extractCases doc)
       /\ fresh <> t
       /\ caseTerminal (st l') = Some fresh
       /\ caseTerminalWriter (st l') = Some fresh
       /\ (TerminalShow fresh ∈ out l' <-> terminalShown l = false \/ TerminalShow fresh ∈ out l).
Proof.
  intros [Hw Hlt] Ht Hdoc Hne Hnew closed fresh.
  assert (closed = {| outputChannel := outputChannel (st l); caseTerminal := None;
                      caseTerminalWriter := None; lastReports := lastReports (st l);
                      lastChangeAt := lastChangeAt (st l); created := created (st l) |})
    as Hclosed.
  { subst closed. unfold onDidCloseTerminal. by rewrite decide_True. }
  split; [by rewrite Hclosed|]. split; [by rewrite Hclosed|].
  assert (paired_handles closed) as Hpc by (rewrite Hclosed; split; [done | discriminate]).
  destruct (report_uri_case_new_state h clock uri (with_state l closed (reads l)) doc Hdoc Hne)
    as (l' & Hrun & Hst & Hout & _).
  { cbn [with_state st]. by rewrite Hclosed. }
  destruct (reveals_fresh (with_state l closed (reads l)) Hpc) as (Hrev & Hwr & _);
    [by rewrite Hclosed|].
  cbn [with_state st shown terminalShown] in Hrev, Hwr.
  assert (created closed = fresh) as Hfresh by (by rewrite Hclosed).
  rewrite Hfresh in Hrev, Hwr.
  exists l', (JS.div1000 (Z.max 0 (elapsedMs_of clock uri (with_state l closed (reads l))))).
  assert (out l' = out l ++ (if shown l then [] else [ChannelShow])
                     ++ TerminalCreate fresh
                        :: (if terminalShown l then [] else [TerminalShow fresh])
                     ++ render_cases fresh (filtered h uri)
                          (JS.div1000 (Z.max 0 (elapsedMs_of clock uri
                                                  (with_state l closed (reads l)))))
                          (extractCases doc)) as Hout'.
  { rewrite Hout, Hrev. cbn [with_state st out]. rewrite Hwr.
    by rewrite <- !app_assoc. }
  split; [exact Hrun|]. split; [exact Hout'|].
  split; [subst fresh; specialize (Hlt t Ht); lia|].
  split; [|split].
  - rewrite Hst, getCaseTerminal_set_lastReports. cbn [fst snd with_state st].
    rewrite Hclosed. done.
  - rewrite Hst, getCaseTerminal_set_lastReports. cbn [fst snd with_state st].
    rewrite Hclosed. done.
  - rewrite Hout'. rewrite !elem_of_app, elem_of_cons, elem_of_app.
    assert (TerminalShow fresh ∉ render_cases fresh (filtered h uri)
              (JS.div1000 (Z.max 0 (elapsedMs_of clock uri (with_state l closed (reads l)))))
              (extractCases doc)) as Hlines.
    { apply (Forall_not_elem is_text); [apply render_cases_text | by intros []]. }
    split.
    + intros [Hin|[Hin|[Hin|[Hin|Hin]]]]; try done; try by right.
      * destruct (shown l); [by apply elem_of_nil in Hin|].
        apply list_elem_of_singleton in Hin. discriminate Hin.
      * destruct (terminalShown l); [by apply elem_of_nil in Hin | by left].
    + intros [Hflag|Hin]; [|by left]. right. right. right. left.
      rewrite Hflag. by left.
Qed.

(** Terminal 0 is closed after the first pass; the diagnostics are gone,
    and the next pass creates terminal 1. *)
Lemma terminal_recreated_witness :
  paired_handles after_first_pass
  /\ caseTerminal after_first_pass = Some 0%nat
  /\ exists l' x,
       report_uri (host_of two_cases []) noon cases_py
         (enter (onDidCloseTerminal 0 after_first_pass)) = Normal l'
       /\ out l' = [ChannelShow; TerminalCreate 1; TerminalShow 1]
                     ++ render_cases 1 [] x (extractCases two_cases)
       /\ caseTerminalWriter (st l') = Some 1%nat.
Proof.
  assert (paired_handles after_first_pass) as Hpair.
  { split; [reflexivity|]. intros t Ht. vm_compute in Ht. injection Ht as <-.
    vm_compute. lia. }
  split; [exact Hpair|]. split; [reflexivity|].
  destruct (terminal_recreated (host_of two_cases []) noon cases_py (enter after_first_pass) 0
              two_cases)
    as (_ & _ & l' & x & Hrun & Hout & _ & _ & Hw & _).
  - exact Hpair.
  - reflexivity.
  - reflexivity.
  - discriminate.
  - intros H. vm_compute in H. discriminate H.
  - exists l', x. split; [exact Hrun|]. split; [exact Hout | exact Hw].
Defined.

(** ** What a batch leaves alone *)

Lemma getCaseTerminal_maps s :
  lastReports (getCaseTerminal s).1.2 = lastReports s
  /\ lastChangeAt (getCaseTerminal s).1.2 = lastChangeAt s
  /\ outputChannel (getCaseTerminal s).1.2 = outputChannel s
  /\ (created s <= created (getCaseTerminal s).1.2)%nat.
Proof.
  unfold getCaseTerminal.
  destruct (caseTerminal s), (caseTerminalWriter s); cbn [fst snd created]; repeat split; lia.
Qed.

Lemma report_uri_frame h clock uri l :
  let l' := loop_of (report_uri h clock uri l) in
  lastChangeAt (st l') = lastChangeAt (st l)
  /\ outputChannel (st l') = outputChannel (st l)
  /\ (created (st l) <= created (st l'))%nat
  /\ (forall k, k <> uri_toString uri -> lastReports (st l') !! k = lastReports (st l) !! k)
  /\ (forall k, is_Some (lastReports (st l) !! k) -> is_Some (lastReports (st l') !! k)).
Proof.
  intros l'. subst l'.
  destruct (report_uri_step h clock uri l)
    as [[_ ->]|[[rd ->]|[(doc & l' & _ & _ & -> & Hst & _)
                        |(doc & l' & es & _ & _ & _ & -> & _ & Hst & _)]]];
    cbn [loop_of]; try done.
  - rewrite Hst.
    destruct (getCaseTerminal_maps
                (set_lastReports (st l)
                   (<[ uri_toString uri := report_key (filtered h uri) (extractCases doc) ]>
                      (lastReports (st l))))) as (-> & -> & -> & Hc).
    cbn [set_lastReports lastReports lastChangeAt outputChannel created] in *.
    repeat split; try done.
    + intros k Hk. by rewrite lookup_insert_ne.
    + intros k Hk. destruct (decide (uri_toString uri = k)) as [<-|Hne];
        [rewrite lookup_insert_eq; eauto | by rewrite lookup_insert_ne].
  - rewrite Hst. cbn [set_lastReports lastReports lastChangeAt outputChannel created].
    repeat split; try done.
    + intros k Hk. by rewrite lookup_insert_ne.
    + intros k Hk. destruct (decide (uri_toString uri = k)) as [<-|Hne];
        [rewrite lookup_insert_eq; eauto | by rewrite lookup_insert_ne].
Qed.

Lemma for_uris_frame h clock : forall uris l,
  let l' := loop_of (for_uris h clock uris l) in
  lastChangeAt (st l') = lastChangeAt (st l)
  /\ outputChannel (st l') = outputChannel (st l)
  /\ (created (st l) <= created (st l'))%nat
  /\ (forall k, k ∉ map uri_toString uris -> lastReports (st l') !! k = lastReports (st l) !! k)
  /\ (forall k, is_Some (lastReports (st l) !! k) -> is_Some (lastReports (st l') !! k)).
Proof.
  induction uris as [|u us IH]; intros l; cbn [for_uris loop_of map]; [done|].
  destruct (report_uri_frame h clock u l) as (H1 & H2 & H3 & H4 & H5).
  destruct (report_uri h clock u l) as [l1|l1] eqn:Hrun; cbn [loop_of] in *.
  - destruct (IH l1) as (I1 & I2 & I3 & I4 & I5).
    split; [congruence|]. split; [congruence|]. split; [lia|]. split.
    + intros k Hk. apply not_elem_of_cons in Hk as [Hk1 Hk2].
      rewrite I4 by done. by apply H4.
    + intros k Hk. by apply I5, H5.
  - split; [done|]. split; [done|]. split; [done|]. split; [|done].
    intros k Hk. apply not_elem_of_cons in Hk as [Hk1 Hk2]. by apply H4.
Qed.

(** X5. A batch never touches the edit stamps or the channel, never
    removes a stored key, and changes stored keys only for the documents
    it names. *)
Theorem batch_frame (h : Host) (clock : nat -> Z) (uris : list Uri) (s : State) :
  let l := loop_of (reportXssDiagnostics h clock uris s) in
  lastChangeAt (st l) = lastChangeAt s
  /\ outputChannel (st l) = outputChannel s
  /\ (forall k, k ∉ map uri_toString uris -> lastReports (st l) !! k = lastReports s !! k)
  /\ (forall k, is_Some (lastReports s !! k) -> is_Some (lastReports (st l) !! k)).
Proof.
  intros l. subst l. unfold reportXssDiagnostics.
  destruct (outputChannel s) eqn:Hch; [|done].
  destruct (for_uris_frame h clock uris (enter s)) as (H1 & H2 & _ & H4 & H5).
  cbn [enter st] in *. rewrite Hch in H2. done.
Qed.

(** ** Turns of the event loop *)

Lemma run_app before after r :
  run (before ++ after) r
  = let (r1, o1) := run before r in
    let (r2, o2) := run after r1 in (r2, o1 ++ o2).
Proof.
  revert r. induction before as [|a before IH]; intros r; cbn [run app].
  - by destruct (run after r).
  - destruct (step a r) as [r1 o1].
    rewrite IH. destruct (run before r1) as [r2 o2].
    destruct (run after r2) as [r3 o3]. by rewrite app_assoc.
Qed.

(** A settled promise changes nothing, or runs one iteration of the loop
    from the variables as they are. *)
Lemma settle_cases i h clock r :
  settle i h clock r = (r, [])
  \/ exists c,
       calls r !! i = Some c
       /\ vars (settle i h clock r).1
          = st (loop_of (report_uri h clock (awaited c) (resumed (vars r) c)))
       /\ (settle i h clock r).2
          = out (loop_of (report_uri h clock (awaited c) (resumed (vars r) c))).
Proof.
  unfold settle. destruct (calls r !! i) as [c|]; [right|by left].
  exists c. split; [done|].
  by destruct (report_uri h clock (awaited c) (resumed (vars r) c)).
Qed.

Lemma handles_kept_resumed s c : paired_handles s -> handles_kept s (resumed s c).
Proof.
  intros Hpair. split; [done|]. split.
  - intros w x Hin. by apply elem_of_nil in Hin.
  - left. cbn [resumed st out]. done.
Qed.

Lemma onDidChangeTextDocument_fields languageId uri now s :
  caseTerminal (onDidChangeTextDocument languageId uri now s) = caseTerminal s
  /\ caseTerminalWriter (onDidChangeTextDocument languageId uri now s) = caseTerminalWriter s
  /\ created (onDidChangeTextDocument languageId uri now s) = created s
  /\ lastReports (onDidChangeTextDocument languageId uri now s) = lastReports s.
Proof. unfold onDidChangeTextDocument. by destruct (decide _). Qed.

Lemma notify_fields n now r :
  match n with
  | DidCloseTerminal t =>
      vars (notify n now r) = onDidCloseTerminal t (vars r)
  | _ =>
      caseTerminal (vars (notify n now r)) = caseTerminal (vars r)
      /\ caseTerminalWriter (vars (notify n now r)) = caseTerminalWriter (vars r)
      /\ created (vars (notify n now r)) = created (vars r)
      /\ lastReports (vars (notify n now r)) = lastReports (vars r)
  end.
Proof.
  destruct n as [uris|lang uri|lang uri|lang uri|t]; cbn [notify vars].
  - by destruct (outputChannel (vars r)).
  - apply onDidChangeTextDocument_fields.
  - apply onDidChangeTextDocument_fields.
  - apply onDidChangeTextDocument_fields.
  - done.
Qed.

Lemma onDidCloseTerminal_gone t s :
  paired_handles s -> (t < created s)%nat -> gone t (onDidCloseTerminal t s).
Proof.
  intros Hpair Hlt. unfold onDidCloseTerminal.
  destruct (decide (caseTerminal s = Some t)) as [Ht|Hn]; [|done].
  split; [split; [done | discriminate]|]. split; [done | discriminate].
Qed.

Lemma onDidCloseTerminal_paired t s :
  paired_handles s -> paired_handles (onDidCloseTerminal t s).
Proof.
  intros Hpair. unfold onDidCloseTerminal. destruct (decide _); [|done].
  split; [done | discriminate].
Qed.

Lemma step_paired t r :
  paired_handles (vars r) -> paired_handles (vars (step t r).1).
Proof.
  intros Hpair. destruct t as [n now|i h clock]; cbn [step fst].
  - pose proof (notify_fields n now r) as Hn.
    destruct n; try (destruct Hn as (H1 & H2 & H3 & _); unfold paired_handles;
                     by rewrite H1, H2, H3).
    rewrite Hn. by apply onDidCloseTerminal_paired.
  - destruct (settle_cases i h clock r) as [->|(c & _ & -> & _)]; [done|].
    by destruct (handles_kept_step (vars r) h clock (awaited c) _
                   (handles_kept_resumed (vars r) c Hpair)).
Qed.

Lemma run_paired turns : forall r,
  paired_handles (vars r) -> paired_handles (vars (run turns r).1).
Proof.
  induction turns as [|t rest IH]; intros r Hpair; cbn [run]; [done|].
  pose proof (step_paired t r Hpair) as H1.
  destruct (step t r) as [r1 o1]. specialize (IH r1 H1). by destruct (run rest r1).
Qed.

Lemma step_gone t turn r :
  gone t (vars r) ->
  gone t (vars (step turn r).1) /\ forall x, WriterFire t x ∉ (step turn r).2.
Proof.
  intros (Hpair & Hlt & Hne). destruct turn as [n now|i h clock]; cbn [step fst snd].
  - split; [|intros x; apply not_elem_of_nil].
    pose proof (notify_fields n now r) as Hn.
    destruct n as [uris|lang uri|lang uri|lang uri|t'];
      try (destruct Hn as (H1 & H2 & H3 & _); unfold gone, paired_handles;
           by rewrite H1, H2, H3).
    rewrite Hn. unfold onDidCloseTerminal. destruct (decide _); [|done].
    split; [split; [done | discriminate]|]. split; [done | discriminate].
  - destruct (settle_cases i h clock r) as [->|(c & _ & -> & ->)].
    { split; [done|]. intros x; apply not_elem_of_nil. }
    destruct (handles_kept_step (vars r) h clock (awaited c) _
                (handles_kept_resumed (vars r) c Hpair)) as (Hp & Hfire & Hcreate).
    set (l := loop_of (report_uri h clock (awaited c) (resumed (vars r) c))) in *.
    assert (caseTerminal (st l) <> Some t /\ (t < created (st l))%nat) as [Hne' Hlt'].
    { destruct Hcreate as [(Hsame & Hcr & _)|(_ & Hnow & Hcr & _)].
      - rewrite Hsame, Hcr. done.
      - rewrite Hnow, Hcr. split; [|lia]. intros [= Heq]. lia. }
    split; [done|]. intros x Hin. apply Hfire in Hin.
    destruct Hp as [Hw _]. congruence.
Qed.

Lemma run_gone t turns : forall r,
  gone t (vars r) -> forall x, WriterFire t x ∉ (run turns r).2.
Proof.
  induction turns as [|a rest IH]; intros r Hgone x; cbn [run].
  - apply not_elem_of_nil.
  - destruct (step_gone t a r Hgone) as [H1 H2].
    destruct (step a r) as [r1 o1].
    specialize (IH r1 H1 x). destruct (run rest r1) as [r2 o2].
    cbn [fst snd] in *. rewrite not_elem_of_app. split; [apply H2 | exact IH].
Qed.

(** X6. However the notifications and the suspended calls interleave
    after activation: once the host has reported a terminal of the module
    closed, no chunk is fired on the writer of that terminal again. *)
Theorem closed_terminal_never_written (before after : list turn) (t : nat) (now : Z) :
  let r := (run before started).1 in
  (t < created (vars r))%nat ->
  forall x, WriterFire t x ∉ (run (Notified (DidCloseTerminal t) now :: after) r).2.
Proof.
  intros r Hlt x. cbn [run step notify].
  assert (paired_handles (vars r)) as Hpair.
  { apply run_paired. split; [done | discriminate]. }
  pose proof (run_gone t after
                {| vars := onDidCloseTerminal t (vars r); calls := calls r |}
                (onDidCloseTerminal_gone t (vars r) Hpair Hlt) x) as Hno.
  destruct (run after _) as [r2 o2]. exact Hno.
Qed.

Lemma closed_terminal_never_written_witness :
  (0 < created (vars (run first_pass started).1))%nat
  /\ WriterFire 0 (labelled_line label_failure {| id := 1; startLine := 0; endLine := 1 |}
                     (JS.lit "0.00") ++ [13; 10]%N)
     ∉ (run (Notified (DidCloseTerminal 0) 1700000000000 :: cleared)
          (run first_pass started).1).2.
Proof.
  split; [vm_compute; lia|].
  apply (closed_terminal_never_written first_pass cleared 0%nat 1700000000000).
  vm_compute; lia.
Defined.

(** ** A call that is not interleaved *)

(** The events emitted before an iteration pass through it. *)
Lemma report_uri_after h clock uri o l :
  report_uri h clock uri (after_events o l) = completion_after o (report_uri h clock uri l).
Proof.
  unfold report_uri. destruct (openTextDocument h uri) as [doc|]; [|done].
  destruct (0 <? length (extractCases doc))%nat.
  - cbn [after_events st reads].
    destruct (lastChangeAt (st l) !! uri_toString uri) as [t|]; cbn [fst snd];
      (destruct (decide _); [reflexivity|]);
      unfold reveal_channel, reveal_terminal, emit, with_state, after_events, getCaseTerminal,
        set_lastReports;
      cbn [st shown terminalShown reads out caseTerminal caseTerminalWriter created];
      destruct (shown l); cbn [st shown terminalShown reads out];
      destruct (caseTerminal (st l)), (caseTerminalWriter (st l));
      cbn [st shown terminalShown reads out caseTerminal caseTerminalWriter created];
      destruct (terminalShown l);
      cbn [st shown terminalShown reads out completion_after after_events];
      rewrite <- ?app_assoc; reflexivity.
  - cbn [after_events st reads].
    destruct (length (List.filter is_xss (getDiagnostics h uri)) =? 0)%nat; [reflexivity|].
    destruct (decide _); [reflexivity|].
    unfold reveal_channel, emit, with_state, after_events.
    cbn [st shown terminalShown reads out].
    destruct (render_flat doc uri (List.filter is_xss (getDiagnostics h uri)) []);
      destruct (shown l); cbn [st shown terminalShown reads out completion_after];
      unfold after_events; cbn [st shown terminalShown reads out];
      rewrite <- ?app_assoc; reflexivity.
Qed.

Lemma for_uris_after h clock : forall uris o l,
  for_uris h clock uris (after_events o l) = completion_after o (for_uris h clock uris l).
Proof.
  induction uris as [|u us IH]; intros o l; cbn [for_uris]; [done|].
  rewrite report_uri_after.
  destruct (report_uri h clock u l) as [l1|l1]; cbn [completion_after]; [apply IH | done].
Qed.

Lemma settle_idle n cs s h clock :
  run (replicate n (Settled (length cs) h clock)) {| vars := s; calls := cs |}
  = ({| vars := s; calls := cs |}, []).
Proof.
  induction n as [|n IH]; cbn [replicate run step]; [done|].
  unfold settle at 1. cbn [calls]. rewrite lookup_ge_None_2 by lia.
  by rewrite IH.
Qed.

Lemma uninterrupted_loop h clock : forall uris l cs,
  out l = [] ->
  run (replicate (length uris) (Settled (length cs) h clock))
      {| vars := st l; calls := cs ++ suspend l uris |}
  = ({| vars := st (loop_of (for_uris h clock uris l)); calls := cs |},
     out (loop_of (for_uris h clock uris l))).
Proof.
  induction uris as [|u us IH]; intros l cs Hout.
  - cbn [length replicate run suspend for_uris loop_of]. by rewrite app_nil_r, Hout.
  - cbn [length replicate run step for_uris suspend].
    unfold settle. cbn [calls vars].
    rewrite lookup_app_r by lia. rewrite Nat.sub_diag. cbn [lookup list_lookup awaited remaining].
    assert (resumed (st l) {| call_shown := shown l; call_terminalShown := terminalShown l;
                              call_reads := reads l; awaited := u; remaining := us |} = l)
      as ->.
    { destruct l; cbn in *. by subst. }
    destruct (report_uri h clock u l) as [l1|l1] eqn:Hrun; cbn [loop_of].
    + rewrite take_app_length.
      rewrite (drop_ge (cs ++ _)) by (rewrite length_app; cbn [length]; lia).
      rewrite app_nil_r.
      set (bare := {| st := st l1; shown := shown l1; terminalShown := terminalShown l1;
                      reads := reads l1; out := [] |}).
      assert (suspend l1 us = suspend bare us) as -> by (by destruct us).
      assert (for_uris h clock us l1 = completion_after (out l1) (for_uris h clock us bare))
        as ->.
      { rewrite <- for_uris_after. f_equal. destruct l1; unfold after_events, bare; cbn.
        by rewrite app_nil_r. }
      change (st l1) with (st bare) at 1.
      rewrite (IH bare cs eq_refl).
      by destruct (for_uris h clock us bare).
    + assert (forall (c : Call), delete (length cs) (cs ++ [c]) = cs) as Hdel.
      { clear. intros c. induction cs as [|c' cs IH]; [done|]. simpl. f_equal. exact IH. }
      rewrite Hdel.
      rewrite settle_idle. by rewrite app_nil_r.
Qed.

(** X7. A call of [reportXssDiagnostics] that no other turn interleaves
    with behaves as one batch: started by the notification and resumed
    once for each URI, it leaves the variables and writes the events of
    the batch, and no call of it is left suspended. *)
Theorem uninterrupted_call (h : Host) (clock : nat -> Z) (uris : list Uri) (now : Z)
    (r : Running) :
  let l := loop_of (reportXssDiagnostics h clock uris (vars r)) in
  run (Notified (DidChangeDiagnostics uris) now
         :: replicate (length uris) (Settled (length (calls r)) h clock)) r
  = ({| vars := st l; calls := calls r |}, out l).
Proof.
  intros l. subst l. cbn [run step notify]. unfold reportXssDiagnostics.
  destruct (outputChannel (vars r)).
  - pose proof (uninterrupted_loop h clock uris (enter (vars r)) (calls r) eq_refl) as Hrun.
    cbn [enter st] in Hrun. cbn [enter]. rewrite Hrun. reflexivity.
  - destruct r as [s cs]. cbn [vars calls]. rewrite settle_idle. reflexivity.
Qed.

(** ** The edit stamps *)

Lemma step_lastChangeAt_kept k t r :
  no_change k t -> lastChangeAt (vars (step t r).1) !! k = lastChangeAt (vars r) !! k.
Proof.
  intros Hno. destruct t as [n now|i h clock]; cbn [step fst].
  - destruct n as [uris|lang uri|lang uri|lang uri|t]; cbn [notify vars no_change] in *.
    + by destruct (outputChannel (vars r)).
    + unfold onDidChangeTextDocument. destruct (decide _) as [Hpy|]; [|done].
      cbn [set_lastChangeAt lastChangeAt]. apply lookup_insert_ne.
      intros Hk. by apply Hno.
    + unfold onDidSaveTextDocument, onDidChangeTextDocument.
      destruct (decide _) as [Hpy|]; [|done].
      cbn [set_lastChangeAt lastChangeAt]. apply lookup_insert_ne.
      intros Hk. by apply Hno.
    + unfold onDidOpenTextDocument, onDidChangeTextDocument.
      destruct (decide _) as [Hpy|]; [|done].
      cbn [set_lastChangeAt lastChangeAt]. apply lookup_insert_ne.
      intros Hk. by apply Hno.
    + unfold onDidCloseTerminal. by destruct (decide _).
  - destruct (settle_cases i h clock r) as [->|(c & _ & -> & _)]; [done|].
    by destruct (report_uri_frame h clock (awaited c) (resumed (vars r) c)) as (-> & _).
Qed.

Lemma run_lastChangeAt_kept k turns : forall r,
  Forall (no_change k) turns ->
  lastChangeAt (vars (run turns r).1) !! k = lastChangeAt (vars r) !! k.
Proof.
  induction turns as [|t rest IH]; intros r Hno; cbn [run]; [done|].
  apply Forall_cons in Hno as [Ht Hrest].
  pose proof (step_lastChangeAt_kept k t r Ht) as H1.
  destruct (step t r) as [r1 o1]. specialize (IH r1 Hrest).
  destruct (run rest r1) as [r2 o2]. cbn [fst] in *. congruence.
Qed.

(** X8. The edit stamp of a document is the clock reading of the latest
    notification that a python document with its URI was edited, saved or
    opened: the turns after that notification, which are notifications
    about other documents, about documents in other languages, about
    terminals and diagnostics, and resumptions of suspended calls, leave
    the stamp as it is. *)
Theorem latest_change_recorded (k : list N) (after : list turn) (r : Running) :
  Forall (no_change k) after ->
  lastChangeAt (vars (run after r).1) !! k = lastChangeAt (vars r) !! k
  /\ forall n now,
       records_change k n ->
       lastChangeAt (vars (run (Notified n now :: after) r).1) !! k = Some now.
Proof.
  intros Hno. split; [by apply run_lastChangeAt_kept|].
  intros n now Hrec. cbn [run step].
  pose proof (run_lastChangeAt_kept k after (notify n now r) Hno) as Hkept.
  destruct (run after (notify n now r)) as [r2 o2]. cbn [fst] in *. rewrite Hkept.
  destruct n as [uris|lang uri|lang uri|lang uri|t]; cbn [records_change] in Hrec;
    try done; destruct Hrec as [-> <-]; cbn [notify vars];
    apply onDidChangeTextDocument_records.
Qed.

Lemma latest_change_recorded_witness :
  Forall (no_change (uri_toString cases_py)) other_turns
  /\ lastChangeAt
       (vars (run (Notified (DidOpenTextDocument (JS.lit "python") cases_py) 1700000000400
                     :: other_turns) started).1) !! uri_toString cases_py
     = Some 1700000000400.
Proof.
  assert (Forall (no_change (uri_toString cases_py)) other_turns) as Hno.
  { repeat constructor; cbn [no_change records_change]; try tauto.
    - intros [_ Hk]. vm_compute in Hk. discriminate Hk.
    - intros [Hpy _]. vm_compute in Hpy. discriminate Hpy. }
  split; [exact Hno|].
  apply (latest_change_recorded (uri_toString cases_py) other_turns started Hno).
  split; reflexivity.
Defined.

(** ** Activation *)

Lemma ran_runnable sp n c : ran (sp n c) = true <-> runnable sp n c.
Proof.
  unfold ran, runnable. destruct (error (sp n c)); cbn [negb andb].
  - split; [discriminate | intros [? _]; discriminate].
  - rewrite bool_decide_eq_true. tauto.
Qed.

Lemma first_candidate_spec sp : forall candidates k,
  match first_candidate sp k candidates with
  | Some p =>
      exists n,
        List.filter (fun c => negb (falsy c)) candidates !! n = Some p
        /\ runnable sp (k + n) p
        /\ forall m c, (m < n)%nat ->
             List.filter (fun c => negb (falsy c)) candidates !! m = Some c ->
             ~ runnable sp (k + m) c
  | None =>
      forall n c, List.filter (fun c => negb (falsy c)) candidates !! n = Some c ->
                  ~ runnable sp (k + n) c
  end.
Proof.
  induction candidates as [|c cs IH]; intros k; cbn [first_candidate List.filter].
  - intros n c Hn. by rewrite lookup_nil in Hn.
  - destruct (falsy c) eqn:Hf; cbn [negb]; [apply IH|].
    destruct (ran (sp k c)) eqn:Hran.
    + exists 0%nat. split; [done|]. split; [rewrite Nat.add_0_r; by apply ran_runnable|].
      intros m c' Hm. lia.
    + assert (~ runnable sp k c) as Hno.
      { intros Hr. apply ran_runnable in Hr. congruence. }
      specialize (IH (S k)). destruct (first_candidate sp (S k) cs) as [p|].
      * destruct IH as (n & Hn & Hr & Hbefore). exists (S n).
        split; [done|]. split; [by replace (k + S n)%nat with (S k + n)%nat by lia|].
        intros [|m] c' Hm Hc'.
        -- cbn in Hc'. injection Hc' as <-. by rewrite Nat.add_0_r.
        -- replace (k + S m)%nat with (S k + m)%nat by lia. apply (Hbefore m c'); [lia | done].
      * intros [|n] c' Hc'.
        -- cbn in Hc'. injection Hc' as <-. by rewrite Nat.add_0_r.
        -- replace (k + S n)%nat with (S k + n)%nat by lia. by apply IH.
Qed.

Lemma resolvePythonPath_attempts sp (configured : list N) :
  (forall p, resolvePythonPath sp configured = Some p <->
             exists n, first_runnable sp (attempts configured) n p)
  /\ (resolvePythonPath sp configured = None <-> none_runnable sp (attempts configured)).
Proof.
  pose proof (first_candidate_spec sp [configured; JS.lit "python3"; JS.lit "python"] 0)
    as Hspec.
  fold (resolvePythonPath sp configured) in Hspec. fold (attempts configured) in Hspec.
  cbn [Nat.add] in Hspec.
  assert (forall n m p q, first_runnable sp (attempts configured) n p ->
                          first_runnable sp (attempts configured) m q -> p = q) as Huniq.
  { intros n m p q (Hn & Hrn & Hbn) (Hm & Hrm & Hbm).
    destruct (Nat.lt_trichotomy n m) as [Hlt|[->|Hlt]].
    - by destruct (Hbm n p Hlt Hn).
    - congruence.
    - by destruct (Hbn m q Hlt Hm). }
  split.
  - intros p. destruct (resolvePythonPath sp configured) as [q|].
    + destruct Hspec as (n & Hq). split.
      * intros [= <-]. by exists n.
      * intros (m & Hp). f_equal. by apply (Huniq n m).
    + split; [discriminate|]. intros (n & Hn & Hr & _). by destruct (Hspec n p).
  - destruct (resolvePythonPath sp configured) as [q|].
    + split; [discriminate|]. intros Hnone. destruct Hspec as (n & Hn & Hr & _).
      by destruct (Hnone n q).
    + done.
Qed.

(** X9. [resolvePythonPath] spawns the configured path, "python3" and
    "python" in this order, skipping an empty path without a call, and
    returns the candidate of the first call that ran without error and
    with status 0; it returns nothing exactly when no call did. *)
Theorem resolvePythonPath_first_runnable sp (configured : list N) :
  (forall p, resolvePythonPath sp configured = Some p <->
             exists n, first_runnable sp (attempts configured) n p)
  /\ (resolvePythonPath sp configured = None <-> none_runnable sp (attempts configured))
  /\ (forall p, resolvePythonPath sp configured = Some p ->
                p <> [] /\ p ∈ [configured; JS.lit "python3"; JS.lit "python"]).
Proof.
  destruct (resolvePythonPath_attempts sp configured) as [Hsome Hnone].
  split; [exact Hsome|]. split; [exact Hnone|].
  intros p Hp. apply Hsome in Hp as (n & Hn & _).
  apply list_elem_of_lookup_2 in Hn. unfold attempts in Hn.
  apply list_elem_of_In, filter_In in Hn as [Hin Hf].
  split; [by destruct p | by apply list_elem_of_In].
Qed.

Lemma configuredPython_truthy setting : falsy (configuredPython setting) = false.
Proof. unfold configuredPython. destruct setting as [[|c p]|]; done. Qed.

(** X10. [activate] fails exactly when none of the three calls of
    [spawnSync] runs: on the configured path (or "python" when none is
    set), on "python3" and on "python". It then shows the error message and
    does nothing else: no client, no output channel, no handler.
    Otherwise it starts the server with the first path that ran, creates
    the output channel, subscribes the handlers and leaves the rest of the
    module as it was. *)
Theorem activate_outcome (context : ExtensionContext) (setting : option (list N)) sp
    (e : Extension) :
  let tried := [configuredPython setting; JS.lit "python3"; JS.lit "python"] in
  (none_runnable sp tried /\ activate context setting sp e = (e, [not_found]))
  \/ exists n p,
       first_runnable sp tried n p
       /\ let options := {| command := p; args := [server_py context];
                            cwd := server_dir context |} in
          activate context setting sp e
          = ({| client := Some options; globals := set_outputChannel (globals e);
                subscribed := true |},
             [ CreateOutputChannel (JS.lit "XSS LSP Issues"); ClientStart options;
               ShowInformationMessage (JS.lit "XSS LSP started (Python AST).") ])
          /\ outputChannel (globals (activate context setting sp e).1) = true
          /\ lastReports (globals (activate context setting sp e).1) = lastReports (globals e)
          /\ caseTerminal (globals (activate context setting sp e).1)
             = caseTerminal (globals e).
Proof.
  intros tried.
  assert (attempts (configuredPython setting) = tried) as Htried.
  { unfold attempts, tried. cbn [List.filter]. by rewrite configuredPython_truthy. }
  destruct (resolvePythonPath_attempts sp (configuredPython setting)) as (Hsome & Hnone).
  rewrite Htried in *. unfold activate.
  destruct (resolvePythonPath sp (configuredPython setting)) as [p|].
  - right. destruct (proj1 (Hsome p) eq_refl) as (n & Hn). exists n, p. done.
  - left. split; [by apply Hnone | done].
Qed.

(** X11. [deactivate] stops the client when there is one and forgets it
    once the stop is fulfilled, so that a second call does nothing; a
    rejected stop leaves the client in place. It never touches the output
    channel, the terminal or the stored keys. *)
Theorem deactivate_outcome (stopped : bool) (e : Extension) :
  globals (deactivate stopped e).1 = globals e
  /\ subscribed (deactivate stopped e).1 = subscribed e
  /\ ((deactivate stopped e).2 = [] <-> client e = None)
  /\ (client (deactivate stopped e).1 = None <-> client e = None \/ stopped = true)
  /\ deactivate stopped (deactivate true e).1 = ((deactivate true e).1, []).
Proof.
  unfold deactivate. destruct (client e) as [c|] eqn:Hc, stopped; cbn [fst snd client globals subscribed];
    rewrite ?Hc; repeat split; try done; try tauto; try (intros [|]; done).
Qed.

(** ** Cases and marker lines *)

Lemma pushed_sound total : forall ls i c,
  c ∈ pushed total ls i ->
  exists k text ds,
    startLine c = Z.of_nat k /\ (i <= k)%nat /\ ls !! (k - i)%nat = Some text
    /\ Regex.String_match text Regex.case_marker = Some ds
    /\ id c = JS.Number_of_digits ds.
Proof.
  induction ls as [|text ls IH]; intros i c Hin; cbn [pushed] in Hin.
  - by apply elem_of_nil in Hin.
  - assert (c ∈ pushed total ls (S i) ->
            exists k text' ds,
              startLine c = Z.of_nat k /\ (i <= k)%nat
              /\ (text :: ls) !! (k - i)%nat = Some text'
              /\ Regex.String_match text' Regex.case_marker = Some ds
              /\ id c = JS.Number_of_digits ds) as Htail.
    { intros Hc. destruct (IH (S i) c Hc) as (k & text' & ds & Hs & Hk & Hl & Hm & Hid).
      exists k, text', ds. split; [done|]. split; [lia|].
      replace (k - i)%nat with (S (k - S i)) by lia. done. }
    destruct (Regex.String_match text Regex.case_marker) as [m1|] eqn:Hm; [|by apply Htail].
    apply elem_of_cons in Hin as [->|Hin]; [|by apply Htail].
    exists i, text, m1. cbn [startLine id]. rewrite Nat.sub_diag. done.
Qed.

Lemma pushed_complete total : forall ls i j text ds,
  ls !! j = Some text ->
  Regex.String_match text Regex.case_marker = Some ds ->
  exists c, c ∈ pushed total ls i
            /\ startLine c = Z.of_nat (i + j) /\ id c = JS.Number_of_digits ds.
Proof.
  induction ls as [|t ls IH]; intros i j text ds Hj Hm; [by rewrite lookup_nil in Hj|].
  cbn [pushed]. destruct j as [|j].
  - injection Hj as ->. rewrite Hm. eexists. split; [by left|].
    cbn [startLine id]. by rewrite Nat.add_0_r.
  - cbn in Hj. destruct (IH (S i) j text ds Hj Hm) as (c & Hin & Hs & Hid).
    exists c. replace (i + S j)%nat with (S i + j)%nat by lia.
    destruct (Regex.String_match t Regex.case_marker);
      [split; [by right | done] | done].
Qed.

Lemma chained_marks cases : map mark (chained cases) = map mark cases.
Proof.
  induction cases as [|c cases IH]; [done|].
  destruct (chained_head c cases) as (e & -> & _). cbn [map]. by rewrite IH.
Qed.

Lemma same_marks (l1 l2 : list Case) c :
  map mark l1 = map mark l2 -> c ∈ l1 ->
  exists c', c' ∈ l2 /\ startLine c' = startLine c /\ id c' = id c.
Proof.
  intros Heq Hin. assert (mark c ∈ map mark l2) as Hm.
  { rewrite <- Heq. by apply list_elem_of_fmap_2. }
  apply list_elem_of_fmap in Hm as (c' & Hmark & Hin'). exists c'. split; [done|].
  unfold mark in Hmark. by injection Hmark as -> ->.
Qed.

Lemma decimal_nonneg ds :
  forallb JS.is_digit ds = true -> 0 <= JS.decimal ds.
Proof.
  unfold JS.decimal.
  assert (forall acc, 0 <= acc -> forallb JS.is_digit ds = true ->
            0 <= fold_left (fun a c => 10 * a + (Z.of_N c - 48)) ds acc) as Hgen.
  { induction ds as [|c ds IH]; intros acc Hacc Hds; cbn [fold_left forallb] in *; [done|].
    apply andb_true_iff in Hds as [Hc Hds]. apply IH; [|done].
    unfold JS.is_digit in Hc. apply andb_true_iff in Hc as [Hlo _].
    apply N.leb_le in Hlo. lia. }
  by apply Hgen.
Qed.

Lemma ascending_bounds total : forall cases lo c,
  ascending total lo cases -> c ∈ cases -> lo <= startLine c <= total - 1.
Proof.
  induction cases as [|d cases IH]; intros lo c Hasc Hin; [by apply elem_of_nil in Hin|].
  inversion Hasc as [|? ? ? Hlo Hhi Hend Hrest]; subst.
  apply elem_of_cons in Hin as [->|Hin]; [lia|].
  specialize (IH _ c Hrest Hin). lia.
Qed.

Lemma pushed_doc doc :
  ascending (lineCount doc) 0 (pushed (lineCount doc) (lines doc) 0).
Proof. apply (pushed_ascending (lineCount doc) (lines doc) 0). unfold lineCount. lia. Qed.

(** X12. The cases stand one for one for the marker lines of the document:
    a case starts at line [k] with the id [x] exactly when line [k] is a
    marker whose digits convert to the Number [x]. The id is the binary64
    value nearest to the number that the digits write: that number itself
    below 2^53 and a rounded value from there on, so that the marker
    "# CASE 9007199254740993" gives the id 9007199254740992, and the
    infinity for a run of 400 digits. Start lines lie in the document,
    and there is no case exactly when no line is a marker. *)
Theorem cases_are_markers (doc : TextDocument) :
  (forall k (x : JS.number),
     (exists c, c ∈ extractCases doc /\ startLine c = Z.of_nat k /\ id c = x)
     <-> exists text, lines doc !! k = Some text /\ marker_id text = Some x)
  /\ (forall c, c ∈ extractCases doc ->
        0 <= startLine c < lineCount doc
        /\ exists text ds,
             lines doc !! Z.to_nat (startLine c) = Some text
             /\ marker_shape text ds
             /\ 0 <= JS.decimal ds
             /\ JS.value_of (id c) = JS.nearest (JS.decimal ds)
             /\ (JS.decimal ds < 2 ^ 53 -> JS.value_of (id c) = JS.Finite (JS.decimal ds)))
  /\ (extractCases doc = [] <-> Forall (fun text => marker_id text = None) (lines doc))
  /\ (length (extractCases doc) <= length (lines doc))%nat
  /\ map (fun c => JS.value_of (id c)) (extractCases large_ids)
     = [JS.Finite 9007199254740992; JS.Finite (10 ^ 21); JS.Infinite false].
Proof.
  pose proof (chained_marks (pushed (lineCount doc) (lines doc) 0)) as Hmarks.
  rewrite <- extractCases_eq in Hmarks.
  assert (forall c, c ∈ extractCases doc ->
            exists k text ds,
              startLine c = Z.of_nat k /\ lines doc !! k = Some text
              /\ Regex.String_match text Regex.case_marker = Some ds
              /\ id c = JS.Number_of_digits ds) as Hsound.
  { intros c Hin. destruct (same_marks _ _ c Hmarks Hin) as (c' & Hin' & Hs & Hid).
    destruct (pushed_sound _ _ _ _ Hin') as (k & text & ds & Hk & _ & Hl & Hm & Hn).
    rewrite Nat.sub_0_r in Hl. exists k, text, ds. repeat split; congruence. }
  split; [|split; [|split; [|split]]].
  - intros k n. split.
    + intros (c & Hin & Hs & Hid).
      destruct (Hsound c Hin) as (k' & text & ds & Hk & Hl & Hm & Hn).
      assert (k' = k) as -> by lia. exists text. split; [done|].
      unfold marker_id. rewrite Hm. cbn. congruence.
    + intros (text & Hl & Hm). unfold marker_id in Hm.
      destruct (Regex.String_match text Regex.case_marker) as [ds|] eqn:Hds; [|done].
      injection Hm as Hn.
      destruct (pushed_complete (lineCount doc) (lines doc) 0 k text ds Hl Hds)
        as (c & Hin & Hs & Hid).
      destruct (same_marks _ _ c (eq_sym Hmarks) Hin) as (c' & Hin' & Hs' & Hid').
      cbn [Nat.add] in Hs. exists c'. split; [done|]. split; congruence.
  - intros c Hin. destruct (Hsound c Hin) as (k & text & ds & Hk & Hl & Hm & Hn).
    pose proof (lookup_lt_Some _ _ _ Hl) as Hlt. split; [unfold lineCount; lia|].
    exists text, ds. rewrite Hk, Nat2Z.id. split; [done|].
    apply String_match_shape in Hm. split; [done|].
    assert (0 <= JS.decimal ds) as Hnn.
    { apply decimal_nonneg.
      destruct Hm as (? & ? & ? & ? & ? & _ & _ & _ & _ & _ & _ & Hd & _). exact Hd. }
    split; [done|]. rewrite Hn. unfold JS.Number_of_digits.
    split; [apply of_Z_value|]. intros Hsmall. apply of_Z_small. lia.
  - pose proof (extractCases_ids doc) as Hids. split.
    + intros Hnil. rewrite Hnil in Hids. cbn in Hids.
      apply Forall_forall. intros text Hin.
      destruct (marker_id text) as [n|] eqn:Hm; [|done].
      assert (n ∈ omap marker_id (lines doc)) as Hn by (apply list_elem_of_omap; eauto).
      rewrite <- Hids in Hn. by apply elem_of_nil in Hn.
    + intros Hnone. destruct (extractCases doc) as [|c cs]; [done|]. exfalso.
      assert (id c ∈ omap marker_id (lines doc)) as Hn by (rewrite <- Hids; left).
      apply list_elem_of_omap in Hn as (text & Hin & Hm).
      rewrite Forall_forall in Hnone. rewrite (Hnone text Hin) in Hm. done.
  - rewrite <- (length_map id), extractCases_ids.
    clear. induction (lines doc) as [|text ls IH]; [done|].
    cbn [omap list_omap length]. destruct (marker_id text); cbn [length]; lia.
  - vm_compute. reflexivity.
Qed.

(** ** The ranges as a tiling of the document *)

Lemma chained_tiled total : forall cases lo,
  ascending total lo cases -> cases <> [] -> tiled (total - 1) (chained cases).
Proof.
  induction cases as [|c cases IH]; intros lo Hasc Hne; [done|].
  inversion Hasc as [|? ? ? Hlo Hhi Hend Hrest]; subst.
  destruct cases as [|d tl].
  - cbn [chained]. apply tiled_last; lia.
  - change (chained (c :: d :: tl))
      with (set_endLine c (startLine d - 1) :: chained (d :: tl)).
    specialize (IH _ Hrest ltac:(done)).
    destruct (chained_head d tl) as (e & Hd & _). rewrite Hd in *.
    inversion Hrest; subst.
    apply tiled_cons; [cbn [set_endLine startLine endLine]; lia | done | exact IH].
Qed.

Lemma extractCases_tiled doc :
  extractCases doc <> [] -> tiled (lineCount doc - 1) (extractCases doc).
Proof.
  rewrite extractCases_eq. intros Hne.
  apply (chained_tiled (lineCount doc) _ 0); [apply pushed_doc|].
  intros Hnil. by rewrite Hnil in Hne.
Qed.

(** Every range of a tiling lies between the first start line and the
    last line. *)
Lemma tiled_span last cases :
  tiled last cases ->
  forall first rest, cases = first :: rest ->
  forall c, c ∈ cases -> startLine first <= startLine c /\ endLine c <= last.
Proof.
  induction 1 as [c Hc Hend|c d rest Hc Hend Ht IH]; intros first rest' [= <- <-] x Hin.
  - apply list_elem_of_singleton in Hin as ->. lia.
  - destruct (IH d rest eq_refl d ltac:(left)) as [_ Hd].
    assert (startLine d <= endLine d) as Hdd by (inversion Ht; done).
    apply elem_of_cons in Hin as [->|Hin]; [lia|].
    destruct (IH d rest eq_refl x Hin). lia.
Qed.

(** A range ends before every later range starts. *)
Lemma tiled_apart last cases :
  tiled last cases ->
  forall i j c d, cases !! i = Some c -> cases !! j = Some d -> (i < j)%nat ->
                  endLine c < startLine d.
Proof.
  induction 1 as [c Hc Hend|c d rest Hc Hend Ht IH]; intros i j x y Hi Hj Hij.
  - destruct i, j; cbn in *; try lia; by rewrite ?lookup_nil in *.
  - destruct j as [|j]; [lia|]. cbn in Hj.
    destruct i as [|i]; cbn in Hi.
    + injection Hi as <-.
      destruct (tiled_span _ _ Ht d rest eq_refl y) as [Hy _];
        [by eapply list_elem_of_lookup_2|]. lia.
    + apply (IH i j); [done | done | lia].
Qed.

(** Every line from the first start line to the last line is in a range. *)
Lemma tiled_cover last cases :
  tiled last cases ->
  forall first rest, cases = first :: rest ->
  forall n, startLine first <= n <= last ->
  exists c, c ∈ cases /\ startLine c <= n <= endLine c.
Proof.
  induction 1 as [c Hc Hend|c d rest Hc Hend Ht IH]; intros first rest' [= <- <-] n Hn.
  - exists c. split; [left | lia].
  - destruct (Z.le_gt_cases n (endLine c)) as [Hle|Hgt].
    + exists c. split; [left | lia].
    + destruct (IH d rest eq_refl n ltac:(lia)) as (x & Hin & Hx).
      exists x. split; [by right | done].
Qed.

Lemma caseHasIssue_iff diagnostics c :
  caseHasIssue diagnostics c = true
  <-> exists diag, diag ∈ diagnostics /\ startLine c <= start_line diag <= endLine c.
Proof.
  unfold caseHasIssue. rewrite existsb_exists. unfold start_line.
  split; intros (diag & Hin & Hr); exists diag.
  - apply list_elem_of_In in Hin. split; [done|].
    apply andb_true_iff in Hr as [H1 H2]. apply Z.leb_le in H1, H2. lia.
  - apply list_elem_of_In in Hin. split; [done|].
    apply andb_true_iff. split; apply Z.leb_le; lia.
Qed.

Lemma caseHasIssue_one diag c :
  caseHasIssue [diag] c = true <-> startLine c <= start_line diag <= endLine c.
Proof.
  rewrite caseHasIssue_iff. split.
  - intros (d & Hin & Hr). by apply list_elem_of_singleton in Hin as ->.
  - intros Hr. exists diag. split; [left | done].
Qed.

(** X13. The ranges of the cases tile the document from the first marker
    to the last line. So [caseHasIssue] counts a diagnostic in at most one
    case, and in one exactly when its start line lies between the first
    marker and the last line; a diagnostic above the first marker or past
    the end of the document is counted in none. *)
Theorem diagnostic_in_one_case (doc : TextDocument) (diag : Diagnostic) :
  let cases := extractCases doc in
  (forall i j c d, cases !! i = Some c -> cases !! j = Some d ->
                   caseHasIssue [diag] c = true -> caseHasIssue [diag] d = true -> i = j)
  /\ (forall first rest, cases = first :: rest ->
        ((exists c, c ∈ cases /\ caseHasIssue [diag] c = true)
         <-> startLine first <= start_line diag <= lineCount doc - 1)).
Proof.
  intros cases. subst cases. split.
  - intros i j c d Hi Hj Hc Hd.
    assert (extractCases doc <> []) as Hne by (intros Hnil; by rewrite Hnil, lookup_nil in Hi).
    pose proof (tiled_apart _ _ (extractCases_tiled doc Hne)) as Hapart.
    apply caseHasIssue_one in Hc, Hd.
    destruct (Nat.lt_trichotomy i j) as [Hlt|[->|Hlt]]; [|done|].
    + specialize (Hapart i j c d Hi Hj Hlt). lia.
    + specialize (Hapart j i d c Hj Hi Hlt). lia.
  - intros first rest Heq.
    assert (extractCases doc <> []) as Hne by (by rewrite Heq).
    pose proof (extractCases_tiled doc Hne) as Ht. split.
    + intros (c & Hin & Hc). apply caseHasIssue_one in Hc.
      destruct (tiled_span _ _ Ht first rest Heq c Hin) as [H1 H2].
      assert (startLine c <= endLine c) by lia. lia.
    + intros Hn. destruct (tiled_cover _ _ Ht first rest Heq _ Hn) as (c & Hin & Hc).
      exists c. split; [done|]. by apply caseHasIssue_one.
Qed.

(** ** What a case pass reads of the diagnostics *)

Lemma render_cases_congr w ds1 ds2 x : forall cases,
  (forall c, c ∈ cases -> caseHasIssue ds1 c = caseHasIssue ds2 c) ->
  render_cases w ds1 x cases = render_cases w ds2 x cases.
Proof.
  unfold render_cases. induction cases as [|c cs IH]; intros Hsame; [done|].
  cbn [flat_map]. rewrite IH by (intros d Hd; apply Hsame; by right).
  unfold case_line. by rewrite (Hsame c) by left.
Qed.

Lemma report_uri_case_congr h1 h2 clock uri l doc :
  openTextDocument h1 uri = Some doc ->
  openTextDocument h2 uri = Some doc ->
  (forall c, c ∈ extractCases doc ->
             caseHasIssue (filtered h1 uri) c = caseHasIssue (filtered h2 uri) c) ->
  extractCases doc <> [] ->
  report_uri h1 clock uri l = report_uri h2 clock uri l.
Proof.
  intros H1 H2 Hsame Hne. unfold report_uri. rewrite H1, H2.
  fold (filtered h1 uri). fold (filtered h2 uri).
  assert (report_key (filtered h1 uri) (extractCases doc)
          = report_key (filtered h2 uri) (extractCases doc)) as Hkey.
  { unfold report_key. f_equal. apply map_ext_in. intros c Hin.
    apply list_elem_of_In in Hin. unfold case_entry. by rewrite (Hsame c Hin). }
  pose proof (fun w x => render_cases_congr w (filtered h1 uri) (filtered h2 uri) x
                           (extractCases doc) Hsame) as Hrender.
  destruct (0 <? length (extractCases doc))%nat eqn:Hlen; cycle 1.
  { destruct (extractCases doc); [done | discriminate Hlen]. }
  rewrite Hkey. destruct (decide _); [reflexivity|].
  destruct (getCaseTerminal _) as [[[t w] s] evs].
  by rewrite Hrender.
Qed.

(** X14. Of the diagnostics of a document with cases, a pass reads only
    which lines between the first marker and the last line are start
    lines: columns, end positions, messages, the order and the number of
    the diagnostics, and every diagnostic above the first marker or past
    the last line, have no influence on what is stored and written. *)
Theorem case_pass_reads_start_lines (h1 h2 : Host) (clock : nat -> Z) (uri : Uri) (l : Loop)
    (doc : TextDocument) (first : Case) (rest : list Case) :
  openTextDocument h1 uri = Some doc ->
  openTextDocument h2 uri = Some doc ->
  extractCases doc = first :: rest ->
  (forall n, startLine first <= n <= lineCount doc - 1 ->
             (n ∈ map start_line (filtered h1 uri) <-> n ∈ map start_line (filtered h2 uri))) ->
  report_uri h1 clock uri l = report_uri h2 clock uri l.
Proof.
  intros H1 H2 Hcases Hlines.
  assert (extractCases doc <> []) as Hne by (by rewrite Hcases).
  pose proof (tiled_span _ _ (extractCases_tiled doc Hne) first rest Hcases) as Hspan.
  apply (report_uri_case_congr h1 h2 clock uri l doc H1 H2); [|done].
  assert (forall ha hb c,
            (forall n, startLine first <= n <= lineCount doc - 1 ->
                       n ∈ map start_line (filtered ha uri) ->
                       n ∈ map start_line (filtered hb uri)) ->
            c ∈ extractCases doc ->
            caseHasIssue (filtered ha uri) c = true ->
            caseHasIssue (filtered hb uri) c = true) as Hone.
  { intros ha hb c Hsub Hin Hc. apply caseHasIssue_iff in Hc as (d & Hd & Hr).
    destruct (Hspan c Hin) as [Hlo Hhi].
    assert (start_line d ∈ map start_line (filtered hb uri)) as Hd'.
    { apply Hsub; [lia|]. by apply list_elem_of_fmap_2. }
    apply list_elem_of_fmap in Hd' as (d' & Heq & Hin').
    apply caseHasIssue_iff. exists d'. split; [done|]. by rewrite <- Heq. }
  intros c Hin.
  destruct (caseHasIssue (filtered h1 uri) c) eqn:Ha, (caseHasIssue (filtered h2 uri) c) eqn:Hb;
    try done.
  - rewrite (Hone h1 h2 c) in Hb; [done| |done|done]. intros n Hn. by apply Hlines.
  - rewrite (Hone h2 h1 c) in Ha; [done| |done|done]. intros n Hn. by apply Hlines.
Qed.

Lemma case_pass_reads_start_lines_witness :
  report_uri host_two_cases noon cases_py (enter activated)
  = report_uri host_two_cases_moved noon cases_py (enter activated).
Proof.
  apply (case_pass_reads_start_lines host_two_cases host_two_cases_moved noon cases_py
           (enter activated) two_cases
           {| id := 1; startLine := 0; endLine := 1 |}
           [ {| id := 2; startLine := 2; endLine := 3 |} ]).
  - reflexivity.
  - reflexivity.
  - vm_compute. reflexivity.
  - intros n Hn.
    change (map start_line (filtered host_two_cases cases_py)) with [1].
    change (map start_line (filtered host_two_cases_moved cases_py)) with [1; 7].
    change (lineCount two_cases) with 4 in Hn. cbn [startLine] in Hn.
    rewrite list_elem_of_singleton, !elem_of_cons, elem_of_nil. lia.
Defined.

(** ** The keys of the two modes *)

Lemma join_head sep x l :
  exists tail, JS.join sep (x :: l) = x ++ tail /\ (tail = [] \/ exists r, tail = sep ++ r).
Proof.
  destruct l as [|y l].
  - exists []. cbn [JS.join]. rewrite app_nil_r. auto.
  - exists (sep ++ JS.join sep (y :: l)). split; [done|]. right. eauto.
Qed.

Lemma not_numeric_colon : ~ numeric 58%N.
Proof. by_not_numeric. Qed.

Lemma not_numeric_bar : ~ numeric 124%N.
Proof. by_not_numeric. Qed.

(** X15. A key of case mode is never the key of a non-empty flat report:
    the second field of a case entry is the last of the entry, the second
    field of a flat entry is followed by a colon. So a key stored in one
    mode never silences a report in the other: a document that had a flat
    report and now has cases is reported, and so is a document that had
    cases and now has none, with diagnostics. *)
Theorem mode_keys_differ (ds ds' : list Diagnostic) (cases : list Case) :
  cases <> [] -> ds' <> [] ->
  report_key ds cases <> flat_fingerprint ds'
  /\ (forall h clock uri l doc,
        openTextDocument h uri = Some doc ->
        lastReports (st l) !! uri_toString uri = Some (flat_fingerprint ds') ->
        extractCases doc = cases ->
        lastReports (st (loop_of (report_uri h clock uri l))) !! uri_toString uri
          = Some (report_key (filtered h uri) cases)
        /\ shown (loop_of (report_uri h clock uri l)) = true)
  /\ (forall h clock uri l doc,
        openTextDocument h uri = Some doc ->
        lastReports (st l) !! uri_toString uri = Some (report_key ds cases) ->
        extractCases doc = [] -> filtered h uri = ds' ->
        lastReports (st (loop_of (report_uri h clock uri l))) !! uri_toString uri
          = Some (flat_fingerprint ds')
        /\ shown (loop_of (report_uri h clock uri l)) = true).
Proof.
  intros Hcases Hds'.
  assert (forall ds, report_key ds cases <> flat_fingerprint ds') as Hdiff.
  { clear ds. intros ds Heq. unfold report_key, flat_fingerprint in Heq.
    destruct cases as [|c cs]; [done|]. cbn [map] in Heq.
    pose proof (sort_perm (map flat_entry ds')) as Hperm.
    destruct (JS.sort (map flat_entry ds')) as [|e es] eqn:Hsort.
    { apply Permutation_nil_l in Hperm. by destruct ds'. }
    assert (e ∈ map flat_entry ds') as He by (rewrite <- Hperm; left).
    apply list_elem_of_fmap in He as (d & -> & _).
    destruct (join_head (JS.lit "|") (case_entry ds c) (map (case_entry ds) cs))
      as (t1 & Hj1 & Ht1).
    destruct (join_head (JS.lit "|") (flat_entry d) es) as (t2 & Hj2 & _).
    rewrite Hj1, Hj2 in Heq. clear Hj1 Hj2.
    unfold case_entry, flat_entry in Heq. rewrite <- !app_assoc in Heq.
    change (JS.lit ":") with [58%N] in Heq. cbn [app] in Heq.
    apply (app_class_inj numeric) in Heq as (_ & _ & Heq);
      [|apply ToString_numeric|apply ToString_numeric
       |apply not_numeric_colon|apply not_numeric_colon].
    pose proof (ToString_numeric (character (start (range d)))) as Hnum.
    pose proof (ToString_nonempty (character (start (range d)))) as Hnon.
    destruct (JS.ToString (character (start (range d)))) as [|a [|b col]]; [done| |].
    - assert (exists f, JS.ToString (if caseHasIssue ds c then 1 else 0) = [f]) as [f Hf]
        by (destruct (caseHasIssue ds c); eexists; reflexivity).
      rewrite Hf in Heq. cbn [app] in Heq. injection Heq as _ Heq.
      destruct Ht1 as [->|[r ->]]; [discriminate Heq|].
      change (JS.lit "|") with [124%N] in Heq. cbn [app] in Heq. discriminate Heq.
    - assert (exists f, JS.ToString (if caseHasIssue ds c then 1 else 0) = [f]) as [f Hf]
        by (destruct (caseHasIssue ds c); eexists; reflexivity).
      rewrite Hf in Heq. cbn [app] in Heq. injection Heq as _ Heq.
      destruct Ht1 as [->|[r ->]]; [discriminate Heq|].
      change (JS.lit "|") with [124%N] in Heq. cbn [app] in Heq. injection Heq as <- _.
      inversion Hnum as [|? ? _ Hb]; subst. inversion Hb as [|? ? Hbar _]; subst.
      by apply not_numeric_bar. }
  split; [apply Hdiff|]. split.
  - intros h clock uri l doc Hdoc Hstored <-.
    destruct (report_uri_case_new h clock uri l doc Hdoc)
      as (l' & -> & _ & Hst & _ & Hshown & _); [done| |].
    + rewrite Hstored. intros [= Heq]. by apply (Hdiff (filtered h uri)).
    + cbn [loop_of]. rewrite Hst, lookup_insert_eq. done.
  - intros h clock uri l doc Hdoc Hstored Hnone <-.
    destruct (report_uri_flat_new h clock uri l doc Hdoc Hnone Hds')
      as (l' & es & -> & _ & _ & Hst & Hshown & _).
    + rewrite Hstored. intros [= Heq]. by apply (Hdiff ds).
    + rewrite Hst. cbn [set_lastReports lastReports]. rewrite lookup_insert_eq. done.
Qed.

Lemma mode_keys_differ_witness :
  extractCases two_cases <> [] /\ [diag_at 1 6 (JS.lit "reflected XSS")] <> []
  /\ report_key [] (extractCases two_cases)
     <> flat_fingerprint [diag_at 1 6 (JS.lit "reflected XSS")].
Proof.
  assert (extractCases two_cases <> []) as Hc by (vm_compute; discriminate).
  assert ([diag_at 1 6 (JS.lit "reflected XSS")] <> []) as Hd by discriminate.
  split; [exact Hc|]. split; [exact Hd|].
  exact (proj1 (mode_keys_differ [] [diag_at 1 6 (JS.lit "reflected XSS")]
                  (extractCases two_cases) Hc Hd)).
Defined.

(** ** Documents without cases *)

Lemma report_uri_flat_clock h clock clock' uri l doc :
  openTextDocument h uri = Some doc -> extractCases doc = [] ->
  report_uri h clock uri l = report_uri h clock' uri l
  /\ reads (loop_of (report_uri h clock uri l)) = reads l.
Proof.
  intros Hdoc Hnone. unfold report_uri. rewrite Hdoc, Hnone. cbn [length Nat.ltb Nat.leb].
  split; [reflexivity|].
  destruct (length (List.filter is_xss (getDiagnostics h uri)) =? 0)%nat; [done|].
  destruct (decide _); [done|].
  unfold reveal_channel, emit, with_state. cbn [st shown terminalShown reads out].
  by destruct (render_flat doc uri _ []), (shown l).
Qed.

(** X16. The pass over a document without cases writes on the output
    channel only. It does not read the clock, and it leaves the terminal,
    its writer and the flag of the terminal as they are: no terminal is
    created or revealed for a flat report. *)
Theorem flat_pass_channel_only (h : Host) (clock : nat -> Z) (uri : Uri) (l : Loop)
    (doc : TextDocument) :
  openTextDocument h uri = Some doc ->
  extractCases doc = [] ->
  let l' := loop_of (report_uri h clock uri l) in
  (exists es, out l' = out l ++ es /\ Forall is_channel_event es)
  /\ caseTerminal (st l') = caseTerminal (st l)
  /\ caseTerminalWriter (st l') = caseTerminalWriter (st l)
  /\ created (st l') = created (st l)
  /\ terminalShown l' = terminalShown l
  /\ reads l' = reads l
  /\ forall clock', report_uri h clock' uri l = report_uri h clock uri l.
Proof.
  intros Hdoc Hnone l'.
  assert (reads l' = reads l /\ forall clock', report_uri h clock' uri l = report_uri h clock uri l)
    as [Hreads Hclock].
  { split; [apply (report_uri_flat_clock h clock clock uri l doc Hdoc Hnone)|].
    intros clock'. apply (report_uri_flat_clock h clock' clock uri l doc Hdoc Hnone). }
  assert ((exists es, out l' = out l ++ es /\ Forall is_channel_event es)
          /\ caseTerminal (st l') = caseTerminal (st l)
          /\ caseTerminalWriter (st l') = caseTerminalWriter (st l)
          /\ created (st l') = created (st l)
          /\ terminalShown l' = terminalShown l) as (H1 & H2 & H3 & H4 & H5); [|done].
  subst l'. clear Hreads Hclock.
  destruct (decide (filtered h uri = [])) as [Hempty|Hds].
  { rewrite (report_uri_flat_empty h clock uri l doc Hdoc Hnone Hempty). cbn [loop_of].
    split; [exists []; by rewrite app_nil_r|]. done. }
  destruct (decide (lastReports (st l) !! uri_toString uri
                    = Some (flat_fingerprint (filtered h uri)))) as [Hsame|Hnew].
  { rewrite (report_uri_flat_same h clock uri l doc Hdoc Hnone Hds Hsame). cbn [loop_of].
    split; [exists []; by rewrite app_nil_r|]. done. }
  destruct (report_uri_flat_new h clock uri l doc Hdoc Hnone Hds Hnew)
    as (l' & es & -> & Hrun & Hout & Hst & _ & Hterm).
  split; [|by rewrite Hst].
  exists ((if shown l then [] else [ChannelShow]) ++ es). split; [done|].
  apply Forall_app. split; [destruct (shown l); repeat constructor|].
  eapply Forall_weaken; [|apply (render_flat_appends doc uri (filtered h uri) [] es)];
    [by_kind | tauto | constructor].
Qed.

Lemma flat_pass_channel_only_witness :
  exists es,
    out (loop_of (report_uri host_plain_issue noon cases_py (enter activated)))
    = out (enter activated) ++ es
    /\ Forall is_channel_event es.
Proof.
  apply (flat_pass_channel_only host_plain_issue noon cases_py (enter activated) plain_py);
    reflexivity.
Defined.

Lemma lineAt_outside doc n : ~ (0 <= n < lineCount doc) -> lineAt doc n = None.
Proof.
  intros Hn. unfold lineAt.
  destruct (Z.leb_spec 0 n), (Z.ltb_spec n (lineCount doc)); cbn [andb]; try done. lia.
Qed.

Lemma render_flat_cut doc uri before d after : forall acc,
  Forall (fun diag => 0 <= start_line diag < lineCount doc) before ->
  ~ (0 <= start_line d < lineCount doc) ->
  render_flat doc uri (before ++ d :: after) acc
  = inr (acc ++ flat_map (flat_lines doc uri) before).
Proof.
  induction before as [|b before IH]; intros acc Hall Hd; cbn [app render_flat flat_map].
  - unfold start_line in Hd. rewrite (lineAt_outside doc _ Hd). by rewrite app_nil_r.
  - inversion Hall as [|? ? Hb Hrest]; subst.
    pose proof (render_flat_inside doc uri [b] acc ltac:(by constructor)) as Hone.
    cbn [render_flat flat_map] in Hone.
    destruct (lineAt doc (line (start (range b)))) as [text|] eqn:Htext; [|discriminate Hone].
    clear Hone. rewrite IH by done.
    pose proof (eq_refl (flat_lines doc uri b)) as Hfl. unfold flat_lines at 2 in Hfl.
    rewrite Htext in Hfl. cbn [default] in Hfl. rewrite Hfl.
    by rewrite <- app_assoc.
Qed.

(** X17. A diagnostic of the analyzer whose start line is not a line of
    the document cuts the flat report: the entries of the diagnostics
    before it are written, the exception of [lineAt] ends the call, and the
    documents after it in the batch are not handled. The key has been
    stored before, so the report is not written again, and not completed,
    as long as the diagnostics stay the same. *)
Theorem flat_report_cut (h : Host) (clock : nat -> Z) (uri : Uri) (rest : list Uri)
    (s : State) (doc : TextDocument) (before after : list Diagnostic) (d : Diagnostic) :
  outputChannel s = true ->
  openTextDocument h uri = Some doc ->
  extractCases doc = [] ->
  filtered h uri = before ++ d :: after ->
  Forall (fun diag => 0 <= start_line diag < lineCount doc) before ->
  ~ (0 <= start_line d < lineCount doc) ->
  lastReports s !! uri_toString uri <> Some (flat_fingerprint (filtered h uri)) ->
  exists l',
    reportXssDiagnostics h clock (uri :: rest) s = Throw l'
    /\ out l' = ChannelShow :: flat_map (flat_lines doc uri) before
    /\ lastReports (st l') !! uri_toString uri = Some (flat_fingerprint (filtered h uri))
    /\ forall clock', reportXssDiagnostics h clock' [uri] (st l') = Normal (enter (st l')).
Proof.
  intros Hch Hdoc Hnone Hds Hbefore Hd Hnew.
  assert (filtered h uri <> []) as Hne by (rewrite Hds; by destruct before).
  destruct (report_uri_flat_new h clock uri (enter s) doc Hdoc Hnone Hne Hnew)
    as (l' & es & _ & Hrun & Hout & Hst & _).
  rewrite Hds in Hrun at 1 2. rewrite (render_flat_cut doc uri before d after [] Hbefore Hd) in Hrun.
  destruct Hrun as [[Hr _]|[Hr Hrun]]; [discriminate Hr|]. injection Hr as <-.
  exists l'. unfold reportXssDiagnostics. rewrite Hch. cbn [for_uris]. rewrite Hrun.
  split; [done|]. split; [by rewrite Hout|].
  assert (lastReports (st l') !! uri_toString uri = Some (flat_fingerprint (filtered h uri)))
    as Hstored by (rewrite Hst; cbn [set_lastReports lastReports]; apply lookup_insert_eq).
  split; [done|]. intros clock'.
  assert (outputChannel (st l') = true) as -> by (by rewrite Hst).
  cbn [for_uris].
  by rewrite (report_uri_flat_same h clock' uri (enter (st l')) doc Hdoc Hnone Hne Hstored).
Qed.

Lemma flat_report_cut_witness :
  exists l',
    reportXssDiagnostics host_plain_stale noon [cases_py; a_py] activated = Throw l'
    /\ out l' = ChannelShow
                  :: flat_map (flat_lines plain_py cases_py)
                       [diag_at 0 0 (JS.lit "reflected XSS")]
    /\ lastReports (st l') !! uri_toString cases_py
       = Some (flat_fingerprint (filtered host_plain_stale cases_py))
    /\ forall clock',
         reportXssDiagnostics host_plain_stale clock' [cases_py] (st l') = Normal (enter (st l')).
Proof.
  apply (flat_report_cut host_plain_stale noon cases_py [a_py] activated plain_py
           [diag_at 0 0 (JS.lit "reflected XSS")]
           [diag_at 1 0 (JS.lit "reflected XSS")]
           (diag_at 9 0 (JS.lit "stored XSS"))).
  - reflexivity.
  - reflexivity.
  - reflexivity.
  - reflexivity.
  - repeat constructor; vm_compute; congruence.
  - vm_compute. intros [_ H]. discriminate H.
  - cbn [activated lastReports]. rewrite lookup_empty. discriminate.
Defined.

(** X18. A flat report is not repeated when its diagnostics come back
    after they had been cleared: the pass over the document without
    diagnostics writes nothing and keeps the stored key, so the same
    diagnostics, in any order, still meet their key. *)
Theorem flat_report_not_repeated (h1 h2 h3 : Host) (clock1 clock2 clock3 : nat -> Z)
    (uri : Uri) (s : State) (doc1 doc2 doc3 : TextDocument) :
  openTextDocument h1 uri = Some doc1 -> extractCases doc1 = [] -> filtered h1 uri <> [] ->
  openTextDocument h2 uri = Some doc2 -> extractCases doc2 = [] -> filtered h2 uri = [] ->
  openTextDocument h3 uri = Some doc3 -> extractCases doc3 = [] ->
  filtered h3 uri ≡ₚ filtered h1 uri ->
  let reported := loop_of (reportXssDiagnostics h1 clock1 [uri] s) in
  let cleared := loop_of (reportXssDiagnostics h2 clock2 [uri] (st reported)) in
  let again := loop_of (reportXssDiagnostics h3 clock3 [uri] (st cleared)) in
  out cleared = [] /\ st cleared = st reported
  /\ out again = [] /\ st again = st reported.
Proof.
  intros Hdoc1 Hnone1 Hds1 Hdoc2 Hnone2 Hds2 Hdoc3 Hnone3 Hperm reported cleared again.
  assert (out cleared = [] /\ st cleared = st reported) as [Hout2 Hst2].
  { subst cleared. unfold reportXssDiagnostics.
    destruct (outputChannel (st reported)); [|done]. cbn [for_uris].
    by rewrite (report_uri_flat_empty h2 clock2 uri _ doc2 Hdoc2 Hnone2 Hds2). }
  split; [done|]. split; [done|].
  subst again. rewrite Hst2. unfold reportXssDiagnostics.
  destruct (outputChannel (st reported)) eqn:Hch; [|done]. cbn [for_uris].
  assert (filtered h3 uri <> []) as Hds3.
  { intros Hnil. rewrite Hnil in Hperm. apply Permutation_nil_l in Hperm. done. }
  rewrite (report_uri_flat_same h3 clock3 uri _ doc3 Hdoc3 Hnone3 Hds3); [done|].
  cbn [enter st]. rewrite (flat_fingerprint_perm _ _ Hperm).
  subst reported. unfold reportXssDiagnostics.
  assert (outputChannel s = true) as Hs.
  { destruct (outputChannel s) eqn:Hs; [done|].
    unfold reportXssDiagnostics in Hch. rewrite Hs in Hch. cbn in Hch. congruence. }
  rewrite Hs. cbn [for_uris].
  pose proof (report_uri_stores h1 clock1 uri (enter s) doc1 Hdoc1 (or_intror Hds1)) as Hstored.
  rewrite fingerprint_of_flat in Hstored by done.
  by destruct (report_uri h1 clock1 uri (enter s)).
Qed.

Lemma flat_report_not_repeated_witness :
  out (loop_of (reportXssDiagnostics host_plain_issue half_past_noon [cases_py]
                  (st (loop_of (reportXssDiagnostics (host_of plain_py []) noon [cases_py]
                         (st (loop_of (reportXssDiagnostics host_plain_issue noon [cases_py]
                                         activated)))))))) = [].
Proof.
  apply (flat_report_not_repeated host_plain_issue (host_of plain_py []) host_plain_issue
           noon noon half_past_noon cases_py activated plain_py plain_py plain_py);
    try reflexivity.
  discriminate.
Defined.

(** ** Reports and stored keys, turn by turn *)

Lemma report_uri_writes h clock uri l :
  out (loop_of (report_uri h clock uri l)) <> out l ->
  lastReports (st (loop_of (report_uri h clock uri l))) !! uri_toString uri
  <> lastReports (st l) !! uri_toString uri.
Proof.
  intros Hout.
  destruct (openTextDocument h uri) as [doc|] eqn:Hdoc; cycle 1.
  { exfalso. apply Hout. unfold report_uri. by rewrite Hdoc. }
  destruct (decide (lastReports (st l) !! uri_toString uri = Some (fingerprint_of h uri doc)
                    \/ (extractCases doc = [] /\ filtered h uri = []))) as [Hs|Hn].
  { exfalso. apply Hout.
    by destruct (report_uri_settled h clock uri l doc Hdoc Hs) as [rd ->]. }
  rewrite (report_uri_stores h clock uri l doc Hdoc).
  - intros Heq. apply Hn. by left.
  - destruct (decide (extractCases doc = [])) as [Hc|Hc]; [right|by left].
    intros Hd. apply Hn. by right.
Qed.

(** X19. However the turns interleave, nothing is written without a
    change of the stored key: a turn that writes on the channel or on the
    terminal is the resumption of a suspended call, and it leaves for the
    document that the call awaited a key other than the one it found. *)
Theorem written_report_changes_key (t : turn) (r : Running) :
  (step t r).2 <> [] ->
  exists i h clock c,
    t = Settled i h clock /\ calls r !! i = Some c
    /\ lastReports (vars (step t r).1) !! uri_toString (awaited c)
       <> lastReports (vars r) !! uri_toString (awaited c).
Proof.
  intros Hout. destruct t as [n now|i h clock]; cbn [step fst snd] in *; [done|].
  destruct (settle_cases i h clock r) as [Hidle|(c & Hc & Hvars & Hevents)].
  { by rewrite Hidle in Hout. }
  exists i, h, clock, c. split; [done|]. split; [done|].
  rewrite Hvars. rewrite Hevents in Hout.
  by apply (report_uri_writes h clock (awaited c) (resumed (vars r) c)).
Qed.

Lemma written_report_changes_key_witness :
  exists i h clock c,
    Settled 0 host_two_cases noon = Settled i h clock
    /\ calls (run [Notified (DidChangeDiagnostics [cases_py]) 1700000000000] started).1 !! i
       = Some c
    /\ lastReports
         (vars (step (Settled 0 host_two_cases noon)
                  (run [Notified (DidChangeDiagnostics [cases_py]) 1700000000000] started).1).1)
         !! uri_toString (awaited c)
       <> lastReports
            (vars (run [Notified (DidChangeDiagnostics [cases_py]) 1700000000000] started).1)
            !! uri_toString (awaited c).
Proof.
  apply (written_report_changes_key (Settled 0 host_two_cases noon)
           (run [Notified (DidChangeDiagnostics [cases_py]) 1700000000000] started).1).
  vm_compute. discriminate.
Defined.

(** X20. The flag [terminalShown] belongs to the call, the terminal to
    the module. When the terminal is closed while a call that has already
    revealed it is suspended, the next report of that call creates a new
    terminal and writes to it without revealing it. *)
Theorem new_terminal_not_revealed (i : nat) (h : Host) (clock : nat -> Z) (r : Running)
    (c : Call) (doc : TextDocument) :
  calls r !! i = Some c ->
  call_terminalShown c = true ->
  paired_handles (vars r) ->
  caseTerminal (vars r) = None ->
  openTextDocument h (awaited c) = Some doc ->
  extractCases doc <> [] ->
  lastReports (vars r) !! uri_toString (awaited c)
    <> Some (report_key (filtered h (awaited c)) (extractCases doc)) ->
  exists x,
    (settle i h clock r).2
    = (if call_shown c then [] else [ChannelShow])
        ++ TerminalCreate (created (vars r))
           :: render_cases (created (vars r)) (filtered h (awaited c)) x (extractCases doc)
    /\ caseTerminal (vars (settle i h clock r).1) = Some (created (vars r))
    /\ Forall (fun e => ~ is_terminal_show e) (settle i h clock r).2.
Proof.
  intros Hc Hshown Hpair Hnone Hdoc Hcases Hnew.
  destruct (report_uri_case_new_state h clock (awaited c) (resumed (vars r) c) doc
              Hdoc Hcases Hnew) as (l' & Hrun & Hst & Hout & _).
  destruct (reveals_fresh (resumed (vars r) c) Hpair Hnone)
    as (Hrev & Hw & s' & Hs' & Ht' & _).
  rewrite Hrev, Hw in Hout. cbn [resumed st out shown terminalShown app] in Hout.
  rewrite Hshown in Hout.
  unfold settle. rewrite Hc, Hrun. cbn [fst snd vars].
  exists (JS.div1000 (Z.max 0 (elapsedMs_of clock (awaited c) (resumed (vars r) c)))).
  rewrite Hout. split; [by rewrite <- app_assoc|]. split.
  - rewrite Hst, getCaseTerminal_set_lastReports. cbn [fst snd set_lastReports caseTerminal].
    cbn [resumed st] in Hs'. cbn [resumed st]. rewrite Hs'. exact Ht'.
  - apply Forall_app. split.
    + apply Forall_app. split; [destruct (call_shown c)|]; repeat constructor; by intros [].
    + eapply Forall_weaken; [|apply render_cases_text]. by_kind.
Qed.

Lemma new_terminal_not_revealed_witness :
  exists x,
    (settle 0 (host_of two_cases []) noon (run closed_in_between started).1).2
    = TerminalCreate 1 :: render_cases 1 [] x (extractCases two_cases).
Proof.
  destruct (new_terminal_not_revealed 0 (host_of two_cases []) noon
              (run closed_in_between started).1
              {| call_shown := true; call_terminalShown := true; call_reads := 2;
                 awaited := a_py; remaining := [] |} two_cases)
    as (x & Hout & _).
  - reflexivity.
  - reflexivity.
  - split; [reflexivity|]. intros t Ht. vm_compute in Ht. discriminate Ht.
  - reflexivity.
  - reflexivity.
  - vm_compute. discriminate.
  - vm_compute. discriminate.
  - exists x. exact Hout.
Defined.
